(** * Ledger and background-simulation engine of the banking backend

    A shallow embedding of the route handlers and background services that
    mutate account balances, together with the Mongoose models they go
    through.

    Modelling conventions.
    - The development has two parts.  In the first part a JavaScript
      [Number] is an exact rational ([Qc]): its theorems are about which
      branch a handler takes, which documents it writes and which paths of
      a document stay as they are.  The second part, module [B64], embeds
      the same handlers and services over binary64 numbers ([float]), with
      the rounding, the infinities and [NaN] of IEEE-754; every theorem
      about the value that an addition, a subtraction or a multiplication
      stores is stated and proved there.
    - A collection is the list of its documents in insertion order.  An
      [ObjectId] is a natural number drawn from the store-wide counter
      [nextId].
    - The schema validators that Mongoose runs inside [save] and [create]
      ([required], [min], [max], [enum]) are modelled; a failing validator
      throws, and the [try]/[catch] of the caller decides what happens
      next.  Writes that happened before the throw stay in the store: there
      is no rollback anywhere in the source.
    - Between the read and the [save] of a document inside one handler call
      or one loop iteration nothing else writes it, so [save] writes the
      in-memory document back under its [_id].
    - The [unique] option on [Transaction.reference] is an index of the
      database.  In the first part it is modelled for references supplied
      by the client, and a reference generated by the pre-save hook
      (timestamp plus random suffix) is represented by [None]; in [B64] the
      hook draws its random value, the generated string is stored, and the
      index covers it as well.
    - A handler is modelled from the point where the [protect] and
      [validate] middlewares have let the request through: it receives the
      authenticated account id and the (typed) request body.
    - [new Date()] and [Date.now()] read one clock value [now] per handler
      call or per service run.
    - [Math.random()] reads the next value of a stream [rnd]; in [B64]
      the store carries the number of values drawn so far, so that every
      call, the one of the pre-save hook included, moves the position. *)

From Stdlib Require Import QArith Qcanon Lqa ZArith List String Bool Arith Lia.
Import ListNotations.

Local Open Scope Qc_scope.

(** ** Numbers *)

Abbreviation Number := Qc (only parsing).

(** [x < y] and [x <= y] on numbers, as the booleans the code branches on. *)
Definition Qcltb (x y : Number) : bool := negb (Qle_bool (this y) (this x)).
Definition Qcleb (x y : Number) : bool := Qle_bool (this x) (this y).

(** [x === y] on numbers *)
Definition Qceqb (x y : Number) : bool := Qeq_bool (this x) (this y).

(** [Math.max(x, y)] *)
Definition Qcmax (x y : Number) : Number := if Qcltb x y then y else x.

(** [Math.abs(x)] *)
Definition Qcabs (x : Number) : Number := if Qcltb x 0 then - x else x.

(** ** Currencies *)

Inductive Currency := USD | EUR | GBP | CNY | NGN | BTC | TRX | TON | ETH.

Definition currency_eqb (a b : Currency) : bool :=
  match a, b with
  | USD, USD | EUR, EUR | GBP, GBP | CNY, CNY | NGN, NGN
  | BTC, BTC | TRX, TRX | TON, TON | ETH, ETH => true
  | _, _ => false
  end.

(** The string a currency is written as in requests and table keys. *)
Definition currency_name (c : Currency) : string :=
  match c with
  | USD => "USD" | EUR => "EUR" | GBP => "GBP" | CNY => "CNY" | NGN => "NGN"
  | BTC => "BTC" | TRX => "TRX" | TON => "TON" | ETH => "ETH"
  end.

(** ** User model (models/User.js) *)

(** [userSchema.balances]: nine numeric paths, each [default: 0, min: 0]. *)
Record Balances := {
  bUSD : Number; bEUR : Number; bGBP : Number; bCNY : Number; bNGN : Number;
  bBTC : Number; bTRX : Number; bTON : Number; bETH : Number
}.

(** [user.balances[currency]] *)
Definition get_balance (b : Balances) (c : Currency) : Number :=
  match c with
  | USD => bUSD b | EUR => bEUR b | GBP => bGBP b | CNY => bCNY b
  | NGN => bNGN b | BTC => bBTC b | TRX => bTRX b | TON => bTON b
  | ETH => bETH b
  end.

(** [user.balances[currency] = v] *)
Definition set_balance (b : Balances) (c : Currency) (v : Number) : Balances :=
  match c with
  | USD => {| bUSD := v; bEUR := bEUR b; bGBP := bGBP b; bCNY := bCNY b; bNGN := bNGN b;
              bBTC := bBTC b; bTRX := bTRX b; bTON := bTON b; bETH := bETH b |}
  | EUR => {| bUSD := bUSD b; bEUR := v; bGBP := bGBP b; bCNY := bCNY b; bNGN := bNGN b;
              bBTC := bBTC b; bTRX := bTRX b; bTON := bTON b; bETH := bETH b |}
  | GBP => {| bUSD := bUSD b; bEUR := bEUR b; bGBP := v; bCNY := bCNY b; bNGN := bNGN b;
              bBTC := bBTC b; bTRX := bTRX b; bTON := bTON b; bETH := bETH b |}
  | CNY => {| bUSD := bUSD b; bEUR := bEUR b; bGBP := bGBP b; bCNY := v; bNGN := bNGN b;
              bBTC := bBTC b; bTRX := bTRX b; bTON := bTON b; bETH := bETH b |}
  | NGN => {| bUSD := bUSD b; bEUR := bEUR b; bGBP := bGBP b; bCNY := bCNY b; bNGN := v;
              bBTC := bBTC b; bTRX := bTRX b; bTON := bTON b; bETH := bETH b |}
  | BTC => {| bUSD := bUSD b; bEUR := bEUR b; bGBP := bGBP b; bCNY := bCNY b; bNGN := bNGN b;
              bBTC := v; bTRX := bTRX b; bTON := bTON b; bETH := bETH b |}
  | TRX => {| bUSD := bUSD b; bEUR := bEUR b; bGBP := bGBP b; bCNY := bCNY b; bNGN := bNGN b;
              bBTC := bBTC b; bTRX := v; bTON := bTON b; bETH := bETH b |}
  | TON => {| bUSD := bUSD b; bEUR := bEUR b; bGBP := bGBP b; bCNY := bCNY b; bNGN := bNGN b;
              bBTC := bBTC b; bTRX := bTRX b; bTON := v; bETH := bETH b |}
  | ETH => {| bUSD := bUSD b; bEUR := bEUR b; bGBP := bGBP b; bCNY := bCNY b; bNGN := bNGN b;
              bBTC := bBTC b; bTRX := bTRX b; bTON := bTON b; bETH := v |}
  end.

(** [userSchema.trading] *)
Record Trading := {
  capital : Number;       (* default 0, min 0 *)
  profit : Number;        (* default 0, min 0 *)
  robotActive : bool      (* default false *)
}.

Inductive UserStatus := active | suspended | banned.

Definition UserStatus_eqb (a b : UserStatus) : bool :=
  match a, b with
  | active, active | suspended, suspended | banned, banned => true
  | _, _ => false
  end.

(** The paths of a user document that the ledger operations read or write.
    Credentials, profile, API keys and settings are not touched by them. *)
Record User := {
  _id : nat;
  balances : Balances;
  trading : Trading;
  status : UserStatus
}.

Definition all_currencies : list Currency :=
  [USD; EUR; GBP; CNY; NGN; BTC; TRX; TON; ETH].

(** The [min: 0] validators of [userSchema], run by [user.save()]. *)
Definition validateUser (u : User) : bool :=
  forallb (fun c => Qcleb 0 (get_balance (balances u) c)) all_currencies
  && Qcleb 0 (capital (trading u))
  && Qcleb 0 (profit (trading u)).

(** ** Transaction model (models/Transaction.js) *)

Inductive TxType :=
  tx_send | tx_receive | tx_transfer | tx_crypto_send | tx_crypto_receive
| tx_mining | tx_trading.

Inductive TxStatus :=
  tx_pending | tx_processing | tx_completed | tx_failed | tx_cancelled.

(** The object handed to [Transaction.create].  An absent path is [None].
    Counterparty details, description and metadata are free text that no
    validator constrains and no ledger operation reads back. *)
Record TransactionDoc := {
  t_user : nat;
  t_type : TxType;
  t_currency : option Currency;        (* required *)
  t_amount : Number;                   (* required, min 0 *)
  t_fromCurrency : option Currency;
  t_toCurrency : option Currency;
  t_convertedAmount : option Number;   (* min 0 *)
  t_exchangeRate : option Number;
  t_status : TxStatus;
  t_reference : option string          (* unique, sparse *)
}.

(** A stored transaction: the document and the [_id] it was given. *)
Record Transaction := {
  t_id : nat;
  t_doc :> TransactionDoc
}.

(** The validators of [transactionSchema]. *)
Definition validateTransaction (d : TransactionDoc) : bool :=
  match t_currency d with Some _ => true | None => false end
  && Qcleb 0 (t_amount d)
  && match t_convertedAmount d with Some v => Qcleb 0 v | None => true end.

(** Is the client-supplied reference [r] already carried by a stored
    transaction? *)
Definition reference_taken (log : list Transaction) (r : option string) : bool :=
  match r with
  | None => false
  | Some s =>
      existsb (fun t : Transaction => match t_reference t with
                        | Some s' => String.eqb s s'
                        | None => false
                        end) log
  end.

(** ** Mining model (models/Mining.js) *)

Inductive MiningType := mt_currency | mt_crypto.

(** [status] is declared with [enum: pending, mining, completed, failed];
    [cancelled] is written by the [updateMany] of the toggle route, which
    runs no validator. *)
Inductive MiningStatus :=
  st_pending | st_mining | st_completed | st_failed | st_cancelled.

Definition is_mining (s : MiningStatus) : bool :=
  match s with st_mining => true | _ => false end.

Record MiningAddress := {
  address : string;
  ma_currency : Currency;
  generatedAt : Z
}.

Record Mining := {
  m_id : nat;
  m_user : nat;
  m_currency : Currency;
  m_type : MiningType;
  m_status : MiningStatus;
  m_progress : Number;                 (* min 0, max 100 *)
  m_targetAmount : Number;
  m_minedAmount : Number;
  m_startTime : Z;
  m_endTime : option Z;
  m_nextMiningTime : option Z;
  m_addresses : list MiningAddress;
  m_transaction : option nat
}.

(** The validators of [miningSchema], run by [mining.save()]. *)
Definition validateMining (m : Mining) : bool :=
  match m_status m with st_cancelled => false | _ => true end
  && Qcleb 0 (m_progress m)
  && Qcleb (m_progress m) (Q2Qc 100).

(** ** Notification and audit-log models *)

Inductive NotificationType := nt_transaction | nt_mining | nt_trading.
Inductive Priority := pr_low | pr_normal | pr_high | pr_urgent.

Record Notification := {
  n_user : nat;
  n_type : NotificationType;
  n_title : string;
  n_priority : Priority
}.

Inductive AuditAction :=
  aa_send_money | aa_receive_money | aa_transfer | aa_send_crypto
| aa_mining_start | aa_mining_complete
| aa_trading_activate | aa_trading_deactivate | aa_trading_profit.

Inductive EntityType := et_transaction | et_mining.

Record AuditLog := {
  a_user : nat;
  a_action : AuditAction;
  a_entityType : option EntityType;
  a_entityId : option nat
}.

(** ** The store *)

Record DB := {
  users : list User;
  minings : list Mining;
  transactions : list Transaction;
  notifications : list Notification;
  auditLogs : list AuditLog;
  nextId : nat
}.

Definition with_users (us : list User) (db : DB) : DB :=
  {| users := us; minings := minings db; transactions := transactions db;
     notifications := notifications db; auditLogs := auditLogs db;
     nextId := nextId db |}.

Definition with_minings (ms : list Mining) (db : DB) : DB :=
  {| users := users db; minings := ms; transactions := transactions db;
     notifications := notifications db; auditLogs := auditLogs db;
     nextId := nextId db |}.

(** ** Store access with exceptions

    A computation reads and writes the store and either returns a value or
    throws.  The store it leaves behind is kept in both cases. *)

Inductive Error := ValidationError | TypeError | DuplicateKeyError.

Inductive Outcome (A : Type) :=
| Returned (a : A)
| Thrown (e : Error).
Arguments Returned {A} a.
Arguments Thrown {A} e.

Definition M (A : Type) : Type := DB -> DB * Outcome A.

Definition ret {A} (a : A) : M A := fun db => (db, Returned a).
Definition throw {A} (e : Error) : M A := fun db => (db, Thrown e).

Definition bind {A B} (c : M A) (k : A -> M B) : M B :=
  fun db =>
    match c db with
    | (db', Returned a) => k a db'
    | (db', Thrown e) => (db', Thrown e)
    end.

Notation "x <- c ;; k" := (bind c (fun x => k))
  (at level 61, c at next level, right associativity).
Notation "c ;; k" := (bind c (fun _ => k))
  (at level 61, right associativity).

(** [try { body } catch (error) { handler }] *)
Definition try_catch {A} (body : M A) (handler : Error -> A) : DB -> DB * A :=
  fun db =>
    match body db with
    | (db', Returned a) => (db', a)
    | (db', Thrown e) => (db', handler e)
    end.

(** Reading a property of [null] throws a [TypeError]. *)
Definition nonnull {A} (o : option A) : M A :=
  match o with
  | Some a => ret a
  | None => throw TypeError
  end.

(** The stored user document with [_id = id], if any. *)
Definition findUser (db : DB) (id : nat) : option User :=
  find (fun u => _id u =? id) (users db).

(** [User.findById(id)] *)
Definition User_findById (id : nat) : M (option User) :=
  fun db => (db, Returned (findUser db id)).

(** Replace the first document selected by [sel]: [updateOne]. *)
Fixpoint updateOne {A} (sel : A -> bool) (f : A -> A) (l : list A) : list A :=
  match l with
  | [] => []
  | x :: l' => if sel x then f x :: l' else x :: updateOne sel f l'
  end.

(** [user.save()]: validate, then write the document back under its
    [_id]. *)
Definition User_save (u : User) : M unit :=
  fun db =>
    if validateUser u
    then (with_users (updateOne (fun x => _id x =? _id u) (fun _ => u) (users db)) db,
          Returned tt)
    else (db, Thrown ValidationError).

(** [Transaction.create(doc)]: validate, check the index on [reference],
    then append under a fresh [_id]. *)
Definition Transaction_create (d : TransactionDoc) : M Transaction :=
  fun db =>
    if negb (validateTransaction d) then (db, Thrown ValidationError)
    else if reference_taken (transactions db) (t_reference d)
    then (db, Thrown DuplicateKeyError)
    else
      let t := {| t_id := nextId db; t_doc := d |} in
      ({| users := users db; minings := minings db;
          transactions := transactions db ++ [t];
          notifications := notifications db; auditLogs := auditLogs db;
          nextId := S (nextId db) |},
       Returned t).

(** [Notification.create(doc)] *)
Definition Notification_create (n : Notification) : M unit :=
  fun db =>
    ({| users := users db; minings := minings db;
        transactions := transactions db;
        notifications := notifications db ++ [n]; auditLogs := auditLogs db;
        nextId := nextId db |},
     Returned tt).

(** [AuditLog.createLog(data)] *)
Definition AuditLog_createLog (a : AuditLog) : M unit :=
  fun db =>
    ({| users := users db; minings := minings db;
        transactions := transactions db;
        notifications := notifications db; auditLogs := auditLogs db ++ [a];
        nextId := nextId db |},
     Returned tt).

(** ** Responses *)

Inductive Response :=
| Success (httpStatus : nat)
| Failure (httpStatus : nat) (code : string).

(** ** Transaction routes (routes/transactions.js) *)

Record SendBody := {
  s_currency : Currency;
  s_amount : Number;
  s_recipient : string;
  s_bank : option string;
  s_reference : option string
}.

(** [router.post('/send', ...)] *)
Definition send (uid : nat) (body : SendBody) : DB -> DB * Response :=
  let currency := s_currency body in
  let amount := s_amount body in
  try_catch
    (found <- User_findById uid ;;
     user <- nonnull found ;;
     if Qcltb (get_balance (balances user) currency) amount
     then ret (Failure 400 "INSUFFICIENT_BALANCE")
     else
       let user :=
         {| _id := _id user;
            balances := set_balance (balances user) currency
                          (get_balance (balances user) currency - amount);
            trading := trading user;
            status := status user |} in
       User_save user ;;
       transaction <- Transaction_create
         {| t_user := _id user; t_type := tx_send;
            t_currency := Some currency; t_amount := amount;
            t_fromCurrency := None; t_toCurrency := None;
            t_convertedAmount := None; t_exchangeRate := None;
            t_status := tx_completed;
            t_reference := s_reference body |} ;;
       Notification_create
         {| n_user := _id user; n_type := nt_transaction;
            n_title := "Money Sent"; n_priority := pr_normal |} ;;
       AuditLog_createLog
         {| a_user := _id user; a_action := aa_send_money;
            a_entityType := Some et_transaction;
            a_entityId := Some (t_id transaction) |} ;;
       ret (Success 200))
    (fun _ => Failure 500 "TRANSACTION_FAILED").

Record ReceiveBody := {
  r_currency : Currency;
  r_amount : Number;
  r_sender : string;
  r_reference : option string
}.

(** [router.post('/receive', ...)] *)
Definition receive (uid : nat) (body : ReceiveBody) : DB -> DB * Response :=
  let currency := r_currency body in
  let amount := r_amount body in
  try_catch
    (found <- User_findById uid ;;
     user <- nonnull found ;;
     let user :=
       {| _id := _id user;
          balances := set_balance (balances user) currency
                        (get_balance (balances user) currency + amount);
          trading := trading user;
          status := status user |} in
     User_save user ;;
     transaction <- Transaction_create
       {| t_user := _id user; t_type := tx_receive;
          t_currency := Some currency; t_amount := amount;
          t_fromCurrency := None; t_toCurrency := None;
          t_convertedAmount := None; t_exchangeRate := None;
          t_status := tx_completed;
          t_reference := r_reference body |} ;;
     Notification_create
       {| n_user := _id user; n_type := nt_transaction;
          n_title := "Money Received"; n_priority := pr_normal |} ;;
     AuditLog_createLog
       {| a_user := _id user; a_action := aa_receive_money;
          a_entityType := Some et_transaction;
          a_entityId := Some (t_id transaction) |} ;;
     ret (Success 200))
    (fun _ => Failure 500 "RECEIVE_FAILED").

(** The [conversionRates] object literal of the transfer route. *)
Definition conversionRates : list (string * Number) :=
  [ ("USD-EUR"%string, Q2Qc 0.92);
    ("USD-GBP"%string, Q2Qc 0.79);
    ("USD-CNY"%string, Q2Qc 7.24);
    ("USD-NGN"%string, Q2Qc 1550);
    ("EUR-USD"%string, Q2Qc 1.09);
    ("GBP-USD"%string, Q2Qc 1.27);
    ("CNY-USD"%string, Q2Qc 0.14);
    ("NGN-USD"%string, Q2Qc 0.00065) ].

(** [table[key]]: the value of an own property, or [undefined]. *)
Fixpoint lookup (key : string) (table : list (string * Number)) : option Number :=
  match table with
  | [] => None
  | (k, v) :: rest => if String.eqb k key then Some v else lookup key rest
  end.

(** [v || d] on a possibly undefined number: [undefined] and [0] are
    falsy. *)
Definition or_default (v : option Number) (d : Number) : Number :=
  match v with
  | Some x => if Qceqb x 0 then d else x
  | None => d
  end.

(** [conversionRates[fromCurrency + '-' + toCurrency] || 1] *)
Definition exchangeRate (fromCurrency toCurrency : Currency) : Number :=
  let key := (currency_name fromCurrency ++ "-" ++ currency_name toCurrency)%string in
  or_default (lookup key conversionRates) 1.

Record TransferBody := {
  x_fromCurrency : Currency;
  x_toCurrency : Currency;
  x_amount : Number
}.

(** [router.post('/transfer', ...)].  The object given to
    [Transaction.create] has no [currency] path. *)
Definition transfer (uid : nat) (body : TransferBody) : DB -> DB * Response :=
  let fromCurrency := x_fromCurrency body in
  let toCurrency := x_toCurrency body in
  let amount := x_amount body in
  try_catch
    (found <- User_findById uid ;;
     if currency_eqb fromCurrency toCurrency
     then ret (Failure 400 "SAME_CURRENCY")
     else
       user <- nonnull found ;;
       if Qcltb (get_balance (balances user) fromCurrency) amount
       then ret (Failure 400 "INSUFFICIENT_BALANCE")
       else
         let rate := exchangeRate fromCurrency toCurrency in
         let convertedAmount := amount * rate in
         let debited :=
           set_balance (balances user) fromCurrency
             (get_balance (balances user) fromCurrency - amount) in
         let credited :=
           set_balance debited toCurrency
             (get_balance debited toCurrency + convertedAmount) in
         let user :=
           {| _id := _id user; balances := credited;
              trading := trading user; status := status user |} in
         User_save user ;;
         transaction <- Transaction_create
           {| t_user := _id user; t_type := tx_transfer;
              t_currency := None; t_amount := amount;
              t_fromCurrency := Some fromCurrency;
              t_toCurrency := Some toCurrency;
              t_convertedAmount := Some convertedAmount;
              t_exchangeRate := Some rate;
              t_status := tx_completed;
              t_reference := None |} ;;
         Notification_create
           {| n_user := _id user; n_type := nt_transaction;
              n_title := "Transfer Completed"; n_priority := pr_normal |} ;;
         AuditLog_createLog
           {| a_user := _id user; a_action := aa_transfer;
              a_entityType := Some et_transaction;
              a_entityId := Some (t_id transaction) |} ;;
         ret (Success 200))
    (fun _ => Failure 500 "TRANSFER_FAILED").

Record InternationalBody := {
  i_currency : Currency;
  i_amount : Number;
  i_swiftCode : string;
  i_iban : string;
  i_recipientName : string
}.

(** [router.post('/international', ...)] *)
Definition international (uid : nat) (body : InternationalBody)
  : DB -> DB * Response :=
  let currency := i_currency body in
  let amount := i_amount body in
  try_catch
    (found <- User_findById uid ;;
     user <- nonnull found ;;
     if Qcltb (get_balance (balances user) currency) amount
     then ret (Failure 400 "INSUFFICIENT_BALANCE")
     else
       let user :=
         {| _id := _id user;
            balances := set_balance (balances user) currency
                          (get_balance (balances user) currency - amount);
            trading := trading user;
            status := status user |} in
       User_save user ;;
       transaction <- Transaction_create
         {| t_user := _id user; t_type := tx_send;
            t_currency := Some currency; t_amount := amount;
            t_fromCurrency := None; t_toCurrency := None;
            t_convertedAmount := None; t_exchangeRate := None;
            t_status := tx_processing;
            t_reference := None |} ;;
       Notification_create
         {| n_user := _id user; n_type := nt_transaction;
            n_title := "International Transfer Initiated";
            n_priority := pr_high |} ;;
       AuditLog_createLog
         {| a_user := _id user; a_action := aa_send_money;
            a_entityType := Some et_transaction;
            a_entityId := Some (t_id transaction) |} ;;
       ret (Success 200))
    (fun _ => Failure 500 "INTERNATIONAL_TRANSFER_FAILED").

(** ** Crypto routes (routes/crypto.js) *)

Record SendCryptoBody := {
  c_currency : Currency;
  c_amount : Number;
  c_recipientAddress : string
}.

(** [router.post('/send', ...)] of the crypto routes *)
Definition sendCrypto (uid : nat) (body : SendCryptoBody) : DB -> DB * Response :=
  let currency := c_currency body in
  let amount := c_amount body in
  try_catch
    (found <- User_findById uid ;;
     user <- nonnull found ;;
     if Qcltb (get_balance (balances user) currency) amount
     then ret (Failure 400 "INSUFFICIENT_BALANCE")
     else
       let user :=
         {| _id := _id user;
            balances := set_balance (balances user) currency
                          (get_balance (balances user) currency - amount);
            trading := trading user;
            status := status user |} in
       User_save user ;;
       transaction <- Transaction_create
         {| t_user := _id user; t_type := tx_crypto_send;
            t_currency := Some currency; t_amount := amount;
            t_fromCurrency := None; t_toCurrency := None;
            t_convertedAmount := None; t_exchangeRate := None;
            t_status := tx_completed;
            t_reference := None |} ;;
       Notification_create
         {| n_user := _id user; n_type := nt_transaction;
            n_title := "Crypto Sent"; n_priority := pr_normal |} ;;
       AuditLog_createLog
         {| a_user := _id user; a_action := aa_send_crypto;
            a_entityType := Some et_transaction;
            a_entityId := Some (t_id transaction) |} ;;
       ret (Success 200))
    (fun _ => Failure 500 "CRYPTO_SEND_FAILED").

(** ** Trading routes (routes/trading.js) *)

(** [router.post('/toggle', ...)] of the trading routes *)
Definition toggleTrading (uid : nat) (enabled : bool) : DB -> DB * Response :=
  try_catch
    (found <- User_findById uid ;;
     user <- nonnull found ;;
     let user :=
       {| _id := _id user; balances := balances user;
          trading := {| capital := capital (trading user);
                        profit := profit (trading user);
                        robotActive := enabled |};
          status := status user |} in
     User_save user ;;
     if enabled
     then
       (if Qceqb (capital (trading user)) 0
        then
          User_save
            {| _id := _id user; balances := balances user;
               trading := {| capital := Q2Qc 10000;
                             profit := profit (trading user);
                             robotActive := enabled |};
               status := status user |}
        else ret tt) ;;
       AuditLog_createLog
         {| a_user := _id user; a_action := aa_trading_activate;
            a_entityType := None; a_entityId := None |} ;;
       ret (Success 200)
     else
       AuditLog_createLog
         {| a_user := _id user; a_action := aa_trading_deactivate;
            a_entityType := None; a_entityId := None |} ;;
       ret (Success 200))
    (fun _ => Failure 500 "TRADING_TOGGLE_FAILED").

(** [router.post('/withdraw-profit', ...)] *)
Definition withdrawProfit (uid : nat) : DB -> DB * Response :=
  try_catch
    (found <- User_findById uid ;;
     user <- nonnull found ;;
     if Qcleb (profit (trading user)) 0
     then ret (Failure 400 "NO_PROFIT")
     else
       let profitAmount := profit (trading user) in
       let user :=
         {| _id := _id user;
            balances := set_balance (balances user) USD
                          (get_balance (balances user) USD + profitAmount);
            trading := {| capital := capital (trading user);
                          profit := 0;
                          robotActive := robotActive (trading user) |};
            status := status user |} in
       User_save user ;;
       transaction <- Transaction_create
         {| t_user := _id user; t_type := tx_trading;
            t_currency := Some USD; t_amount := profitAmount;
            t_fromCurrency := None; t_toCurrency := None;
            t_convertedAmount := None; t_exchangeRate := None;
            t_status := tx_completed;
            t_reference := None |} ;;
       Notification_create
         {| n_user := _id user; n_type := nt_trading;
            n_title := "Profit Withdrawn"; n_priority := pr_high |} ;;
       AuditLog_createLog
         {| a_user := _id user; a_action := aa_trading_profit;
            a_entityType := Some et_transaction;
            a_entityId := Some (t_id transaction) |} ;;
       ret (Success 200))
    (fun _ => Failure 500 "PROFIT_WITHDRAW_FAILED").

(** ** Mining statics and routes (models/Mining.js, routes/mining.js) *)

(** [Mining.getUserActiveMining(userId)]: the route only reads the length
    of the result, so the sort by currency is left out. *)
Definition Mining_getUserActiveMining (userId : nat) : M (list Mining) :=
  fun db =>
    (db, Returned (filter (fun m => (m_user m =? userId) && is_mining (m_status m))
                          (minings db))).

(** The document built by
    [Mining.createMiningOperation(userId, currency, type, targetAmount)],
    under the [_id] it is stored with. *)
Definition newMining (now : Z) (id userId : nat) (currency : Currency)
    (type : MiningType) (targetAmount : Number) : Mining :=
  {| m_id := id; m_user := userId; m_currency := currency;
     m_type := type; m_status := st_mining; m_progress := 0;
     m_targetAmount := targetAmount; m_minedAmount := 0;
     m_startTime := now; m_endTime := None; m_nextMiningTime := None;
     m_addresses := []; m_transaction := None |}.

(** [Mining.createMiningOperation(userId, currency, type, targetAmount)] *)
Definition Mining_createMiningOperation (now : Z) (userId : nat)
    (currency : Currency) (type : MiningType) (targetAmount : Number) : M Mining :=
  fun db =>
    let m := newMining now (nextId db) userId currency type targetAmount in
    ({| users := users db; minings := minings db ++ [m];
        transactions := transactions db;
        notifications := notifications db; auditLogs := auditLogs db;
        nextId := S (nextId db) |},
     Returned m).

(** [for (const x of xs) { await body(x) }] *)
Fixpoint for_each {A} (xs : list A) (body : A -> M unit) : M unit :=
  match xs with
  | [] => ret tt
  | x :: rest => body x ;; for_each rest body
  end.

(** The update [{ status: 'cancelled', endTime: new Date() }] applied to a
    stored job. *)
Definition cancelMining (now : Z) (m : Mining) : Mining :=
  {| m_id := m_id m; m_user := m_user m;
     m_currency := m_currency m; m_type := m_type m;
     m_status := st_cancelled; m_progress := m_progress m;
     m_targetAmount := m_targetAmount m;
     m_minedAmount := m_minedAmount m;
     m_startTime := m_startTime m; m_endTime := Some now;
     m_nextMiningTime := m_nextMiningTime m;
     m_addresses := m_addresses m;
     m_transaction := m_transaction m |}.

(** [Mining.updateMany({ user, status: 'mining' }, { status: 'cancelled',
    endTime: new Date() })] *)
Definition Mining_cancelActive (now : Z) (userId : nat) : M unit :=
  fun db =>
    (with_minings
       (map (fun m =>
               if (m_user m =? userId) && is_mining (m_status m)
               then cancelMining now m
               else m)
            (minings db)) db,
     Returned tt).

(** [router.post('/toggle', ...)] of the mining routes.  The jobs are keyed
    on [req.user._id]; the user document read by [findById] is only used for
    the audit entry. *)
Definition toggleMining (now : Z) (uid : nat) (enabled : bool)
  : DB -> DB * Response :=
  try_catch
    (found <- User_findById uid ;;
     (if enabled
      then
        existingMining <- Mining_getUserActiveMining uid ;;
        if List.length existingMining =? 0
        then
          let currencies := [USD; EUR; GBP; CNY; NGN] in
          let cryptos := [BTC; TRX; TON; ETH] in
          for_each currencies (fun currency =>
            Mining_createMiningOperation now uid currency mt_currency (Q2Qc 1000) ;;
            ret tt) ;;
          for_each cryptos (fun crypto =>
            Mining_createMiningOperation now uid crypto mt_crypto
              (if currency_eqb crypto BTC then Q2Qc 1 else Q2Qc 100) ;;
            ret tt) ;;
          user <- nonnull found ;;
          AuditLog_createLog
            {| a_user := _id user; a_action := aa_mining_start;
               a_entityType := None; a_entityId := None |}
        else ret tt
      else
        Mining_cancelActive now uid ;;
        user <- nonnull found ;;
        AuditLog_createLog
          {| a_user := _id user; a_action := aa_mining_complete;
             a_entityType := None; a_entityId := None |}) ;;
     ret (Success 200))
    (fun _ => Failure 500 "MINING_TOGGLE_FAILED").

(** ** Mining service (services/miningService.js) *)

(** [Mining.find({ status: 'mining' })] *)
Definition Mining_findActive (db : DB) : list Mining :=
  filter (fun m => is_mining (m_status m)) (minings db).

(** The assignments of the sweep to the in-memory job document. *)
Definition completeMining (now : Z) (transactionId : nat) (mining : Mining) : Mining :=
  {| m_id := m_id mining; m_user := m_user mining;
     m_currency := m_currency mining; m_type := m_type mining;
     m_status := st_completed;
     m_progress := Q2Qc 100;
     m_targetAmount := m_targetAmount mining;
     m_minedAmount := m_targetAmount mining;
     m_startTime := m_startTime mining;
     m_endTime := Some now;
     m_nextMiningTime := Some (now + 60 * 60 * 1000)%Z;
     m_addresses := m_addresses mining;
     m_transaction := Some transactionId |}.

(** The update that [mining.save()] sends after those assignments: [$set]
    of the assigned paths of the in-memory document [mining] on the stored
    document. *)
Definition setAssigned (mining stored : Mining) : Mining :=
  {| m_id := m_id stored; m_user := m_user stored;
     m_currency := m_currency stored; m_type := m_type stored;
     m_status := m_status mining;
     m_progress := m_progress mining;
     m_targetAmount := m_targetAmount stored;
     m_minedAmount := m_minedAmount mining;
     m_startTime := m_startTime stored;
     m_endTime := m_endTime mining;
     m_nextMiningTime := m_nextMiningTime mining;
     m_addresses := m_addresses stored;
     m_transaction := m_transaction mining |}.

(** [mining.save()]: validate the in-memory document, then update the
    stored document with the same [_id]. *)
Definition Mining_save (mining : Mining) : M unit :=
  fun db =>
    if validateMining mining
    then
      (with_minings
         (updateOne (fun x => m_id x =? m_id mining) (setAssigned mining)
            (minings db)) db,
       Returned tt)
    else (db, Thrown ValidationError).

(** The body of the loop of [processMiningCycles], with its own
    [try]/[catch]; [mining] is the document read by the initial [find]. *)
Definition processMiningJob (now : Z) (mining : Mining) : DB -> DB :=
  fun db =>
    fst (try_catch
      (found <- User_findById (m_user mining) ;;
       match found with
       | None => ret tt
       | Some user =>
           if negb (UserStatus_eqb (status user) active) then ret tt
           else
             let user :=
               {| _id := _id user;
                  balances :=
                    set_balance (balances user) (m_currency mining)
                      (get_balance (balances user) (m_currency mining)
                       + m_targetAmount mining);
                  trading := trading user;
                  status := status user |} in
             User_save user ;;
             transaction <- Transaction_create
               {| t_user := _id user; t_type := tx_mining;
                  t_currency := Some (m_currency mining);
                  t_amount := m_targetAmount mining;
                  t_fromCurrency := None; t_toCurrency := None;
                  t_convertedAmount := None; t_exchangeRate := None;
                  t_status := tx_completed;
                  t_reference := None |} ;;
             let mining := completeMining now (t_id transaction) mining in
             Mining_save mining ;;
             Notification_create
               {| n_user := _id user; n_type := nt_mining;
                  n_title := "Mining Completed"; n_priority := pr_normal |} ;;
             AuditLog_createLog
               {| a_user := _id user; a_action := aa_mining_complete;
                  a_entityType := Some et_mining;
                  a_entityId := Some (m_id mining) |} ;;
             Mining_createMiningOperation now (_id user) (m_currency mining)
               (m_type mining) (m_targetAmount mining) ;;
             ret tt
       end)
      (fun _ => tt) db).

(** [for (const mining of activeMining) { ... }] *)
Definition processMiningJobs (now : Z) (activeMining : list Mining) (db : DB) : DB :=
  fold_left (fun db mining => processMiningJob now mining db) activeMining db.

(** [processMiningCycles()]: one completion sweep. *)
Definition processMiningCycles (now : Z) (db : DB) : DB :=
  let activeMining := Mining_findActive db in
  processMiningJobs now activeMining db.

(** ** Trading service (services/tradingService.js) *)

(** [User.find({ 'trading.robotActive': true, status: 'active' })] *)
Definition User_findRobots (db : DB) : list User :=
  filter (fun u => robotActive (trading u) && UserStatus_eqb (status u) active)
         (users db).

(** The body of the loop of [executeTradingRobots] for the in-memory
    document [user]; [k] is the number of random values read so far, and the
    result carries the number read afterwards. *)
Definition tradeUser (rnd : nat -> Number) (user : User) (st : DB * nat)
  : DB * nat :=
  let (db, k) := st in
  if Qcleb (capital (trading user)) 0 then (db, k)
  else
    let isProfitable := Qcltb (Q2Qc 0.35) (rnd k) in
    let tradeAmount :=
      capital (trading user) * (Q2Qc 0.01 + rnd (k + 1)%nat * Q2Qc 0.05) in
    let profit_ :=
      if isProfitable
      then tradeAmount * (Q2Qc 0.02 + rnd (k + 2)%nat * Q2Qc 0.08)
      else - tradeAmount * Q2Qc 0.02 in
    let k' := if isProfitable then (k + 3)%nat else (k + 2)%nat in
    let user :=
      if isProfitable
      then {| _id := _id user; balances := balances user;
              trading := {| capital := capital (trading user);
                            profit := profit (trading user) + profit_;
                            robotActive := robotActive (trading user) |};
              status := status user |}
      else {| _id := _id user; balances := balances user;
              trading := {| capital :=
                              Qcmax 0 (capital (trading user) - Qcabs profit_);
                            profit := profit (trading user);
                            robotActive := robotActive (trading user) |};
              status := status user |} in
    (fst (try_catch
       (User_save user ;;
        transaction <- Transaction_create
          {| t_user := _id user; t_type := tx_trading;
             t_currency := Some USD; t_amount := Qcabs profit_;
             t_fromCurrency := None; t_toCurrency := None;
             t_convertedAmount := None; t_exchangeRate := None;
             t_status := tx_completed;
             t_reference := None |} ;;
        AuditLog_createLog
          {| a_user := _id user; a_action := aa_trading_profit;
             a_entityType := Some et_transaction;
             a_entityId := Some (t_id transaction) |} ;;
        if isProfitable && Qcltb (Q2Qc 50) profit_
        then Notification_create
               {| n_user := _id user; n_type := nt_trading;
                  n_title := "Trading Profit"; n_priority := pr_normal |}
        else ret tt)
       (fun _ => tt) db),
     k').

(** [executeTradingRobots()]: one trading cycle.  [k] is where the cycle
    starts reading the random stream. *)
Definition executeTradingRobots (rnd : nat -> Number) (k : nat) (db : DB)
  : DB * nat :=
  let robots := User_findRobots db in
  fold_left (fun st user => tradeUser rnd user st) robots (db, k).

(** ** Documents written by the handlers

    Named here so that the statements below can refer to them. *)

(** The user document that a debit of [amount] in currency [c] saves. *)
Definition debitedUser (user : User) (c : Currency) (amount : Number) : User :=
  {| _id := _id user;
     balances := set_balance (balances user) c
                   (get_balance (balances user) c - amount);
     trading := trading user; status := status user |}.

(** The user document that a conversion of [amount] from [fromCurrency]
    to [toCurrency] saves. *)
Definition convertedUser (user : User) (fromCurrency toCurrency : Currency)
    (amount : Number) : User :=
  let debited :=
    set_balance (balances user) fromCurrency
      (get_balance (balances user) fromCurrency - amount) in
  {| _id := _id user;
     balances :=
       set_balance debited toCurrency
         (get_balance debited toCurrency
          + amount * exchangeRate fromCurrency toCurrency);
     trading := trading user; status := status user |}.

(** The user document that a profit withdrawal saves. *)
Definition withdrawnUser (user : User) : User :=
  {| _id := _id user;
     balances := set_balance (balances user) USD
                   (get_balance (balances user) USD + profit (trading user));
     trading := {| capital := capital (trading user);
                   profit := 0;
                   robotActive := robotActive (trading user) |};
     status := status user |}.

(** The nine jobs that switching mining on creates, stored under the ids
    [n], [1 + n], ... *)
Definition startedMinings (now : Z) (uid n : nat) : list Mining :=
  [ newMining now n uid USD mt_currency (Q2Qc 1000);
    newMining now (1 + n) uid EUR mt_currency (Q2Qc 1000);
    newMining now (2 + n) uid GBP mt_currency (Q2Qc 1000);
    newMining now (3 + n) uid CNY mt_currency (Q2Qc 1000);
    newMining now (4 + n) uid NGN mt_currency (Q2Qc 1000);
    newMining now (5 + n) uid BTC mt_crypto (Q2Qc 1);
    newMining now (6 + n) uid TRX mt_crypto (Q2Qc 100);
    newMining now (7 + n) uid TON mt_crypto (Q2Qc 100);
    newMining now (8 + n) uid ETH mt_crypto (Q2Qc 100) ].

(** The jobs of [uid] that are in [mining] status. *)
Definition activeMiningOf (uid : nat) (db : DB) : list Mining :=
  filter (fun m => (m_user m =? uid) && is_mining (m_status m)) (minings db).

(** The user document that a trading cycle saves for [user] when it reads
    the random stream from position [k]. *)
Definition tradedUser (rnd : nat -> Number) (k : nat) (user : User) : User :=
  let isProfitable := Qcltb (Q2Qc 0.35) (rnd k) in
  let tradeAmount :=
    capital (trading user) * (Q2Qc 0.01 + rnd (k + 1)%nat * Q2Qc 0.05) in
  let profit_ :=
    if isProfitable
    then tradeAmount * (Q2Qc 0.02 + rnd (k + 2)%nat * Q2Qc 0.08)
    else - tradeAmount * Q2Qc 0.02 in
  if isProfitable
  then {| _id := _id user; balances := balances user;
          trading := {| capital := capital (trading user);
                        profit := profit (trading user) + profit_;
                        robotActive := robotActive (trading user) |};
          status := status user |}
  else {| _id := _id user; balances := balances user;
          trading := {| capital :=
                          Qcmax 0 (capital (trading user) - Qcabs profit_);
                        profit := profit (trading user);
                        robotActive := robotActive (trading user) |};
          status := status user |}.

(** The user document that the sweep saves when it credits [target] in
    currency [c]. *)
Definition creditedUser (user : User) (c : Currency) (target : Number) : User :=
  {| _id := _id user;
     balances := set_balance (balances user) c
                   (get_balance (balances user) c + target);
     trading := trading user; status := status user |}.

(** The document of the reward transaction of a job. *)
Definition rewardDoc (mining : Mining) : TransactionDoc :=
  {| t_user := m_user mining; t_type := tx_mining;
     t_currency := Some (m_currency mining);
     t_amount := m_targetAmount mining;
     t_fromCurrency := None; t_toCurrency := None;
     t_convertedAmount := None; t_exchangeRate := None;
     t_status := tx_completed;
     t_reference := None |}.

(** ** Sequences of operations *)

Inductive Operation :=
| OpSend (uid : nat) (body : SendBody)
| OpReceive (uid : nat) (body : ReceiveBody)
| OpTransfer (uid : nat) (body : TransferBody)
| OpSendCrypto (uid : nat) (body : SendCryptoBody)
| OpInternational (uid : nat) (body : InternationalBody)
| OpMiningSweep (now : Z)
| OpTradingCycle (rnd : nat -> Number) (k : nat)
| OpWithdrawProfit (uid : nat)
| OpToggleMining (now : Z) (uid : nat) (enabled : bool)
| OpToggleTrading (uid : nat) (enabled : bool).

Definition apply_op (db : DB) (op : Operation) : DB :=
  match op with
  | OpSend uid body => fst (send uid body db)
  | OpReceive uid body => fst (receive uid body db)
  | OpTransfer uid body => fst (transfer uid body db)
  | OpSendCrypto uid body => fst (sendCrypto uid body db)
  | OpInternational uid body => fst (international uid body db)
  | OpMiningSweep now => processMiningCycles now db
  | OpTradingCycle rnd k => fst (executeTradingRobots rnd k db)
  | OpWithdrawProfit uid => fst (withdrawProfit uid db)
  | OpToggleMining now uid enabled => fst (toggleMining now uid enabled db)
  | OpToggleTrading uid enabled => fst (toggleTrading uid enabled db)
  end.

Definition run_ops (ops : list Operation) (db : DB) : DB :=
  fold_left apply_op ops db.

(** Every currency balance of every stored account is non-negative. *)
Definition nonneg_balances (db : DB) : Prop :=
  forall u, In u (users db) -> forall c, 0 <= get_balance (balances u) c.

(** Every user document of [db'] is a document of [db] or has passed the
    validators of the user schema. *)
Definition users_checked (db db' : DB) : Prop :=
  forall u, In u (users db') -> In u (users db) \/ validateUser u = true.

(** A store computation after which every user document is an old one or
    a validated one. *)
Definition checkedM {A} (c : M A) : Prop :=
  forall db, users_checked db (fst (c db)).

(** ** Sample data *)

Definition zeroBalances : Balances :=
  {| bUSD := 0; bEUR := 0; bGBP := 0; bCNY := 0; bNGN := 0;
     bBTC := 0; bTRX := 0; bTON := 0; bETH := 0 |}.

Definition idleTrading : Trading :=
  {| capital := 0; profit := 0; robotActive := false |}.

(** An active account holding 100 USD. *)
Definition alice : User :=
  {| _id := 1;
     balances := set_balance zeroBalances USD (Q2Qc 100);
     trading := idleTrading;
     status := active |}.

Definition emptyDB : DB :=
  {| users := []; minings := []; transactions := [];
     notifications := []; auditLogs := []; nextId := 10 |}.

Definition db_alice : DB := with_users [alice] emptyDB.

Definition sendUSD (amount : Number) (reference : option string) : SendBody :=
  {| s_currency := USD; s_amount := amount; s_recipient := "R";
     s_bank := None; s_reference := reference |}.

Definition usdToEur (amount : Number) : TransferBody :=
  {| x_fromCurrency := USD; x_toCurrency := EUR; x_amount := amount |}.

(** An active account with 100 USD and 25 of trading profit. *)
Definition bob : User :=
  {| _id := 2;
     balances := set_balance zeroBalances USD (Q2Qc 100);
     trading := {| capital := Q2Qc 10000; profit := Q2Qc 25;
                   robotActive := true |};
     status := active |}.

Definition db_bob : DB := with_users [bob] emptyDB.

(** A random stream that is constantly [1/2]. *)
Definition rnd_half : nat -> Number := fun _ => Q2Qc 0.5.


(** A job in [mining] status for 1000 USD, owned by account [uid]. *)
Definition usdJob (uid : nat) : Mining := newMining 0 7 uid USD mt_currency (Q2Qc 1000).

(** Alice with one USD job. *)
Definition db_alice_mining : DB := with_minings [usdJob 1] db_alice.

(** A refused send, an accepted send, a withdrawal, a trading cycle and a
    completion sweep. *)
Definition sample_ops : list Operation :=
  [ OpSend 2 (sendUSD (Q2Qc 150) None);
    OpSend 2 (sendUSD (Q2Qc 40) None);
    OpWithdrawProfit 2;
    OpTradingCycle rnd_half 0;
    OpMiningSweep 0 ].

(** * Further definitions

    The rest of this part names what the properties of the second half of
    the development refer to, and embeds the remaining functions of the
    services, routes and models. *)

From Stdlib Require Import Qround.

(** The account on whose behalf a request is made, if the operation is a
    request. *)
Definition op_account (op : Operation) : option nat :=
  match op with
  | OpSend uid _ | OpReceive uid _ | OpTransfer uid _ | OpSendCrypto uid _
  | OpInternational uid _ | OpWithdrawProfit uid | OpToggleMining _ uid _
  | OpToggleTrading uid _ => Some uid
  | OpMiningSweep _ | OpTradingCycle _ _ => None
  end.

(** [l'] is [l] followed by further entries. *)
Definition extends {A} (l l' : list A) : Prop := exists more, l' = l ++ more.

(** A store computation whose final store is related by [R] to the store it
    started from. *)
Definition respectsM (R : DB -> DB -> Prop) {A} (c : M A) : Prop :=
  forall db, R db (fst (c db)).

(** The paths of a job that no operation assigns after creation. *)
Definition jobIdentity (m : Mining)
  : nat * nat * Currency * MiningType * Number * Z :=
  (m_id m, m_user m, m_currency m, m_type m, m_targetAmount m, m_startTime m).

(** [db'] holds the same accounts as [db], in the same order. *)
Definition same_accounts (db db' : DB) : Prop :=
  map _id (users db') = map _id (users db).

(** Every job of [db] is still stored in [db'], at the same place and with
    the same identity; [db'] may hold further jobs after them. *)
Definition jobs_kept (db db' : DB) : Prop :=
  extends (map jobIdentity (minings db)) (map jobIdentity (minings db')).

(** The user document that switching the robot on or off leaves stored. *)
Definition toggledUser (user : User) (enabled : bool) : User :=
  {| _id := _id user; balances := balances user;
     trading :=
       {| capital := if enabled && Qceqb (capital (trading user)) 0
                     then Q2Qc 10000 else capital (trading user);
          profit := profit (trading user);
          robotActive := enabled |};
     status := status user |}.

(** Alice and Bob in one store. *)
Definition db_alice_bob : DB := with_users [alice; bob] emptyDB.

(** An active account holding 2 BTC. *)
Definition dan : User :=
  {| _id := 4;
     balances := set_balance zeroBalances BTC (Q2Qc 2);
     trading := idleTrading;
     status := active |}.

(** ** Trading status (routes/trading.js) *)


Definition number_of_nat (n : nat) : Number := Q2Qc (inject_Z (Z.of_nat n)).






(** ** Progress of the jobs (services/miningService.js) *)

(** [Math.min(x, y)] *)
Definition Qcmin (x y : Number) : Number := if Qcltb y x then y else x.

(** [Math.round(x)]: the nearest integer, a tie going up. *)
Definition Math_round (x : Number) : Number :=
  Q2Qc (inject_Z (Qfloor (x + Q2Qc (1 # 2)))).

(** The [progress] that [updateMiningProgress] computes for a job at time
    [now], before rounding. *)
Definition progressAt (now : Z) (mining : Mining) : Number :=
  let elapsed := (now - m_startTime mining)%Z in
  let totalDuration := (60 * 60 * 1000)%Z in
  Qcmin (Q2Qc (inject_Z elapsed) / Q2Qc (inject_Z totalDuration) * Q2Qc 100)
        (Q2Qc 100).

(** The assignment [mining.progress = p] on a job document. *)
Definition withProgress (p : Number) (m : Mining) : Mining :=
  {| m_id := m_id m; m_user := m_user m;
     m_currency := m_currency m; m_type := m_type m;
     m_status := m_status m; m_progress := p;
     m_targetAmount := m_targetAmount m;
     m_minedAmount := m_minedAmount m;
     m_startTime := m_startTime m; m_endTime := m_endTime m;
     m_nextMiningTime := m_nextMiningTime m;
     m_addresses := m_addresses m;
     m_transaction := m_transaction m |}.

(** [mining.save()] when [progress] is the only assigned path: validate the
    in-memory document, then [$set] that path on the stored document with
    the same [_id]. *)
Definition Mining_saveProgress (mining : Mining) : M unit :=
  fun db =>
    if validateMining mining
    then
      (with_minings
         (updateOne (fun x => m_id x =? m_id mining)
            (withProgress (m_progress mining)) (minings db)) db,
       Returned tt)
    else (db, Thrown ValidationError).

(** [updateMiningProgress()]: the loop has no [try], so a failing [save]
    ends the run. *)
Definition updateMiningProgress (now : Z) : M unit :=
  fun db =>
    let activeMining := Mining_findActive db in
    for_each activeMining (fun mining =>
      let progress := progressAt now mining in
      if negb (Qceqb progress (m_progress mining))
      then Mining_saveProgress (withProgress (Math_round progress) mining)
      else ret tt) db.

(** The stored job after a run of [updateMiningProgress] at time [now]. *)
Definition progressed (now : Z) (m : Mining) : Mining :=
  if is_mining (m_status m)
     && negb (Qceqb (progressAt now m) (m_progress m))
  then withProgress (Math_round (progressAt now m)) m
  else m.

(** What the iteration for the snapshot document [m] does to the stored
    document [x] that has its [_id]. *)
Definition progressStep (now : Z) (m x : Mining) : Mining :=
  if negb (Qceqb (progressAt now m) (m_progress m))
  then withProgress (Math_round (progressAt now m)) x
  else x.

(** ** Generated addresses (services/miningService.js) *)

(** [Math.floor(x)] *)
Definition Math_floor (x : Number) : Z := Qfloor x.

(** [xs[i]] for an integer [i]: [undefined] outside the array. *)
Definition item {A} (xs : list A) (i : Z) : option A :=
  if (i <? 0)%Z then None else nth_error xs (Z.to_nat i).

(** [s.charAt(i)] for an integer [i]: the empty string outside [s]. *)
Definition charAt (s : string) (i : Z) : string :=
  if (i <? 0)%Z then EmptyString
  else match String.get (Z.to_nat i) s with
       | Some a => String a EmptyString
       | None => EmptyString
       end.

Definition chars : string :=
  "0123456789ABCDEFGHIJKLMNOPQRSTUVWXYZabcdefghijklmnopqrstuvwxyz".

(** The [prefixes] object literal; it is only read at the four currencies
    of the array below. *)
Definition prefixes (c : Currency) : string :=
  match c with
  | BTC => "bc1" | TRX => "T" | TON => "UQ" | ETH => "0x"
  | _ => EmptyString
  end.

(** The inner loop: [n] characters, read from position [k] of the random
    stream. *)
Fixpoint randomChars (rnd : nat -> Number) (k n : nat) : string :=
  match n with
  | O => EmptyString
  | S n' =>
      (charAt chars
         (Math_floor (rnd k * number_of_nat (String.length chars)))
       ++ randomChars rnd (S k) n')%string
  end.

(** The assignment of [addresses] on a job document. *)
Definition withAddresses (l : list MiningAddress) (m : Mining) : Mining :=
  {| m_id := m_id m; m_user := m_user m;
     m_currency := m_currency m; m_type := m_type m;
     m_status := m_status m; m_progress := m_progress m;
     m_targetAmount := m_targetAmount m;
     m_minedAmount := m_minedAmount m;
     m_startTime := m_startTime m; m_endTime := m_endTime m;
     m_nextMiningTime := m_nextMiningTime m;
     m_addresses := l;
     m_transaction := m_transaction m |}.

(** [activeMining.save()] when [addresses] is the only changed path. *)
Definition Mining_saveAddresses (mining : Mining) : M unit :=
  fun db =>
    if validateMining mining
    then
      (with_minings
         (updateOne (fun x => m_id x =? m_id mining)
            (withAddresses (m_addresses mining)) (minings db)) db,
       Returned tt)
    else (db, Thrown ValidationError).

(** [Mining.findOne({ currency, status: 'mining' })]: the first such job of
    the collection, whoever owns it. *)
Definition Mining_findOneActive (currency : Currency) (db : DB) : option Mining :=
  find (fun m => currency_eqb (m_currency m) currency && is_mining (m_status m))
       (minings db).

(** One round of the outer loop of [generateMiningAddresses], reading the
    random stream from position [k]: one value for the currency, forty for
    the characters.  An index outside the array would give [undefined], a
    currency that no stored job has. *)
Definition generateMiningAddress (now : Z) (rnd : nat -> Number) (k : nat)
  : M unit :=
  fun db =>
    let currencies := [BTC; TRX; TON; ETH] in
    match item currencies
            (Math_floor (rnd k * number_of_nat (List.length currencies))) with
    | None => (db, Returned tt)
    | Some currency =>
        let address_ := (prefixes currency ++ randomChars rnd (S k) 40)%string in
        match Mining_findOneActive currency db with
        | None => (db, Returned tt)
        | Some activeMining =>
            let pushed :=
              m_addresses activeMining
              ++ [{| address := address_; ma_currency := currency;
                     generatedAt := now |}] in
            let kept :=
              if (100 <? List.length pushed)%nat then tl pushed else pushed in
            Mining_saveAddresses (withAddresses kept activeMining) db
        end
    end.

(** [generateMiningAddresses()]: ten rounds; the loop has no [try]. *)
Definition generateMiningAddresses (now : Z) (rnd : nat -> Number) (k : nat)
  : M unit :=
  for_each (seq 0 10) (fun i => generateMiningAddress now rnd (k + 41 * i)).

(** No stored job holds more than 100 addresses. *)
Definition addresses_bounded (db : DB) : Prop :=
  forall m, In m (minings db) -> (List.length (m_addresses m) <= 100)%nat.

(** ** Login attempts (models/User.js) *)

(** The two paths of a user document that the lock-out methods read and
    write; [loginAttempts] is a counter. *)
Record LoginState := {
  loginAttempts : Z;
  lockUntil : option Z
}.

(** [user.isLocked()] *)
Definition isLocked (now : Z) (s : LoginState) : bool :=
  match lockUntil s with
  | Some t => (now <? t)%Z
  | None => false
  end.

(** [user.incLoginAttempts()]: the document after the update it sends. *)
Definition incLoginAttempts (now : Z) (s : LoginState) : LoginState :=
  if match lockUntil s with Some t => (t <? now)%Z | None => false end
  then {| loginAttempts := 1; lockUntil := None |}
  else
    if (5 <=? loginAttempts s + 1)%Z && negb (isLocked now s)
    then {| loginAttempts := loginAttempts s + 1;
            lockUntil := Some (now + 2 * 60 * 60 * 1000)%Z |}
    else {| loginAttempts := loginAttempts s + 1;
            lockUntil := lockUntil s |}.

(** A newly registered account: the schema defaults. *)
Definition freshLogin : LoginState := {| loginAttempts := 0; lockUntil := None |}.

(** Failed logins at the times [ts], in this order. *)
Definition failedLogins (ts : list Z) (s : LoginState) : LoginState :=
  fold_left (fun s now => incLoginAttempts now s) ts s.

(** ** API keys (models/User.js, routes/users.js, middleware/auth.js) *)

Record ApiKey := {
  k_key : string;
  k_name : string;
  k_createdAt : Z;
  k_lastUsed : option Z;
  k_isActive : bool
}.

(** A user document together with its [apiKeys] path. *)
Record KeyedUser := {
  ku_doc : User;
  ku_apiKeys : list ApiKey
}.

(** The users collection, for the routes that work on API keys.  The audit
    entries that these routes write go to another collection and cannot
    fail the request; they are left out. *)
Definition KeyStore := list KeyedUser.

Definition findKeyedUser (store : KeyStore) (id : nat) : option KeyedUser :=
  find (fun u => _id (ku_doc u) =? id) store.

(** [user.save()]: [None] when a validator of the user schema fails. *)
Definition KeyedUser_save (u : KeyedUser) (store : KeyStore) : option KeyStore :=
  if validateUser (ku_doc u)
  then Some (updateOne (fun x => _id (ku_doc x) =? _id (ku_doc u))
                       (fun _ => u) store)
  else None.

(** [xs.findIndex(p)]: [None] stands for [-1]. *)
Fixpoint findIndex {A} (p : A -> bool) (xs : list A) : option nat :=
  match xs with
  | [] => None
  | x :: rest =>
      if p x then Some O
      else match findIndex p rest with
           | Some i => Some (S i)
           | None => None
           end
  end.

(** [xs[i] = f(xs[i])] for an index inside the array. *)
Fixpoint assignAt {A} (i : nat) (f : A -> A) (xs : list A) : list A :=
  match xs, i with
  | [], _ => []
  | x :: rest, O => f x :: rest
  | x :: rest, S i' => x :: assignAt i' f rest
  end.

Definition deactivated (k : ApiKey) : ApiKey :=
  {| k_key := k_key k; k_name := k_name k; k_createdAt := k_createdAt k;
     k_lastUsed := k_lastUsed k; k_isActive := false |}.

Definition usedAt (now : Z) (k : ApiKey) : ApiKey :=
  {| k_key := k_key k; k_name := k_name k; k_createdAt := k_createdAt k;
     k_lastUsed := Some now; k_isActive := k_isActive k |}.

(** [router.delete('/api-keys/:name', ...)] *)
Definition deleteApiKey (uid : nat) (name : string) (store : KeyStore)
  : KeyStore * Response :=
  match findKeyedUser store uid with
  | None => (store, Failure 500 "API_KEY_DELETE_FAILED")
  | Some user =>
      match findIndex (fun key => String.eqb (k_name key) name)
                      (ku_apiKeys user) with
      | None => (store, Failure 404 "API_KEY_NOT_FOUND")
      | Some apiKeyIndex =>
          let user :=
            {| ku_doc := ku_doc user;
               ku_apiKeys := assignAt apiKeyIndex deactivated (ku_apiKeys user) |} in
          match KeyedUser_save user store with
          | None => (store, Failure 500 "API_KEY_DELETE_FAILED")
          | Some store' => (store', Success 200)
          end
      end
  end.

(** [User.findByApiKey(apiKey)]: the first document that satisfies
    [{ 'apiKeys.key': apiKey, 'apiKeys.isActive': true, status: 'active' }].
    Each of the two conditions on the array path holds as soon as some
    element of the array satisfies it; the query has no [$elemMatch] that
    would ask for one element satisfying both. *)
Definition User_findByApiKey (apiKey : string) (store : KeyStore)
  : option KeyedUser :=
  find (fun u =>
          existsb (fun key => String.eqb (k_key key) apiKey) (ku_apiKeys u)
          && existsb k_isActive (ku_apiKeys u)
          && UserStatus_eqb (status (ku_doc u)) active)
       store.

(** What a middleware does with the request: hand it on with [req.user]
    set, or answer it. *)
Inductive AuthOutcome :=
| Next (user : KeyedUser)
| Denied (httpStatus : nat) (code : string).

(** [exports.apiKeyAuth]; [header] is [req.headers['x-api-key']]. *)
Definition apiKeyAuth (now : Z) (header : option string) (store : KeyStore)
  : KeyStore * AuthOutcome :=
  match header with
  | None => (store, Denied 401 "API_KEY_REQUIRED")
  | Some apiKey =>
      if String.eqb apiKey EmptyString
      then (store, Denied 401 "API_KEY_REQUIRED")
      else
        match User_findByApiKey apiKey store with
        | None => (store, Denied 401 "INVALID_API_KEY")
        | Some user =>
            match findIndex (fun key => String.eqb (k_key key) apiKey)
                            (ku_apiKeys user) with
            | Some apiKeyIndex =>
                let user :=
                  {| ku_doc := ku_doc user;
                     ku_apiKeys :=
                       assignAt apiKeyIndex (usedAt now) (ku_apiKeys user) |} in
                match KeyedUser_save user store with
                | None => (store, Denied 500 "AUTH_ERROR")
                | Some store' => (store', Next user)
                end
            | None => (store, Next user)
            end
        end
  end.


(** The transactions of account [uid] among [log]. *)
Definition transactionsBy (uid : nat) (log : list Transaction) : list Transaction :=
  filter (fun t : Transaction => t_user t =? uid) log.

(** Every path of a job but [addresses]. *)
Definition jobState (m : Mining) :=
  (jobIdentity m, m_status m, m_progress m, m_minedAmount m, m_endTime m,
   m_nextMiningTime m, m_transaction m).

(** [db'] differs from [db] at most in the addresses of the jobs. *)
Definition only_addresses (db db' : DB) : Prop :=
  users db' = users db
  /\ transactions db' = transactions db
  /\ notifications db' = notifications db
  /\ auditLogs db' = auditLogs db
  /\ map jobState (minings db') = map jobState (minings db).

(** Job [m] is stored, and it is not the job that [findOne] returns for any
    currency. *)
Definition passed_over (m : Mining) (db : DB) : Prop :=
  In m (minings db)
  /\ forall c found, Mining_findOneActive c db = Some found ->
                     m_id found <> m_id m.

(** A random stream that is constantly [1/10]. *)
Definition rnd_tenth : nat -> Number := fun _ => Q2Qc 0.1.

(** A job in [mining] status for 1 BTC, owned by account [uid], under the
    [_id] [id]. *)
Definition btcJob (id uid : nat) : Mining :=
  newMining 0 id uid BTC mt_crypto (Q2Qc 1).

(** Dan and Alice, each with one BTC job; Dan's is the older one. *)
Definition db_two_miners : DB :=
  with_minings [btcJob 7 4; btcJob 8 1] (with_users [dan; alice] emptyDB).

(** The trading capital and the trading profit of every stored account are
    non-negative. *)
Definition nonneg_trading (db : DB) : Prop :=
  forall u, In u (users db) ->
            0 <= capital (trading u) /\ 0 <= profit (trading u).

(** * The ledger over binary64 numbers

    The definitions above read a JavaScript [Number] as an exact rational.
    That is enough for statements about comparisons, about what an
    operation leaves untouched and about [x - x]; it is not enough for a
    statement that says what a sum, a difference or a product is.  The
    module [B64] below embeds the balance-changing handlers and the two
    background services once more, with a [Number] that is an IEEE-754
    binary64 value ([PrimFloat.float]): [+], [-], [*] round to nearest,
    ties to even, a decimal literal is the nearest double, and a
    comparison with NaN is false.

    Further conventions of [B64].
    - The pre-save hook of the transaction schema runs after the validators
      and before the insert.  For a new document without a reference it
      reads the clock and [Math.random()] once and stores the generated
      string; the unique index covers client-supplied and generated
      references alike.
    - [Math.random()] returns the values of a stream [rnd] in call order;
      the store carries the number of values read so far ([drawn]).
    - The string that the hook builds from the clock value and the random
      value is [generatedReference now r]; the way a double is printed in
      base 36 is not modelled. *)

From Stdlib Require Import Floats.

(** ** Signs of binary64 values *)

(** [signed s x]: [x] is a zero, an infinity or a finite number of sign
    [s]. *)
Inductive signed (s : bool) : spec_float -> Prop :=
| signed_zero : signed s (S754_zero s)
| signed_infinity : signed s (S754_infinity s)
| signed_finite m e : signed s (S754_finite s m e).

(** [0 <= x] on the specification side: NaN, negative numbers and [-oo]
    are not. *)
Definition SFnonneg (x : spec_float) : bool :=
  match x with
  | S754_zero _ | S754_infinity false | S754_finite false _ _ => true
  | _ => false
  end.

Definition SFfinite (x : spec_float) : bool :=
  match x with
  | S754_zero _ | S754_finite _ _ _ => true
  | _ => false
  end.

Module B64.

#[local] Set Warnings "-inexact-float,-notation-overridden".
Local Open Scope float_scope.

(** ** Numbers *)

Abbreviation Number := float (only parsing).

(** [Math.max(x, y)]: NaN when either is NaN, and [+0] counts as larger
    than [-0]. *)
Definition Math_max (x y : Number) : Number :=
  if is_nan x || is_nan y then nan
  else if x <? y then y
  else if y <? x then x
  else if get_sign x then y else x.

(** [Math.abs(x)] *)
Definition Math_abs (x : Number) : Number := abs x.

(** [Joi.number().positive()]: a finite number above 0. *)
Definition joi_positive (x : Number) : bool := (0 <? x) && (x <? infinity).

(** The rational number a finite double stands for. *)
Definition realValue (x : Number) : option Q :=
  match Prim2SF x with
  | S754_zero _ => Some 0%Q
  | S754_finite s m e =>
      Some ((if s then - inject_Z (Zpos m) else inject_Z (Zpos m)) * (2 ^ e))%Q
  | _ => None
  end.

(** ** User model (models/User.js) *)

(** [userSchema.balances]: nine numeric paths, each [default: 0, min: 0]. *)
Record Balances := {
  bUSD : Number; bEUR : Number; bGBP : Number; bCNY : Number; bNGN : Number;
  bBTC : Number; bTRX : Number; bTON : Number; bETH : Number
}.

(** [user.balances[currency]] *)
Definition get_balance (b : Balances) (c : Currency) : Number :=
  match c with
  | USD => bUSD b | EUR => bEUR b | GBP => bGBP b | CNY => bCNY b
  | NGN => bNGN b | BTC => bBTC b | TRX => bTRX b | TON => bTON b
  | ETH => bETH b
  end.

(** [user.balances[currency] = v] *)
Definition set_balance (b : Balances) (c : Currency) (v : Number) : Balances :=
  match c with
  | USD => {| bUSD := v; bEUR := bEUR b; bGBP := bGBP b; bCNY := bCNY b; bNGN := bNGN b;
              bBTC := bBTC b; bTRX := bTRX b; bTON := bTON b; bETH := bETH b |}
  | EUR => {| bUSD := bUSD b; bEUR := v; bGBP := bGBP b; bCNY := bCNY b; bNGN := bNGN b;
              bBTC := bBTC b; bTRX := bTRX b; bTON := bTON b; bETH := bETH b |}
  | GBP => {| bUSD := bUSD b; bEUR := bEUR b; bGBP := v; bCNY := bCNY b; bNGN := bNGN b;
              bBTC := bBTC b; bTRX := bTRX b; bTON := bTON b; bETH := bETH b |}
  | CNY => {| bUSD := bUSD b; bEUR := bEUR b; bGBP := bGBP b; bCNY := v; bNGN := bNGN b;
              bBTC := bBTC b; bTRX := bTRX b; bTON := bTON b; bETH := bETH b |}
  | NGN => {| bUSD := bUSD b; bEUR := bEUR b; bGBP := bGBP b; bCNY := bCNY b; bNGN := v;
              bBTC := bBTC b; bTRX := bTRX b; bTON := bTON b; bETH := bETH b |}
  | BTC => {| bUSD := bUSD b; bEUR := bEUR b; bGBP := bGBP b; bCNY := bCNY b; bNGN := bNGN b;
              bBTC := v; bTRX := bTRX b; bTON := bTON b; bETH := bETH b |}
  | TRX => {| bUSD := bUSD b; bEUR := bEUR b; bGBP := bGBP b; bCNY := bCNY b; bNGN := bNGN b;
              bBTC := bBTC b; bTRX := v; bTON := bTON b; bETH := bETH b |}
  | TON => {| bUSD := bUSD b; bEUR := bEUR b; bGBP := bGBP b; bCNY := bCNY b; bNGN := bNGN b;
              bBTC := bBTC b; bTRX := bTRX b; bTON := v; bETH := bETH b |}
  | ETH => {| bUSD := bUSD b; bEUR := bEUR b; bGBP := bGBP b; bCNY := bCNY b; bNGN := bNGN b;
              bBTC := bBTC b; bTRX := bTRX b; bTON := bTON b; bETH := v |}
  end.

(** [userSchema.trading] *)
Record Trading := {
  capital : Number;       (* default 0, min 0 *)
  profit : Number;        (* default 0, min 0 *)
  robotActive : bool      (* default false *)
}.

(** The paths of a user document that the ledger operations read or write. *)
Record User := {
  _id : nat;
  balances : Balances;
  trading : Trading;
  status : UserStatus
}.

(** The [min: 0] validators of [userSchema], run by [user.save()]: each
    holds when [value >= 0], which NaN fails. *)
Definition validateUser (u : User) : bool :=
  forallb (fun c => 0 <=? get_balance (balances u) c) all_currencies
  && (0 <=? capital (trading u))
  && (0 <=? profit (trading u)).

(** ** Transaction model (models/Transaction.js) *)

(** The object handed to [Transaction.create].  An absent path is [None]. *)
Record TransactionDoc := {
  t_user : nat;
  t_type : TxType;
  t_currency : option Currency;        (* required *)
  t_amount : Number;                   (* required, min 0 *)
  t_fromCurrency : option Currency;
  t_toCurrency : option Currency;
  t_convertedAmount : option Number;   (* min 0 *)
  t_exchangeRate : option Number;
  t_status : TxStatus;
  t_reference : option string          (* unique, sparse *)
}.

(** A stored transaction: the document and the [_id] it was given. *)
Record Transaction := {
  t_id : nat;
  t_doc :> TransactionDoc
}.

(** The validators of [transactionSchema]. *)
Definition validateTransaction (d : TransactionDoc) : bool :=
  match t_currency d with Some _ => true | None => false end
  && (0 <=? t_amount d)
  && match t_convertedAmount d with Some v => 0 <=? v | None => true end.

(** Is the reference [r] already carried by a stored transaction? *)
Definition reference_taken (log : list Transaction) (r : option string) : bool :=
  match r with
  | None => false
  | Some s =>
      existsb (fun t : Transaction => match t_reference t with
                        | Some s' => String.eqb s s'
                        | None => false
                        end) log
  end.

(** [!this.reference]: the path is absent or the empty string. *)
Definition no_reference (r : option string) : bool :=
  match r with
  | None => true
  | Some EmptyString => true
  | Some _ => false
  end.

(** [d] with its [reference] path set to [r]. *)
Definition with_reference (r : option string) (d : TransactionDoc) : TransactionDoc :=
  {| t_user := t_user d; t_type := t_type d; t_currency := t_currency d;
     t_amount := t_amount d; t_fromCurrency := t_fromCurrency d;
     t_toCurrency := t_toCurrency d; t_convertedAmount := t_convertedAmount d;
     t_exchangeRate := t_exchangeRate d; t_status := t_status d;
     t_reference := r |}.

(** ** Mining model (models/Mining.js) *)

Record Mining := {
  m_id : nat;
  m_user : nat;
  m_currency : Currency;
  m_type : MiningType;
  m_status : MiningStatus;
  m_progress : Number;                 (* min 0, max 100 *)
  m_targetAmount : Number;             (* required *)
  m_minedAmount : Number;
  m_startTime : Z;
  m_endTime : option Z;
  m_nextMiningTime : option Z;
  m_addresses : list MiningAddress;
  m_transaction : option nat
}.

(** The validators of [miningSchema], run by [mining.save()] and by
    [Mining.create]. *)
Definition validateMining (m : Mining) : bool :=
  match m_status m with st_cancelled => false | _ => true end
  && (0 <=? m_progress m)
  && (m_progress m <=? 100)
  && negb (is_nan (m_targetAmount m)).

(** ** The store and the random source *)

Record World := {
  users : list User;
  minings : list Mining;
  transactions : list Transaction;
  notifications : list Notification;
  auditLogs : list AuditLog;
  nextId : nat;
  drawn : nat                          (* calls of Math.random() so far *)
}.

Definition with_users (us : list User) (w : World) : World :=
  {| users := us; minings := minings w; transactions := transactions w;
     notifications := notifications w; auditLogs := auditLogs w;
     nextId := nextId w; drawn := drawn w |}.

Definition with_minings (ms : list Mining) (w : World) : World :=
  {| users := users w; minings := ms; transactions := transactions w;
     notifications := notifications w; auditLogs := auditLogs w;
     nextId := nextId w; drawn := drawn w |}.

Definition with_drawn (k : nat) (w : World) : World :=
  {| users := users w; minings := minings w; transactions := transactions w;
     notifications := notifications w; auditLogs := auditLogs w;
     nextId := nextId w; drawn := k |}.

(** A computation reads and writes the store, reads the random source, and
    either returns a value or throws. *)
Definition M (A : Type) : Type := World -> World * Outcome A.

Definition ret {A} (a : A) : M A := fun w => (w, Returned a).
Definition throw {A} (e : Error) : M A := fun w => (w, Thrown e).

Definition bind {A B} (c : M A) (k : A -> M B) : M B :=
  fun w =>
    match c w with
    | (w', Returned a) => k a w'
    | (w', Thrown e) => (w', Thrown e)
    end.

Notation "x <- c ;; k" := (bind c (fun x => k))
  (at level 61, c at next level, right associativity).
Notation "c ;; k" := (bind c (fun _ => k))
  (at level 61, right associativity).

(** [try { body } catch (error) { handler }] *)
Definition try_catch {A} (body : M A) (handler : Error -> A) : World -> World * A :=
  fun w =>
    match body w with
    | (w', Returned a) => (w', a)
    | (w', Thrown e) => (w', handler e)
    end.

(** Reading a property of [null] throws a [TypeError]. *)
Definition nonnull {A} (o : option A) : M A :=
  match o with
  | Some a => ret a
  | None => throw TypeError
  end.

(** The stored user document with [_id = id], if any. *)
Definition findUser (w : World) (id : nat) : option User :=
  find (fun u => Nat.eqb (_id u) id) (users w).

(** [User.findById(id)] *)
Definition User_findById (id : nat) : M (option User) :=
  fun w => (w, Returned (findUser w id)).

(** [user.save()]: validate, then write the document back under its
    [_id]. *)
Definition User_save (u : User) : M unit :=
  fun w =>
    if validateUser u
    then (with_users (updateOne (fun x => Nat.eqb (_id x) (_id u)) (fun _ => u) (users w)) w,
          Returned tt)
    else (w, Thrown ValidationError).

(** [Notification.create(doc)] *)
Definition Notification_create (n : Notification) : M unit :=
  fun w =>
    ({| users := users w; minings := minings w;
        transactions := transactions w;
        notifications := notifications w ++ [n]; auditLogs := auditLogs w;
        nextId := nextId w; drawn := drawn w |},
     Returned tt).

(** [AuditLog.createLog(data)] *)
Definition AuditLog_createLog (a : AuditLog) : M unit :=
  fun w =>
    ({| users := users w; minings := minings w;
        transactions := transactions w;
        notifications := notifications w; auditLogs := auditLogs w ++ [a];
        nextId := nextId w; drawn := drawn w |},
     Returned tt).

(** [n] calls of [Math.random()] whose values the ledger does not keep. *)
Definition Math_random_times (n : nat) : M unit :=
  fun w => (with_drawn (n + drawn w)%nat w, Returned tt).

Section Embedding.

(** The values [Math.random()] returns, in call order. *)
Variable rnd : nat -> Number.

(** The string
    [`TXN-${Date.now().toString(36)}-${Math.random().toString(36).substring(2, 8)}`.toUpperCase()]
    as a function of the clock value and the random value. *)
Variable generatedReference : Z -> Number -> string.

(** The reference a new document is stored with when the hook reads the
    random value [r]. *)
Definition storedReference (now : Z) (r : Number) (reference : option string)
  : option string :=
  if no_reference reference then Some (generatedReference now r) else reference.

(** The [pre('save')] hook of [transactionSchema], on a new document. *)
Definition Transaction_preSave (now : Z) (d : TransactionDoc) : M TransactionDoc :=
  fun w =>
    if no_reference (t_reference d)
    then (with_drawn (S (drawn w)) w,
          Returned (with_reference (storedReference now (rnd (drawn w)) (t_reference d)) d))
    else (w, Returned d).

(** The insert of a new transaction: the unique index on [reference], then
    the append under a fresh [_id]. *)
Definition Transaction_insert (d : TransactionDoc) : M Transaction :=
  fun w =>
    if reference_taken (transactions w) (t_reference d)
    then (w, Thrown DuplicateKeyError)
    else
      let t := {| t_id := nextId w; t_doc := d |} in
      ({| users := users w; minings := minings w;
          transactions := transactions w ++ [t];
          notifications := notifications w; auditLogs := auditLogs w;
          nextId := S (nextId w); drawn := drawn w |},
       Returned t).

(** [Transaction.create(doc)]: the validators, the hook, the insert. *)
Definition Transaction_create (now : Z) (d : TransactionDoc) : M Transaction :=
  (if validateTransaction d then ret tt else throw ValidationError) ;;
  d' <- Transaction_preSave now d ;;
  Transaction_insert d'.

(** ** Transaction routes (routes/transactions.js) *)

Record SendBody := {
  s_currency : Currency;
  s_amount : Number;
  s_recipient : string;
  s_bank : option string;
  s_reference : option string
}.

(** [router.post('/send', ...)] *)
Definition send (now : Z) (uid : nat) (body : SendBody) : World -> World * Response :=
  let currency := s_currency body in
  let amount := s_amount body in
  try_catch
    (found <- User_findById uid ;;
     user <- nonnull found ;;
     if get_balance (balances user) currency <? amount
     then ret (Failure 400 "INSUFFICIENT_BALANCE")
     else
       let user :=
         {| _id := _id user;
            balances := set_balance (balances user) currency
                          (get_balance (balances user) currency - amount);
            trading := trading user;
            status := status user |} in
       User_save user ;;
       transaction <- Transaction_create now
         {| t_user := _id user; t_type := tx_send;
            t_currency := Some currency; t_amount := amount;
            t_fromCurrency := None; t_toCurrency := None;
            t_convertedAmount := None; t_exchangeRate := None;
            t_status := tx_completed;
            t_reference := s_reference body |} ;;
       Notification_create
         {| n_user := _id user; n_type := nt_transaction;
            n_title := "Money Sent"; n_priority := pr_normal |} ;;
       AuditLog_createLog
         {| a_user := _id user; a_action := aa_send_money;
            a_entityType := Some et_transaction;
            a_entityId := Some (t_id transaction) |} ;;
       ret (Success 200))
    (fun _ => Failure 500 "TRANSACTION_FAILED").

Record ReceiveBody := {
  r_currency : Currency;
  r_amount : Number;
  r_sender : string;
  r_reference : option string
}.

(** [router.post('/receive', ...)] *)
Definition receive (now : Z) (uid : nat) (body : ReceiveBody)
  : World -> World * Response :=
  let currency := r_currency body in
  let amount := r_amount body in
  try_catch
    (found <- User_findById uid ;;
     user <- nonnull found ;;
     let user :=
       {| _id := _id user;
          balances := set_balance (balances user) currency
                        (get_balance (balances user) currency + amount);
          trading := trading user;
          status := status user |} in
     User_save user ;;
     transaction <- Transaction_create now
       {| t_user := _id user; t_type := tx_receive;
          t_currency := Some currency; t_amount := amount;
          t_fromCurrency := None; t_toCurrency := None;
          t_convertedAmount := None; t_exchangeRate := None;
          t_status := tx_completed;
          t_reference := r_reference body |} ;;
     Notification_create
       {| n_user := _id user; n_type := nt_transaction;
          n_title := "Money Received"; n_priority := pr_normal |} ;;
     AuditLog_createLog
       {| a_user := _id user; a_action := aa_receive_money;
          a_entityType := Some et_transaction;
          a_entityId := Some (t_id transaction) |} ;;
     ret (Success 200))
    (fun _ => Failure 500 "RECEIVE_FAILED").

(** The [conversionRates] object literal of the transfer route; each
    literal is the double nearest to the decimal. *)
Definition conversionRates : list (string * Number) :=
  [ ("USD-EUR"%string, 0.92);
    ("USD-GBP"%string, 0.79);
    ("USD-CNY"%string, 7.24);
    ("USD-NGN"%string, 1550);
    ("EUR-USD"%string, 1.09);
    ("GBP-USD"%string, 1.27);
    ("CNY-USD"%string, 0.14);
    ("NGN-USD"%string, 0.00065) ].

(** [table[key]]: the value of an own property, or [undefined]. *)
Fixpoint lookup (key : string) (table : list (string * Number)) : option Number :=
  match table with
  | [] => None
  | (k, v) :: rest => if String.eqb k key then Some v else lookup key rest
  end.

(** [v || d] on a possibly undefined number: [undefined], [0] and NaN are
    falsy. *)
Definition or_default (v : option Number) (d : Number) : Number :=
  match v with
  | Some x => if (x =? 0) || is_nan x then d else x
  | None => d
  end.

(** [conversionRates[fromCurrency + '-' + toCurrency] || 1] *)
Definition exchangeRate (fromCurrency toCurrency : Currency) : Number :=
  let key := (currency_name fromCurrency ++ "-" ++ currency_name toCurrency)%string in
  or_default (lookup key conversionRates) 1.

Record TransferBody := {
  x_fromCurrency : Currency;
  x_toCurrency : Currency;
  x_amount : Number
}.

(** [router.post('/transfer', ...)].  The object given to
    [Transaction.create] has no [currency] path. *)
Definition transfer (now : Z) (uid : nat) (body : TransferBody)
  : World -> World * Response :=
  let fromCurrency := x_fromCurrency body in
  let toCurrency := x_toCurrency body in
  let amount := x_amount body in
  try_catch
    (found <- User_findById uid ;;
     if currency_eqb fromCurrency toCurrency
     then ret (Failure 400 "SAME_CURRENCY")
     else
       user <- nonnull found ;;
       if get_balance (balances user) fromCurrency <? amount
       then ret (Failure 400 "INSUFFICIENT_BALANCE")
       else
         let rate := exchangeRate fromCurrency toCurrency in
         let convertedAmount := amount * rate in
         let debited :=
           set_balance (balances user) fromCurrency
             (get_balance (balances user) fromCurrency - amount) in
         let credited :=
           set_balance debited toCurrency
             (get_balance debited toCurrency + convertedAmount) in
         let user :=
           {| _id := _id user; balances := credited;
              trading := trading user; status := status user |} in
         User_save user ;;
         transaction <- Transaction_create now
           {| t_user := _id user; t_type := tx_transfer;
              t_currency := None; t_amount := amount;
              t_fromCurrency := Some fromCurrency;
              t_toCurrency := Some toCurrency;
              t_convertedAmount := Some convertedAmount;
              t_exchangeRate := Some rate;
              t_status := tx_completed;
              t_reference := None |} ;;
         Notification_create
           {| n_user := _id user; n_type := nt_transaction;
              n_title := "Transfer Completed"; n_priority := pr_normal |} ;;
         AuditLog_createLog
           {| a_user := _id user; a_action := aa_transfer;
              a_entityType := Some et_transaction;
              a_entityId := Some (t_id transaction) |} ;;
         ret (Success 200))
    (fun _ => Failure 500 "TRANSFER_FAILED").

Record InternationalBody := {
  i_currency : Currency;
  i_amount : Number;
  i_swiftCode : string;
  i_iban : string;
  i_recipientName : string
}.

(** [router.post('/international', ...)] *)
Definition international (now : Z) (uid : nat) (body : InternationalBody)
  : World -> World * Response :=
  let currency := i_currency body in
  let amount := i_amount body in
  try_catch
    (found <- User_findById uid ;;
     user <- nonnull found ;;
     if get_balance (balances user) currency <? amount
     then ret (Failure 400 "INSUFFICIENT_BALANCE")
     else
       let user :=
         {| _id := _id user;
            balances := set_balance (balances user) currency
                          (get_balance (balances user) currency - amount);
            trading := trading user;
            status := status user |} in
       User_save user ;;
       transaction <- Transaction_create now
         {| t_user := _id user; t_type := tx_send;
            t_currency := Some currency; t_amount := amount;
            t_fromCurrency := None; t_toCurrency := None;
            t_convertedAmount := None; t_exchangeRate := None;
            t_status := tx_processing;
            t_reference := None |} ;;
       Notification_create
         {| n_user := _id user; n_type := nt_transaction;
            n_title := "International Transfer Initiated";
            n_priority := pr_high |} ;;
       AuditLog_createLog
         {| a_user := _id user; a_action := aa_send_money;
            a_entityType := Some et_transaction;
            a_entityId := Some (t_id transaction) |} ;;
       ret (Success 200))
    (fun _ => Failure 500 "INTERNATIONAL_TRANSFER_FAILED").

(** ** Crypto routes (routes/crypto.js) *)

Record SendCryptoBody := {
  c_currency : Currency;
  c_amount : Number;
  c_recipientAddress : string
}.

(** [generateTxHash()]: 64 hexadecimal digits, one [Math.random()] each.
    The hash goes into [cryptoDetails], which nothing reads back. *)
Definition generateTxHash : M unit := Math_random_times 64.

(** [router.post('/send', ...)] of the crypto routes *)
Definition sendCrypto (now : Z) (uid : nat) (body : SendCryptoBody)
  : World -> World * Response :=
  let currency := c_currency body in
  let amount := c_amount body in
  try_catch
    (found <- User_findById uid ;;
     user <- nonnull found ;;
     if get_balance (balances user) currency <? amount
     then ret (Failure 400 "INSUFFICIENT_BALANCE")
     else
       let user :=
         {| _id := _id user;
            balances := set_balance (balances user) currency
                          (get_balance (balances user) currency - amount);
            trading := trading user;
            status := status user |} in
       User_save user ;;
       generateTxHash ;;
       transaction <- Transaction_create now
         {| t_user := _id user; t_type := tx_crypto_send;
            t_currency := Some currency; t_amount := amount;
            t_fromCurrency := None; t_toCurrency := None;
            t_convertedAmount := None; t_exchangeRate := None;
            t_status := tx_completed;
            t_reference := None |} ;;
       Notification_create
         {| n_user := _id user; n_type := nt_transaction;
            n_title := "Crypto Sent"; n_priority := pr_normal |} ;;
       AuditLog_createLog
         {| a_user := _id user; a_action := aa_send_crypto;
            a_entityType := Some et_transaction;
            a_entityId := Some (t_id transaction) |} ;;
       ret (Success 200))
    (fun _ => Failure 500 "CRYPTO_SEND_FAILED").

(** ** Trading routes (routes/trading.js) *)

(** [router.post('/withdraw-profit', ...)] *)
Definition withdrawProfit (now : Z) (uid : nat) : World -> World * Response :=
  try_catch
    (found <- User_findById uid ;;
     user <- nonnull found ;;
     if profit (trading user) <=? 0
     then ret (Failure 400 "NO_PROFIT")
     else
       let profitAmount := profit (trading user) in
       let user :=
         {| _id := _id user;
            balances := set_balance (balances user) USD
                          (get_balance (balances user) USD + profitAmount);
            trading := {| capital := capital (trading user);
                          profit := 0;
                          robotActive := robotActive (trading user) |};
            status := status user |} in
       User_save user ;;
       transaction <- Transaction_create now
         {| t_user := _id user; t_type := tx_trading;
            t_currency := Some USD; t_amount := profitAmount;
            t_fromCurrency := None; t_toCurrency := None;
            t_convertedAmount := None; t_exchangeRate := None;
            t_status := tx_completed;
            t_reference := None |} ;;
       Notification_create
         {| n_user := _id user; n_type := nt_trading;
            n_title := "Profit Withdrawn"; n_priority := pr_high |} ;;
       AuditLog_createLog
         {| a_user := _id user; a_action := aa_trading_profit;
            a_entityType := Some et_transaction;
            a_entityId := Some (t_id transaction) |} ;;
       ret (Success 200))
    (fun _ => Failure 500 "PROFIT_WITHDRAW_FAILED").

(** ** Mining statics (models/Mining.js) *)

(** The document built by
    [Mining.createMiningOperation(userId, currency, type, targetAmount)],
    under the [_id] it is stored with. *)
Definition newMining (now : Z) (id userId : nat) (currency : Currency)
    (type : MiningType) (targetAmount : Number) : Mining :=
  {| m_id := id; m_user := userId; m_currency := currency;
     m_type := type; m_status := st_mining; m_progress := 0;
     m_targetAmount := targetAmount; m_minedAmount := 0;
     m_startTime := now; m_endTime := None; m_nextMiningTime := None;
     m_addresses := []; m_transaction := None |}.

(** [Mining.createMiningOperation(userId, currency, type, targetAmount)] *)
Definition Mining_createMiningOperation (now : Z) (userId : nat)
    (currency : Currency) (type : MiningType) (targetAmount : Number) : M Mining :=
  fun w =>
    let m := newMining now (nextId w) userId currency type targetAmount in
    if validateMining m
    then
      ({| users := users w; minings := minings w ++ [m];
          transactions := transactions w;
          notifications := notifications w; auditLogs := auditLogs w;
          nextId := S (nextId w); drawn := drawn w |},
       Returned m)
    else (w, Thrown ValidationError).

(** ** Mining service (services/miningService.js) *)

(** [Mining.find({ status: 'mining' })] *)
Definition Mining_findActive (w : World) : list Mining :=
  filter (fun m => is_mining (m_status m)) (minings w).

(** The assignments of the sweep to the in-memory job document. *)
Definition completeMining (now : Z) (transactionId : nat) (mining : Mining) : Mining :=
  {| m_id := m_id mining; m_user := m_user mining;
     m_currency := m_currency mining; m_type := m_type mining;
     m_status := st_completed;
     m_progress := 100;
     m_targetAmount := m_targetAmount mining;
     m_minedAmount := m_targetAmount mining;
     m_startTime := m_startTime mining;
     m_endTime := Some now;
     m_nextMiningTime := Some (now + 60 * 60 * 1000)%Z;
     m_addresses := m_addresses mining;
     m_transaction := Some transactionId |}.

(** The update that [mining.save()] sends after those assignments: [$set]
    of the assigned paths of the in-memory document [mining] on the stored
    document. *)
Definition setAssigned (mining stored : Mining) : Mining :=
  {| m_id := m_id stored; m_user := m_user stored;
     m_currency := m_currency stored; m_type := m_type stored;
     m_status := m_status mining;
     m_progress := m_progress mining;
     m_targetAmount := m_targetAmount stored;
     m_minedAmount := m_minedAmount mining;
     m_startTime := m_startTime stored;
     m_endTime := m_endTime mining;
     m_nextMiningTime := m_nextMiningTime mining;
     m_addresses := m_addresses stored;
     m_transaction := m_transaction mining |}.

(** [mining.save()]: validate the in-memory document, then update the
    stored document with the same [_id]. *)
Definition Mining_save (mining : Mining) : M unit :=
  fun w =>
    if validateMining mining
    then
      (with_minings
         (updateOne (fun x => Nat.eqb (m_id x) (m_id mining)) (setAssigned mining)
            (minings w)) w,
       Returned tt)
    else (w, Thrown ValidationError).

(** The body of the loop of [processMiningCycles], with its own
    [try]/[catch]; [mining] is the document read by the initial [find]. *)
Definition processMiningJob (now : Z) (mining : Mining) : World -> World :=
  fun w =>
    fst (try_catch
      (found <- User_findById (m_user mining) ;;
       match found with
       | None => ret tt
       | Some user =>
           if negb (UserStatus_eqb (status user) active) then ret tt
           else
             let user :=
               {| _id := _id user;
                  balances :=
                    set_balance (balances user) (m_currency mining)
                      (get_balance (balances user) (m_currency mining)
                       + m_targetAmount mining);
                  trading := trading user;
                  status := status user |} in
             User_save user ;;
             transaction <- Transaction_create now
               {| t_user := _id user; t_type := tx_mining;
                  t_currency := Some (m_currency mining);
                  t_amount := m_targetAmount mining;
                  t_fromCurrency := None; t_toCurrency := None;
                  t_convertedAmount := None; t_exchangeRate := None;
                  t_status := tx_completed;
                  t_reference := None |} ;;
             let mining := completeMining now (t_id transaction) mining in
             Mining_save mining ;;
             Notification_create
               {| n_user := _id user; n_type := nt_mining;
                  n_title := "Mining Completed"; n_priority := pr_normal |} ;;
             AuditLog_createLog
               {| a_user := _id user; a_action := aa_mining_complete;
                  a_entityType := Some et_mining;
                  a_entityId := Some (m_id mining) |} ;;
             Mining_createMiningOperation now (_id user) (m_currency mining)
               (m_type mining) (m_targetAmount mining) ;;
             ret tt
       end)
      (fun _ => tt) w).

(** [for (const mining of activeMining) { ... }] *)
Definition processMiningJobs (now : Z) (activeMining : list Mining) (w : World) : World :=
  fold_left (fun w mining => processMiningJob now mining w) activeMining w.

(** [processMiningCycles()]: one completion sweep. *)
Definition processMiningCycles (now : Z) (w : World) : World :=
  let activeMining := Mining_findActive w in
  processMiningJobs now activeMining w.

(** ** Trading service (services/tradingService.js) *)

(** [User.find({ 'trading.robotActive': true, status: 'active' })] *)
Definition User_findRobots (w : World) : list User :=
  filter (fun u => robotActive (trading u) && UserStatus_eqb (status u) active)
         (users w).

(** [tradeAmount] of the simulated trade that reads the random stream from
    position [k]. *)
Definition tradeAmountAt (k : nat) (user : User) : Number :=
  capital (trading user) * (0.01 + rnd (k + 1)%nat * 0.05).

(** [profit] of that trade. *)
Definition tradeProfitAt (k : nat) (user : User) : Number :=
  if 0.35 <? rnd k
  then tradeAmountAt k user * (0.02 + rnd (k + 2)%nat * 0.08)
  else (- tradeAmountAt k user) * 0.02.

(** The in-memory user document after the assignments of that trade. *)
Definition tradedUser (k : nat) (user : User) : User :=
  if 0.35 <? rnd k
  then {| _id := _id user; balances := balances user;
          trading := {| capital := capital (trading user);
                        profit := profit (trading user) + tradeProfitAt k user;
                        robotActive := robotActive (trading user) |};
          status := status user |}
  else {| _id := _id user; balances := balances user;
          trading := {| capital :=
                          Math_max 0 (capital (trading user)
                                      - Math_abs (tradeProfitAt k user));
                        profit := profit (trading user);
                        robotActive := robotActive (trading user) |};
          status := status user |}.

(** The object that trade hands to [Transaction.create]. *)
Definition tradeDoc (k : nat) (user : User) : TransactionDoc :=
  {| t_user := _id user; t_type := tx_trading;
     t_currency := Some USD; t_amount := Math_abs (tradeProfitAt k user);
     t_fromCurrency := None; t_toCurrency := None;
     t_convertedAmount := None; t_exchangeRate := None;
     t_status := tx_completed;
     t_reference := None |}.

(** The body of the loop of [executeTradingRobots] for the in-memory
    document [user]: three calls of [Math.random()] for a profitable trade,
    two otherwise, then the save and the records. *)
Definition tradeUser (now : Z) (user : User) (w : World) : World :=
  if capital (trading user) <=? 0 then w
  else
    let k := drawn w in
    let isProfitable := 0.35 <? rnd k in
    let profit_ := tradeProfitAt k user in
    let w := with_drawn (if isProfitable then (k + 3)%nat else (k + 2)%nat) w in
    fst (try_catch
       (User_save (tradedUser k user) ;;
        transaction <- Transaction_create now (tradeDoc k user) ;;
        AuditLog_createLog
          {| a_user := _id user; a_action := aa_trading_profit;
             a_entityType := Some et_transaction;
             a_entityId := Some (t_id transaction) |} ;;
        if isProfitable && (50 <? profit_)
        then Notification_create
               {| n_user := _id user; n_type := nt_trading;
                  n_title := "Trading Profit"; n_priority := pr_normal |}
        else ret tt)
       (fun _ => tt) w).

(** [executeTradingRobots()]: one trading cycle. *)
Definition executeTradingRobots (now : Z) (w : World) : World :=
  let robots := User_findRobots w in
  fold_left (fun w user => tradeUser now user w) robots w.

(** The number of calls of [Math.random()] in one iteration of that loop
    for the in-memory document [user], when the iteration starts reading at
    position [k]: two or three for the trade, and one more in the hook when
    the save and the validators of the transaction let it run. *)
Definition tradeDraws (k : nat) (user : User) : nat :=
  if capital (trading user) <=? 0 then 0%nat
  else
    let trade := if 0.35 <? rnd k then 3%nat else 2%nat in
    let hook :=
      if validateUser (tradedUser k user) && validateTransaction (tradeDoc k user)
      then 1%nat else 0%nat in
    (trade + hook)%nat.

(** Where the loop stands in the random stream after the iterations for
    [robots], having started at position [k]. *)
Definition positionAfter (k : nat) (robots : list User) : nat :=
  fold_left (fun k user => (k + tradeDraws k user)%nat) robots k.

(** ** Documents written by the handlers *)

(** The user document that a debit of [amount] in currency [c] saves. *)
Definition debitedUser (user : User) (c : Currency) (amount : Number) : User :=
  {| _id := _id user;
     balances := set_balance (balances user) c
                   (get_balance (balances user) c - amount);
     trading := trading user; status := status user |}.

(** The user document that a credit of [amount] in currency [c] saves. *)
Definition creditedUser (user : User) (c : Currency) (amount : Number) : User :=
  {| _id := _id user;
     balances := set_balance (balances user) c
                   (get_balance (balances user) c + amount);
     trading := trading user; status := status user |}.

(** The user document that a conversion of [amount] from [fromCurrency]
    to [toCurrency] saves. *)
Definition convertedUser (user : User) (fromCurrency toCurrency : Currency)
    (amount : Number) : User :=
  let debited :=
    set_balance (balances user) fromCurrency
      (get_balance (balances user) fromCurrency - amount) in
  {| _id := _id user;
     balances :=
       set_balance debited toCurrency
         (get_balance debited toCurrency
          + amount * exchangeRate fromCurrency toCurrency);
     trading := trading user; status := status user |}.

(** The user document that a profit withdrawal saves. *)
Definition withdrawnUser (user : User) : User :=
  {| _id := _id user;
     balances := set_balance (balances user) USD
                   (get_balance (balances user) USD + profit (trading user));
     trading := {| capital := capital (trading user);
                   profit := 0;
                   robotActive := robotActive (trading user) |};
     status := status user |}.

(** The stored job document with [_id = id], if any. *)
Definition findMining (w : World) (id : nat) : option Mining :=
  find (fun m => Nat.eqb (m_id m) id) (minings w).

(** The stored reward transaction of a job, when the hook reads the random
    value [r]. *)
Definition rewardDoc (now : Z) (r : Number) (mining : Mining) : TransactionDoc :=
  {| t_user := m_user mining; t_type := tx_mining;
     t_currency := Some (m_currency mining);
     t_amount := m_targetAmount mining;
     t_fromCurrency := None; t_toCurrency := None;
     t_convertedAmount := None; t_exchangeRate := None;
     t_status := tx_completed;
     t_reference := Some (generatedReference now r) |}.

(** Is [m] a job of account [uid] in currency [c]? *)
Definition job_of (uid : nat) (c : Currency) (m : Mining) : bool :=
  Nat.eqb (m_user m) uid && currency_eqb (m_currency m) c.

(** The jobs of account [uid] in currency [c] that are in [mining] status. *)
Definition miningJobsOf (uid : nat) (c : Currency) (w : World) : list Mining :=
  filter (fun m => job_of uid c m && is_mining (m_status m)) (minings w).

(** [balance] after the additions [balance += targetAmount] for the jobs of
    [l] that belong to account [uid] and currency [c], in the order of
    [l]. *)
Definition creditedBalance (uid : nat) (c : Currency) (l : list Mining)
    (balance : Number) : Number :=
  fold_left (fun b m => if job_of uid c m then b + m_targetAmount m else b)
            l balance.

(** The transactions of account [uid] in currency [c] among [log]. *)
Definition transactionsOf (uid : nat) (c : Currency) (log : list Transaction)
  : list Transaction :=
  filter (fun t : Transaction =>
            Nat.eqb (t_user t) uid
            && match t_currency t with
               | Some c' => currency_eqb c' c
               | None => false
               end) log.

(** The number of [mining_complete] audit entries written for job [id]. *)
Definition completionsOf (id : nat) (w : World) : nat :=
  List.length
    (filter (fun a =>
               match a_action a, a_entityType a, a_entityId a with
               | aa_mining_complete, Some et_mining, Some id' => Nat.eqb id' id
               | _, _, _ => false
               end) (auditLogs w)).

(** The references that the hook generates from the positions [k], [k+1],
    ..., [k+n-1] of the random stream are new to [log] and differ from one
    another. *)
Definition fresh_references (now : Z) (k n : nat) (log : list Transaction) : Prop :=
  (forall i, (k <= i < k + n)%nat ->
     reference_taken log (Some (generatedReference now (rnd i))) = false)
  /\ (forall i j, (k <= i < k + n)%nat -> (k <= j < k + n)%nat ->
        generatedReference now (rnd i) = generatedReference now (rnd j) -> i = j).

(** Every stored transaction is one of [log], or carries the reference
    generated from a position of the random stream from [k] up to the
    current one. *)
Definition references_known (now : Z) (k : nat) (log : list Transaction)
    (w : World) : Prop :=
  forall t : Transaction, In t (transactions w) ->
    In t log
    \/ exists i, (k <= i < drawn w)%nat
                 /\ t_reference t = Some (generatedReference now (rnd i)).

(** ** Two overlapping completion sweeps

    A sweep first reads its snapshot, then handles the jobs of the snapshot
    one after the other.  The runtime may switch between two running sweeps
    at every [await]; the schedule below switches only between the
    iterations of the loops, which is one of the interleavings the runtime
    allows. *)

(** What a running sweep still has to do: [None] before its [find], the
    rest of its snapshot afterwards. *)
Definition SweepState := option (list Mining).

(** Which of the two sweeps takes the next turn. *)
Inductive Turn := SweepA | SweepB.

(** One turn of a sweep: read the snapshot, or handle its next job. *)
Definition sweep_turn (now : Z) (st : World * SweepState) : World * SweepState :=
  match st with
  | (w, None) => (w, Some (Mining_findActive w))
  | (w, Some []) => (w, Some [])
  | (w, Some (mining :: rest)) => (processMiningJob now mining w, Some rest)
  end.

(** Two sweeps over one store, taking turns as [schedule] says. *)
Fixpoint overlap (now : Z) (schedule : list Turn)
    (st : World * SweepState * SweepState) : World * SweepState * SweepState :=
  match schedule with
  | [] => st
  | t :: rest =>
      let '(w, a, b) := st in
      match t with
      | SweepA =>
          let (w', a') := sweep_turn now (w, a) in
          overlap now rest (w', a', b)
      | SweepB =>
          let (w', b') := sweep_turn now (w, b) in
          overlap now rest (w', a, b')
      end
  end.

(** ** Sequences of operations

    The eight places of the source that call [Transaction.create]; nothing
    else writes the transaction collection. *)

Inductive Operation :=
| OpSend (now : Z) (uid : nat) (body : SendBody)
| OpReceive (now : Z) (uid : nat) (body : ReceiveBody)
| OpTransfer (now : Z) (uid : nat) (body : TransferBody)
| OpInternational (now : Z) (uid : nat) (body : InternationalBody)
| OpSendCrypto (now : Z) (uid : nat) (body : SendCryptoBody)
| OpWithdrawProfit (now : Z) (uid : nat)
| OpMiningSweep (now : Z)
| OpTradingCycle (now : Z).

Definition apply_op (w : World) (op : Operation) : World :=
  match op with
  | OpSend now uid body => fst (send now uid body w)
  | OpReceive now uid body => fst (receive now uid body w)
  | OpTransfer now uid body => fst (transfer now uid body w)
  | OpInternational now uid body => fst (international now uid body w)
  | OpSendCrypto now uid body => fst (sendCrypto now uid body w)
  | OpWithdrawProfit now uid => fst (withdrawProfit now uid w)
  | OpMiningSweep now => processMiningCycles now w
  | OpTradingCycle now => executeTradingRobots now w
  end.

Definition run_ops (ops : list Operation) (w : World) : World :=
  fold_left apply_op ops w.

(** A store computation that only appends to the transaction log and only
    advances the random stream. *)
Definition appendsM {A} (c : M A) : Prop :=
  forall w, extends (transactions w) (transactions (fst (c w)))
            /\ (drawn w <= drawn (fst (c w)))%nat.

End Embedding.

(** ** Sample data *)

Definition zeroBalances : Balances :=
  {| bUSD := 0; bEUR := 0; bGBP := 0; bCNY := 0; bNGN := 0;
     bBTC := 0; bTRX := 0; bTON := 0; bETH := 0 |}.

Definition idleTrading : Trading :=
  {| capital := 0; profit := 0; robotActive := false |}.

Definition emptyWorld : World :=
  {| users := []; minings := []; transactions := [];
     notifications := []; auditLogs := []; nextId := 10; drawn := 0 |}.

(** An active account, with id 1, holding [usd] USD. *)
Definition holder (usd : Number) : User :=
  {| _id := 1; balances := set_balance zeroBalances USD usd;
     trading := idleTrading; status := active |}.


(** An active account, with id 2, holding [usd] USD, with the trading
    capital and profit given and the robot on. *)
Definition trader (usd capital_ profit_ : Number) : User :=
  {| _id := 2; balances := set_balance zeroBalances USD usd;
     trading := {| capital := capital_; profit := profit_; robotActive := true |};
     status := active |}.

(** A suspended account, with id 3. *)
Definition suspendedHolder : User :=
  {| _id := 3; balances := zeroBalances; trading := idleTrading;
     status := suspended |}.

Definition world_of (u : User) : World := with_users [u] emptyWorld.

(** A job in [mining] status for 1000 USD, owned by account [uid]. *)
Definition usdJob (uid : nat) : Mining := newMining 0 7 uid USD mt_currency 1000.

(** The store with the account [u] and one USD job of target 1000 that it
    owns. *)
Definition miningWorld (u : User) : World :=
  with_minings [usdJob (_id u)] (world_of u).

Definition internationalUSD (amount : Number) : InternationalBody :=
  {| i_currency := USD; i_amount := amount; i_swiftCode := "S";
     i_iban := "I"; i_recipientName := "R" |}.

Definition receiveUSD (amount : Number) : ReceiveBody :=
  {| r_currency := USD; r_amount := amount; r_sender := "S";
     r_reference := None |}.

(** An active account, with id 1, holding [btc] BTC. *)
Definition btcHolder (btc : Number) : User :=
  {| _id := 1; balances := set_balance zeroBalances BTC btc;
     trading := idleTrading; status := active |}.

Definition sendBTC (amount : Number) : SendCryptoBody :=
  {| c_currency := BTC; c_amount := amount; c_recipientAddress := "A" |}.

Definition sendUSD (amount : Number) (reference : option string) : SendBody :=
  {| s_currency := USD; s_amount := amount; s_recipient := "R";
     s_bank := None; s_reference := reference |}.

Definition usdToEur (amount : Number) : TransferBody :=
  {| x_fromCurrency := USD; x_toCurrency := EUR; x_amount := amount |}.

(** A random source that always returns [r]. *)
Definition constantly (r : Number) : nat -> Number := fun _ => r.

(** A reference generator with two outcomes, told apart by the random
    value. *)
Definition sampleReference : Z -> Number -> string :=
  fun _ r => if r <? 0.5 then "TXN-0-A"%string else "TXN-0-B"%string.

(** A random source that alternates between 1/4 and 3/4. *)
Definition alternating : nat -> Number :=
  fun n => if Nat.even n then 0.25 else 0.75.

Definition two54 : Number := 18014398509481984.

End B64.

(** * Properties *)

(** ** Arithmetic on numbers *)

Lemma Qcltb_true (x y : Number) : Qcltb x y = true <-> x < y.
Proof.
  unfold Qcltb, Qclt. rewrite negb_true_iff.
  destruct (Qle_bool y x) eqn:E.
  - apply Qle_bool_iff in E. split; [discriminate | intro; lra].
  - split; [intros _ | reflexivity].
    apply Qnot_le_lt. intro H. apply Qle_bool_iff in H. congruence.
Qed.

Lemma Qcltb_false (x y : Number) : Qcltb x y = false <-> y <= x.
Proof.
  unfold Qcltb, Qcle. rewrite negb_false_iff. apply Qle_bool_iff.
Qed.

Lemma Qcleb_true (x y : Number) : Qcleb x y = true <-> x <= y.
Proof. unfold Qcleb, Qcle. apply Qle_bool_iff. Qed.

Lemma Qcleb_false (x y : Number) : Qcleb x y = false <-> y < x.
Proof.
  unfold Qcleb, Qclt. destruct (Qle_bool x y) eqn:E.
  - apply Qle_bool_iff in E. split; [discriminate | intro; lra].
  - split; [intros _ | reflexivity].
    apply Qnot_le_lt. intro H. apply Qle_bool_iff in H. congruence.
Qed.

Lemma Qc_eq_Q (x y : Qc) : x = y <-> (this x == this y)%Q.
Proof. split; [intros ->; reflexivity | apply Qc_is_canon]. Qed.

(** Turn a goal on [Qc] into one on [Q], where [lra] and [nra] apply. *)
Ltac qc2q :=
  repeat match goal with
  | H : Qcltb _ _ = true |- _ => apply Qcltb_true in H
  | H : Qcltb _ _ = false |- _ => apply Qcltb_false in H
  | H : Qcleb _ _ = true |- _ => apply Qcleb_true in H
  | H : Qcleb _ _ = false |- _ => apply Qcleb_false in H
  | H : @eq Qc _ _ |- _ => apply Qc_eq_Q in H
  | |- @eq Qc _ _ => apply Qc_is_canon
  | |- Qcltb _ _ = true => apply Qcltb_true
  | |- Qcltb _ _ = false => apply Qcltb_false
  | |- Qcleb _ _ = true => apply Qcleb_true
  | |- Qcleb _ _ = false => apply Qcleb_false
  end;
  repeat (progress (unfold Qcle, Qclt, Qcplus, Qcminus, Qcopp, Qcmult, Q2Qc in *;
                    cbn [this] in * ));
  rewrite ?Qred_correct in *.

Ltac qlra := qc2q; lra.
Ltac qnra := qc2q; nra.

(** ** Balances *)

Lemma get_set_balance_same b c v : get_balance (set_balance b c v) c = v.
Proof. destruct c; reflexivity. Qed.

Lemma get_set_balance_other b c c' v :
  c <> c' -> get_balance (set_balance b c v) c' = get_balance b c'.
Proof. destruct c, c'; intros H; try reflexivity; congruence. Qed.

Lemma currency_eqb_eq a b : currency_eqb a b = true <-> a = b.
Proof. destruct a, b; simpl; split; intros H; try reflexivity; discriminate. Qed.

Lemma currency_eqb_neq a b : currency_eqb a b = false <-> a <> b.
Proof.
  rewrite <- currency_eqb_eq. destruct (currency_eqb a b); split; congruence.
Qed.

(** What the validators of the user schema check. *)
Lemma validateUser_spec u :
  validateUser u = true <->
  (forall c, 0 <= get_balance (balances u) c)
  /\ 0 <= capital (trading u) /\ 0 <= profit (trading u).
Proof.
  unfold validateUser. rewrite !andb_true_iff, forallb_forall, !Qcleb_true.
  split; intros [[Hb Hc] Hp] || intros (Hb & Hc & Hp); repeat split; auto.
  - intros c. rewrite <- Qcleb_true. apply Hb. destruct c; simpl; tauto.
  - intros c _. apply Qcleb_true, Hb.
Qed.


(** ** Store lookups *)

Lemma findUser_id db uid u : findUser db uid = Some u -> _id u = uid.
Proof.
  unfold findUser. intros H. apply find_some in H. now apply Nat.eqb_eq.
Qed.

Lemma find_updateOne_same {A} (key : A -> nat) (k : nat) (x : A) (l : list A) v :
  key v = k ->
  find (fun y => key y =? k) l = Some x ->
  find (fun y => key y =? k) (updateOne (fun y => key y =? k) (fun _ => v) l)
  = Some v.
Proof.
  intros Hv. induction l as [|a l IH]; simpl; [discriminate|].
  destruct (key a =? k) eqn:E; simpl.
  - intros _. rewrite Hv, Nat.eqb_refl. reflexivity.
  - rewrite E. exact IH.
Qed.

Lemma find_updateOne_other {A} (key : A -> nat) (k k' : nat) (l : list A) f :
  k <> k' -> (forall y, key y = k -> key (f y) = k) ->
  find (fun y => key y =? k') (updateOne (fun y => key y =? k) f l)
  = find (fun y => key y =? k') l.
Proof.
  intros Hk Hf. induction l as [|a l IH]; simpl; [reflexivity|].
  destruct (key a =? k) eqn:E; simpl.
  - apply Nat.eqb_eq in E. rewrite (Hf _ E).
    replace (k =? k') with false by (symmetry; now apply Nat.eqb_neq).
    replace (key a =? k') with false; [reflexivity|].
    symmetry. apply Nat.eqb_neq. congruence.
  - destruct (key a =? k'); [reflexivity | exact IH].
Qed.

Lemma find_updateOne_key {A} (key : A -> nat) (k : nat) (l : list A) v :
  key v = k ->
  find (fun y => key y =? k) (updateOne (fun y => key y =? k) (fun _ => v) l)
  = match find (fun y => key y =? k) l with Some _ => Some v | None => None end.
Proof.
  intros Hv. induction l as [|a l IH]; simpl; [reflexivity|].
  destruct (key a =? k) eqn:E; simpl.
  - rewrite Hv, Nat.eqb_refl. reflexivity.
  - rewrite E. exact IH.
Qed.

(** ** Send *)

(** Symbolic execution of a handler: unfold the store operations. *)
Ltac run_handler :=
  unfold try_catch, bind, ret, throw, nonnull, User_findById, User_save,
    Transaction_create, Notification_create, AuditLog_createLog.


Lemma findUser_after_save db db' uid user user' :
  findUser db uid = Some user ->
  users db' = updateOne (fun x => _id x =? uid) (fun _ => user') (users db) ->
  _id user' = uid ->
  findUser db' uid = Some user'.
Proof.
  unfold findUser. intros Hf -> Hid.
  eapply (find_updateOne_same _id); eauto.
Qed.



(** ** Transfer between currencies *)

(** Every run of the handler either leaves the store as it was or saves
    the converted user document. *)
Lemma transfer_cases db uid body :
  fst (transfer uid body db) = db
  \/ exists user,
       findUser db uid = Some user
       /\ fst (transfer uid body db) =
          with_users
            (updateOne (fun x => _id x =? uid)
               (fun _ => convertedUser user (x_fromCurrency body)
                           (x_toCurrency body) (x_amount body))
               (users db)) db.
Proof.
  unfold transfer. run_handler.
  destruct (currency_eqb _ _); [left; reflexivity|].
  destruct (findUser db uid) as [user|] eqn:Hf; [|left; reflexivity].
  pose proof (findUser_id _ _ _ Hf) as Hid. subst uid.
  cbn. destruct (Qcltb _ _); [left; reflexivity|].
  destruct (validateUser _) eqn:Hv; [|left; reflexivity].
  right. exists user. split; reflexivity.
Qed.

(** C8.  Whatever a conversion answers, the only balances of the calling
    account that can differ afterwards are those of the source and target
    currencies; the other balances and the trading sub-state (capital,
    profit, robotActive) are as before. *)
Theorem transfer_frame db uid body user user' :
  findUser db uid = Some user ->
  findUser (fst (transfer uid body db)) uid = Some user' ->
  (forall c, c <> x_fromCurrency body -> c <> x_toCurrency body ->
             get_balance (balances user') c = get_balance (balances user) c)
  /\ capital (trading user') = capital (trading user)
  /\ profit (trading user') = profit (trading user)
  /\ robotActive (trading user') = robotActive (trading user).
Proof.
  intros Hf Hf'.
  destruct (transfer_cases db uid body) as [E | (u & Hu & E)]; rewrite E in Hf'.
  - rewrite Hf in Hf'. injection Hf' as <-. repeat split.
  - rewrite Hf in Hu. injection Hu as <-.
    erewrite findUser_after_save in Hf';
      [| exact Hf | reflexivity | exact (findUser_id _ _ _ Hf)].
    injection Hf' as <-. unfold convertedUser. cbn [balances trading].
    repeat split. intros c Hc1 Hc2.
    rewrite !get_set_balance_other by congruence. reflexivity.
Qed.

(** C8 on an account with 100 USD converting 50 USD to EUR: the balances
    do change, and only in USD and EUR. *)
Lemma transfer_frame_witness :
  exists user',
    findUser (fst (transfer 1 (usdToEur (Q2Qc 50)) db_alice)) 1 = Some user'
    /\ get_balance (balances user') EUR <> get_balance (balances alice) EUR
    /\ (forall c, c <> USD -> c <> EUR ->
                  get_balance (balances user') c = get_balance (balances alice) c)
    /\ capital (trading user') = capital (trading alice).
Proof.
  eexists. split; [reflexivity|]. split; [discriminate|].
  pose proof (transfer_frame db_alice 1 (usdToEur (Q2Qc 50)) alice _
                eq_refl eq_refl) as (Hb & Hc & _).
  split; [exact Hb | exact Hc].
Defined.

(** ** Profit withdrawal *)

Lemma withdrawProfit_none db uid user :
  findUser db uid = Some user ->
  profit (trading user) <= 0 ->
  withdrawProfit uid db = (db, Failure 400 "NO_PROFIT").
Proof.
  intros Hf Hle. apply Qcleb_true in Hle.
  unfold withdrawProfit. run_handler. rewrite Hf. cbn. rewrite Hle. reflexivity.
Qed.

Lemma validateUser_withdrawn user :
  validateUser user = true -> validateUser (withdrawnUser user) = true.
Proof.
  intros Hv. pose proof Hv as Hv0. apply validateUser_spec in Hv0.
  destruct Hv0 as (Hb & Hc & Hp).
  apply validateUser_spec. unfold withdrawnUser. cbn [balances trading capital profit].
  repeat split; [| assumption | apply Qcle_refl].
  intros c. destruct (currency_eqb USD c) eqn:E.
  - apply currency_eqb_eq in E. subst c. rewrite get_set_balance_same.
    specialize (Hb USD). qlra.
  - apply currency_eqb_neq in E. now rewrite get_set_balance_other.
Qed.

Lemma withdrawProfit_some db uid user :
  findUser db uid = Some user ->
  validateUser user = true ->
  0 < profit (trading user) ->
  withdrawProfit uid db =
  ({| users := updateOne (fun x => _id x =? uid) (fun _ => withdrawnUser user)
                 (users db);
      minings := minings db;
      transactions := transactions db ++
        [{| t_id := nextId db;
            t_doc := {| t_user := uid; t_type := tx_trading;
                        t_currency := Some USD;
                        t_amount := profit (trading user);
                        t_fromCurrency := None; t_toCurrency := None;
                        t_convertedAmount := None; t_exchangeRate := None;
                        t_status := tx_completed;
                        t_reference := None |} |}];
      notifications := notifications db ++
        [{| n_user := uid; n_type := nt_trading;
            n_title := "Profit Withdrawn"; n_priority := pr_high |}];
      auditLogs := auditLogs db ++
        [{| a_user := uid; a_action := aa_trading_profit;
            a_entityType := Some et_transaction;
            a_entityId := Some (nextId db) |}];
      nextId := S (nextId db) |},
   Success 200).
Proof.
  intros Hf Hv Hlt.
  pose proof (validateUser_withdrawn _ Hv) as Hv'.
  pose proof (findUser_id _ _ _ Hf) as Hid. subst uid.
  unfold withdrawProfit. run_handler. rewrite Hf. cbn.
  pose proof Hlt as Hlt'. apply Qcleb_false in Hlt'. rewrite Hlt'.
  unfold withdrawnUser in Hv'. cbn in Hv'. rewrite Hv'.
  unfold validateTransaction.
  cbn [t_currency t_amount t_convertedAmount t_reference reference_taken].
  apply Qclt_le_weak, Qcleb_true in Hlt. rewrite Hlt. reflexivity.
Qed.

(** ** Switching mining on and off *)

Lemma toggleMining_on_idle now uid db :
  activeMiningOf uid db = [] ->
  minings (fst (toggleMining now uid true db))
  = minings db ++ startedMinings now uid (nextId db).
Proof.
  unfold activeMiningOf. intros H.
  unfold toggleMining, try_catch, bind, User_findById, Mining_getUserActiveMining.
  rewrite H.
  cbv beta iota zeta delta
    [for_each bind Mining_createMiningOperation ret nonnull throw
     AuditLog_createLog fst snd minings nextId users transactions
     notifications auditLogs currency_eqb List.length Nat.eqb].
  destruct (findUser db uid);
    cbv beta iota zeta delta [fst minings]; rewrite <- !app_assoc; reflexivity.
Qed.

Lemma toggleMining_on_busy now uid db :
  activeMiningOf uid db <> [] ->
  toggleMining now uid true db = (db, Success 200).
Proof.
  unfold activeMiningOf. intros H.
  unfold toggleMining, try_catch, bind, User_findById, Mining_getUserActiveMining.
  destruct (filter _ _) as [|m l]; [congruence|]. reflexivity.
Qed.

Lemma toggleMining_off now uid db :
  minings (fst (toggleMining now uid false db))
  = map (fun m => if (m_user m =? uid) && is_mining (m_status m)
                  then cancelMining now m else m)
        (minings db).
Proof.
  unfold toggleMining, try_catch, bind, User_findById, Mining_cancelActive.
  destruct (findUser db uid); reflexivity.
Qed.

(** C5.  Switching mining on for an account none of whose jobs is in
    [mining] status appends exactly the nine jobs of [startedMinings]: USD,
    EUR, GBP, CNY and NGN with target 1000, BTC with target 1, TRX, TON and
    ETH with target 100, all in [mining] status.  Switching it on while some
    job of the account is in [mining] status changes nothing.  Switching it
    off sets every job of the account that is in [mining] status to
    [cancelled] with [endTime] stamped, and leaves every other job as it
    was. *)
Theorem toggleMining_jobs now uid db :
  (activeMiningOf uid db = [] ->
   minings (fst (toggleMining now uid true db))
   = minings db ++ startedMinings now uid (nextId db)
   /\ List.length (startedMinings now uid (nextId db)) = 9%nat
   /\ map (fun m => (m_currency m, m_targetAmount m, m_status m))
          (startedMinings now uid (nextId db))
      = [ (USD, Q2Qc 1000, st_mining); (EUR, Q2Qc 1000, st_mining);
          (GBP, Q2Qc 1000, st_mining); (CNY, Q2Qc 1000, st_mining);
          (NGN, Q2Qc 1000, st_mining); (BTC, Q2Qc 1, st_mining);
          (TRX, Q2Qc 100, st_mining); (TON, Q2Qc 100, st_mining);
          (ETH, Q2Qc 100, st_mining) ]
   /\ Forall (fun m => m_user m = uid) (startedMinings now uid (nextId db)))
  /\ (activeMiningOf uid db <> [] ->
      fst (toggleMining now uid true db) = db)
  /\ (let after := minings (fst (toggleMining now uid false db)) in
      after = map (fun m => if (m_user m =? uid) && is_mining (m_status m)
                            then cancelMining now m else m)
                  (minings db)
      /\ forall m, In m (minings db) ->
           (m_user m = uid -> m_status m = st_mining ->
            In (cancelMining now m) after
            /\ m_status (cancelMining now m) = st_cancelled
            /\ m_endTime (cancelMining now m) = Some now)
           /\ (m_user m <> uid \/ m_status m <> st_mining -> In m after)).
Proof.
  split; [|split].
  - intros H. split; [now apply toggleMining_on_idle|].
    split; [reflexivity|]. split; [reflexivity|].
    unfold startedMinings. repeat (constructor; [reflexivity|]). constructor.
  - intros H. now rewrite toggleMining_on_busy.
  - cbv zeta. rewrite toggleMining_off. split; [reflexivity|].
    intros m Hin. split.
    + intros Hu Hs. split; [|split; reflexivity].
      apply in_map_iff. exists m. split; [|assumption].
      rewrite Hu, Nat.eqb_refl, Hs. reflexivity.
    + intros Hor. apply in_map_iff. exists m. split; [|assumption].
      destruct Hor as [Hu|Hs].
      * apply Nat.eqb_neq in Hu. now rewrite Hu.
      * destruct (m_status m); try congruence; now rewrite andb_false_r.
Qed.

(** ** Collections keyed by id *)

Lemma find_unique_id (l : list User) uid u r :
  NoDup (map _id l) ->
  find (fun x => _id x =? uid) l = Some u ->
  In r l -> _id r = uid -> r = u.
Proof.
  induction l as [|a l IH]; intros Hnd Hf Hin Hid; [contradiction|].
  inversion Hnd as [|? ? Hnotin Hnd']; subst. cbn [find] in Hf.
  destruct (_id a =? _id r) eqn:E.
  - injection Hf as <-. destruct Hin as [->|Hin]; [reflexivity|].
    exfalso. apply Hnotin. apply Nat.eqb_eq in E. rewrite E.
    now apply in_map.
  - destruct Hin as [->|Hin]; [now rewrite Nat.eqb_refl in E|].
    now apply IH.
Qed.

(** Filtering a collection keeps its keys distinct. *)
Lemma NoDup_keys_filter {A} (key : A -> nat) (keep : A -> bool) :
  forall docs, NoDup (map key docs) -> NoDup (map key (filter keep docs)).
Proof.
  intros docs. induction docs as [|d docs IH]; cbn [filter map]; intros Hnd.
  - exact Hnd.
  - apply NoDup_cons_iff in Hnd. destruct Hnd as [Hfresh Hrest].
    destruct (keep d); cbn [map]; [|exact (IH Hrest)].
    apply NoDup_cons_iff. split; [|exact (IH Hrest)].
    intros Hin. apply Hfresh. apply in_map_iff in Hin.
    destruct Hin as (d' & Hkey & Hd'). apply filter_In in Hd'.
    rewrite <- Hkey. apply in_map. exact (proj1 Hd').
Qed.


(** ** Trading cycle *)

Section TradingCycle.

(** The random stream read by the cycle; [Math.random()] returns a value
    in [[0, 1)]. *)
Variable rnd : nat -> Qc.
Hypothesis rnd_range : forall n, 0 <= rnd n /\ rnd n < 1.

Lemma tradedUser_id k r : _id (tradedUser rnd k r) = _id r.
Proof. unfold tradedUser. destruct (Qcltb _ _); reflexivity. Qed.

(** The users collection after one iteration of the trading loop. *)
Lemma tradeUser_users r db k :
  users (fst (tradeUser rnd r (db, k))) = users db
  \/ (0 < capital (trading r)
      /\ users (fst (tradeUser rnd r (db, k)))
         = updateOne (fun x => _id x =? _id r) (fun _ => tradedUser rnd k r)
             (users db)).
Proof.
  unfold tradeUser.
  destruct (Qcleb (capital (trading r)) 0) eqn:Hc; [left; reflexivity|].
  apply Qcleb_false in Hc.
  cbv zeta. cbn [fst].
  unfold try_catch, bind, User_save.
  match goal with
  | |- context [validateUser ?u] =>
      replace u with (tradedUser rnd k r)
        by (unfold tradedUser; destruct (Qcltb (Q2Qc 0.35) (rnd k)); reflexivity)
  end.
  rewrite !tradedUser_id.
  destruct (validateUser _) eqn:Hv; [|left; reflexivity].
  right. split; [assumption|].
  unfold Transaction_create.
  destruct (negb (validateTransaction _)); [reflexivity|].
  cbn [reference_taken t_reference t_doc].
  unfold AuditLog_createLog, Notification_create, ret.
  destruct (_ && _); reflexivity.
Qed.

Lemma tradeUser_findUser r db k uid :
  (uid <> _id r ->
   findUser (fst (tradeUser rnd r (db, k))) uid = findUser db uid)
  /\ (uid = _id r ->
      findUser (fst (tradeUser rnd r (db, k))) uid = findUser db uid
      \/ (0 < capital (trading r)
          /\ findUser (fst (tradeUser rnd r (db, k))) uid
             = Some (tradedUser rnd k r))).
Proof.
  unfold findUser.
  destruct (tradeUser_users r db k) as [E | [Hc E]]; rewrite E.
  - split; intros _; [reflexivity | left; reflexivity].
  - split.
    + intros Hne.
      apply (find_updateOne_other _id);
        [congruence | intros; apply tradedUser_id].
    + intros ->.
      rewrite (find_updateOne_key _id) by apply tradedUser_id.
      destruct (find _ (users db));
        [right; split; [assumption|reflexivity] | left; reflexivity].
Qed.

(** The stored document of [uid] after the loop over the snapshot [l]. *)
Lemma fold_tradeUser_findUser l :
  NoDup (map _id l) ->
  forall db k uid,
    let db' := fst (fold_left (fun st r => tradeUser rnd r st) l (db, k)) in
    findUser db' uid = findUser db uid
    \/ exists r j,
         In r l /\ _id r = uid /\ 0 < capital (trading r)
         /\ findUser db' uid = Some (tradedUser rnd j r).
Proof.
  induction l as [|r l IH]; intros Hnd db k uid; [left; reflexivity|].
  inversion Hnd as [|? ? Hnotin Hnd']; subst.
  cbn [fold_left].
  destruct (tradeUser rnd r (db, k)) as [db1 k1] eqn:E1.
  assert (Hdb1 : db1 = fst (tradeUser rnd r (db, k))) by now rewrite E1.
  destruct (Nat.eq_dec uid (_id r)) as [Heq|Hne].
  - (* [uid] is this iteration's account; later iterations leave it alone *)
    assert (Hlater : forall l' db2 k2,
               ~ In uid (map _id l') ->
               findUser (fst (fold_left (fun st r => tradeUser rnd r st) l' (db2, k2))) uid
               = findUser db2 uid).
    { induction l' as [|r' l' IH']; intros db2 k2 Hn; [reflexivity|].
      cbn [fold_left].
      destruct (tradeUser rnd r' (db2, k2)) as [db3 k3] eqn:E3.
      rewrite IH' by (intro; apply Hn; right; assumption).
      replace db3 with (fst (tradeUser rnd r' (db2, k2))) by now rewrite E3.
      apply tradeUser_findUser. intro. apply Hn. left. congruence. }
    cbv zeta. rewrite Hlater by (rewrite Heq; assumption).
    rewrite Hdb1.
    destruct (proj2 (tradeUser_findUser r db k uid) Heq) as [H | [Hc H]].
    + left. exact H.
    + right. exists r, k. repeat split; auto. left; reflexivity.
  - destruct (IH Hnd' db1 k1 uid) as [H | (r' & j & Hin & Hid & Hc & H)].
    + left. cbv zeta in *. rewrite H, Hdb1.
      now apply tradeUser_findUser.
    + right. exists r', j. repeat split; auto. right; assumption.
Qed.

End TradingCycle.

(** C5 on an account without jobs: the first switch-on creates the nine
    jobs, a second switch-on changes nothing, and a switch-off leaves no job
    in [mining] status. *)
Lemma toggleMining_jobs_witness :
  let db1 := fst (toggleMining 0 1 true db_alice) in
  activeMiningOf 1 db_alice = []
  /\ minings db1 = startedMinings 0 1 10
  /\ activeMiningOf 1 db1 <> []
  /\ fst (toggleMining 5 1 true db1) = db1
  /\ minings (fst (toggleMining 7 1 false db1))
     = map (cancelMining 7) (startedMinings 0 1 10).
Proof.
  intros db1.
  pose proof (toggleMining_jobs 0 1 db_alice) as (Hon & _ & _).
  pose proof (toggleMining_jobs 5 1 db1) as (_ & Hbusy & _).
  pose proof (toggleMining_jobs 7 1 db1) as (_ & _ & Hoff & _).
  split; [reflexivity|].
  split; [exact (proj1 (Hon eq_refl))|].
  assert (Hactive : activeMiningOf 1 db1 <> []) by discriminate.
  split; [exact Hactive|].
  split; [exact (Hbusy Hactive)|].
  rewrite Hoff. reflexivity.
Defined.

(** ** Completion sweep *)

Lemma validateMining_complete now tid m :
  validateMining (completeMining now tid m) = true.
Proof. reflexivity. Qed.

(** The three ways one iteration of the sweep can end. *)
Lemma processMiningJob_cases now m db :
  processMiningJob now m db = db
  \/ exists u,
       findUser db (m_user m) = Some u
       /\ status u = active
       /\ validateUser (creditedUser u (m_currency m) (m_targetAmount m)) = true
       /\ (m_targetAmount m < 0
           /\ processMiningJob now m db =
              with_users
                (updateOne (fun x => _id x =? m_user m)
                   (fun _ => creditedUser u (m_currency m) (m_targetAmount m))
                   (users db)) db
           \/ 0 <= m_targetAmount m
              /\ processMiningJob now m db =
                 {| users :=
                      updateOne (fun x => _id x =? m_user m)
                        (fun _ => creditedUser u (m_currency m) (m_targetAmount m))
                        (users db);
                    minings :=
                      updateOne (fun x => m_id x =? m_id m)
                        (setAssigned (completeMining now (nextId db) m))
                        (minings db)
                      ++ [newMining now (S (nextId db)) (m_user m) (m_currency m)
                            (m_type m) (m_targetAmount m)];
                    transactions :=
                      transactions db
                      ++ [{| t_id := nextId db; t_doc := rewardDoc m |}];
                    notifications :=
                      notifications db
                      ++ [{| n_user := m_user m; n_type := nt_mining;
                             n_title := "Mining Completed";
                             n_priority := pr_normal |}];
                    auditLogs :=
                      auditLogs db
                      ++ [{| a_user := m_user m; a_action := aa_mining_complete;
                             a_entityType := Some et_mining;
                             a_entityId := Some (m_id m) |}];
                    nextId := S (S (nextId db)) |}).
Proof.
  unfold processMiningJob, try_catch, bind, User_findById.
  destruct (findUser db (m_user m)) as [u|] eqn:Hf; [|left; reflexivity].
  pose proof (findUser_id _ _ _ Hf) as Hid.
  unfold User_save.
  change {| _id := _id u;
            balances := set_balance (balances u) (m_currency m)
                          (get_balance (balances u) (m_currency m) + m_targetAmount m);
            trading := trading u; status := status u |}
    with (creditedUser u (m_currency m) (m_targetAmount m)).
  destruct (UserStatus_eqb (status u) active) eqn:Hs; cbn [negb];
    [|left; reflexivity].
  assert (Hact : status u = active) by (destruct (status u); auto; discriminate).
  destruct (validateUser _) eqn:Hv; [|left; reflexivity].
  right. exists u. split; [reflexivity|]. split; [assumption|].
  split; [exact Hv|].
  unfold Transaction_create, validateTransaction.
  cbn [t_currency t_amount t_convertedAmount t_reference reference_taken andb].
  destruct (Qcleb 0 (m_targetAmount m)) eqn:Ht; cbn [negb andb].
  - right. apply Qcleb_true in Ht. split; [assumption|].
    unfold Mining_save. rewrite validateMining_complete.
    unfold Notification_create, AuditLog_createLog, Mining_createMiningOperation, ret.
    cbn [fst with_users with_minings users minings transactions notifications auditLogs nextId _id t_id m_id completeMining creditedUser].
    rewrite Hid. unfold rewardDoc. reflexivity.
  - left. apply Qcleb_false in Ht. split; [assumption|].
    cbn [fst creditedUser _id]. rewrite Hid. reflexivity.
Qed.

(** ** Lists updated in place *)

Lemma find_app_l {A} (p : A -> bool) (l1 l2 : list A) x :
  find p l1 = Some x -> find p (l1 ++ l2) = Some x.
Proof.
  induction l1 as [|a l1 IH]; cbn [find app]; [discriminate|].
  destruct (p a); auto.
Qed.

Lemma find_updateOne_hit {A} (sel : A -> bool) (f : A -> A) (l : list A) x :
  find sel l = Some x -> sel (f x) = true ->
  find sel (updateOne sel f l) = Some (f x).
Proof.
  induction l as [|a l IH]; cbn [find updateOne]; [discriminate|].
  destruct (sel a) eqn:E.
  - intros [= ->] Hf. cbn [find]. now rewrite Hf.
  - intros Hx Hf. cbn [find]. rewrite E. auto.
Qed.

Lemma filter_updateOne_keep {A} (sel P : A -> bool) (f : A -> A) (l : list A) x :
  find sel l = Some x -> P x = false -> P (f x) = false ->
  filter P (updateOne sel f l) = filter P l.
Proof.
  induction l as [|a l IH]; cbn [find updateOne]; [discriminate|].
  destruct (sel a) eqn:E.
  - intros [= ->] Hx Hfx. cbn [filter]. now rewrite Hx, Hfx.
  - intros Hf Hx Hfx. cbn [filter]. rewrite (IH Hf Hx Hfx). reflexivity.
Qed.

Lemma filter_updateOne_drop {A} (sel P : A -> bool) (f : A -> A) (l : list A) x :
  filter P l = [x] -> find sel l = Some x -> P (f x) = false ->
  filter P (updateOne sel f l) = [].
Proof.
  induction l as [|a l IH]; [discriminate|].
  intros HP Hsel Hfx. pose proof (find_some _ _ Hsel) as [_ Hsx].
  cbn [find updateOne filter] in *.
  destruct (sel a) eqn:E.
  - injection Hsel as ->. cbn [filter]. rewrite Hfx.
    destruct (P x) eqn:Px; [now injection HP|].
    exfalso. assert (Hin : In x (filter P l)) by (rewrite HP; left; reflexivity).
    apply filter_In in Hin. destruct Hin as [_ Hin]. congruence.
  - cbn [filter]. destruct (P a).
    + injection HP as -> _. congruence.
    + now apply IH.
Qed.

Lemma find_by_id_unique {A} (key : A -> nat) (l : list A) x :
  NoDup (map key l) -> In x l -> find (fun y => key y =? key x) l = Some x.
Proof.
  induction l as [|a l IH]; intros Hnd Hin; [contradiction|].
  inversion Hnd as [|? ? Hnotin Hnd']; subst. cbn [find].
  destruct Hin as [->|Hin]; [now rewrite Nat.eqb_refl|].
  destruct (key a =? key x) eqn:E; [|now apply IH].
  exfalso. apply Hnotin. apply Nat.eqb_eq in E. rewrite E. now apply in_map.
Qed.

Lemma filter_singleton {A} (P : A -> bool) (l : list A) x :
  NoDup l -> In x l -> P x = true ->
  (forall y, In y l -> P y = true -> y = x) ->
  filter P l = [x].
Proof.
  induction l as [|a l IH]; intros Hnd Hin Hx Huniq; [contradiction|].
  inversion Hnd as [|? ? Hnotin Hnd']; subst. cbn [filter].
  destruct (P a) eqn:E.
  - assert (a = x) by (apply Huniq; [left; reflexivity | exact E]). subst a.
    f_equal. destruct (filter P l) as [|y l'] eqn:F; [reflexivity|].
    exfalso. assert (Hy : In y (filter P l)) by (rewrite F; left; reflexivity).
    apply filter_In in Hy. destruct Hy as [Hy HPy].
    assert (y = x) by (apply Huniq; [right; exact Hy | exact HPy]). subst y.
    contradiction.
  - destruct Hin as [->|Hin]; [congruence|].
    apply IH; auto. intros y Hy. apply Huniq. right. exact Hy.
Qed.

Lemma NoDup_of_map {A B} (f : A -> B) (l : list A) :
  NoDup (map f l) -> NoDup l.
Proof.
  induction l as [|a l IH]; intros Hnd; [constructor|].
  inversion Hnd as [|? ? Hnotin Hnd']; subst. constructor; [|now apply IH].
  intros Hin. apply Hnotin. now apply in_map.
Qed.

(** ** One iteration of the sweep, seen from another job *)

(** ** Sweeps running alone and overlapping *)

(** ** Non-negative balances *)

Lemma users_checked_refl db : users_checked db db.
Proof. intros u Hu. left. exact Hu. Qed.

Lemma users_checked_trans db1 db2 db3 :
  users_checked db1 db2 -> users_checked db2 db3 -> users_checked db1 db3.
Proof.
  intros H12 H23 u Hu. destruct (H23 u Hu) as [H|H]; [apply H12; exact H | right; exact H].
Qed.

Lemma users_checked_same db db' : users db' = users db -> users_checked db db'.
Proof. intros E u Hu. left. rewrite <- E. exact Hu. Qed.

Lemma In_updateOne {A} (sel : A -> bool) (f : A -> A) (l : list A) x :
  In x (updateOne sel f l) -> In x l \/ exists y, In y l /\ x = f y.
Proof.
  induction l as [|a l IH]; cbn [updateOne]; [intros []|].
  destruct (sel a).
  - intros [<-|H]; [right; exists a; split; [left|]; reflexivity | left; right; exact H].
  - intros [<-|H]; [left; left; reflexivity|].
    destruct (IH H) as [H'|(y & Hy & E)]; [left; right; exact H'|].
    right. exists y. split; [right; exact Hy | exact E].
Qed.

Lemma checked_ret {A} (a : A) : checkedM (ret a).
Proof. intros db. apply users_checked_refl. Qed.

Lemma checked_throw {A} e : checkedM (@throw A e).
Proof. intros db. apply users_checked_refl. Qed.

Lemma checked_bind {A B} (c : M A) (k : A -> M B) :
  checkedM c -> (forall a, checkedM (k a)) -> checkedM (bind c k).
Proof.
  intros Hc Hk db. unfold bind. specialize (Hc db).
  destruct (c db) as [db1 [a|e]]; cbn [fst] in *; [|exact Hc].
  eapply users_checked_trans; [exact Hc | apply Hk].
Qed.

Lemma checked_nonnull {A} (o : option A) : checkedM (nonnull o).
Proof. destruct o; [apply checked_ret | apply checked_throw]. Qed.

Lemma checked_findById id : checkedM (User_findById id).
Proof. intros db. apply users_checked_refl. Qed.

Lemma checked_save u : checkedM (User_save u).
Proof.
  intros db. unfold User_save.
  destruct (validateUser u) eqn:Hv; [|apply users_checked_refl].
  intros x Hx. cbn [fst users with_users] in Hx.
  apply In_updateOne in Hx. destruct Hx as [Hx|(y & _ & ->)]; [left; exact Hx | right; exact Hv].
Qed.

Lemma checked_Transaction_create d : checkedM (Transaction_create d).
Proof.
  intros db. unfold Transaction_create.
  destruct (negb _); [apply users_checked_refl|].
  destruct (reference_taken _ _); [apply users_checked_refl|].
  now apply users_checked_same.
Qed.

Lemma checked_Notification_create n : checkedM (Notification_create n).
Proof. intros db. now apply users_checked_same. Qed.

Lemma checked_AuditLog_createLog a : checkedM (AuditLog_createLog a).
Proof. intros db. now apply users_checked_same. Qed.

Lemma checked_Mining_create now uid c ty t :
  checkedM (Mining_createMiningOperation now uid c ty t).
Proof. intros db. now apply users_checked_same. Qed.

Lemma checked_Mining_save m : checkedM (Mining_save m).
Proof.
  intros db. unfold Mining_save.
  destruct (validateMining m); [now apply users_checked_same | apply users_checked_refl].
Qed.

Lemma checked_Mining_getUserActiveMining uid : checkedM (Mining_getUserActiveMining uid).
Proof. intros db. apply users_checked_refl. Qed.

Lemma checked_Mining_cancelActive now uid : checkedM (Mining_cancelActive now uid).
Proof. intros db. now apply users_checked_same. Qed.

Lemma checked_for_each {A} (xs : list A) (body : A -> M unit) :
  (forall x, checkedM (body x)) -> checkedM (for_each xs body).
Proof.
  intros H. induction xs as [|x xs IH]; cbn [for_each]; [apply checked_ret|].
  apply checked_bind; [apply H | intros _; exact IH].
Qed.

Lemma checked_try_catch {A} (c : M A) (h : Error -> A) db :
  checkedM c -> users_checked db (fst (try_catch c h db)).
Proof.
  intros Hc. unfold try_catch. specialize (Hc db).
  destruct (c db) as [db1 [a|e]]; exact Hc.
Qed.

(** Discharge [checkedM] for a handler body built from the store
    operations, following its syntax. *)
Ltac checked_step :=
  lazymatch goal with
  | |- checkedM (ret _) => apply checked_ret
  | |- checkedM (throw _) => apply checked_throw
  | |- checkedM (nonnull _) => apply checked_nonnull
  | |- checkedM (User_findById _) => apply checked_findById
  | |- checkedM (User_save _) => apply checked_save
  | |- checkedM (Transaction_create _) => apply checked_Transaction_create
  | |- checkedM (Notification_create _) => apply checked_Notification_create
  | |- checkedM (AuditLog_createLog _) => apply checked_AuditLog_createLog
  | |- checkedM (Mining_createMiningOperation _ _ _ _ _) =>
      apply checked_Mining_create
  | |- checkedM (Mining_save _) => apply checked_Mining_save
  | |- checkedM (Mining_getUserActiveMining _) =>
      apply checked_Mining_getUserActiveMining
  | |- checkedM (Mining_cancelActive _ _) => apply checked_Mining_cancelActive
  | |- checkedM (for_each _ _) => apply checked_for_each; intros
  | |- checkedM (bind _ _) => apply checked_bind; [|intros]
  | |- checkedM (if ?b then _ else _) => destruct b
  | |- checkedM (match ?o with Some _ => _ | None => _ end) => destruct o
  | |- checkedM (let _ := _ in _) => cbv zeta
  end.

Ltac checked := repeat checked_step.

Lemma send_checked uid body db : users_checked db (fst (send uid body db)).
Proof. apply checked_try_catch. cbv zeta. checked. Qed.

Lemma receive_checked uid body db : users_checked db (fst (receive uid body db)).
Proof. apply checked_try_catch. cbv zeta. checked. Qed.

Lemma transfer_checked uid body db : users_checked db (fst (transfer uid body db)).
Proof. apply checked_try_catch. cbv zeta. checked. Qed.

Lemma international_checked uid body db :
  users_checked db (fst (international uid body db)).
Proof. apply checked_try_catch. cbv zeta. checked. Qed.

Lemma sendCrypto_checked uid body db :
  users_checked db (fst (sendCrypto uid body db)).
Proof. apply checked_try_catch. cbv zeta. checked. Qed.

Lemma withdrawProfit_checked uid db : users_checked db (fst (withdrawProfit uid db)).
Proof. apply checked_try_catch. checked. Qed.

Lemma toggleTrading_checked uid enabled db :
  users_checked db (fst (toggleTrading uid enabled db)).
Proof. apply checked_try_catch. checked. Qed.

Lemma toggleMining_checked now uid enabled db :
  users_checked db (fst (toggleMining now uid enabled db)).
Proof. apply checked_try_catch. checked. Qed.

Lemma processMiningJob_checked now m db :
  users_checked db (processMiningJob now m db).
Proof. unfold processMiningJob. apply checked_try_catch. checked. Qed.

Lemma processMiningCycles_checked now db :
  users_checked db (processMiningCycles now db).
Proof.
  unfold processMiningCycles, processMiningJobs.
  generalize (Mining_findActive db) as l. intros l. revert db.
  induction l as [|m l IH]; intros db; cbn [fold_left]; [apply users_checked_refl|].
  eapply users_checked_trans; [apply processMiningJob_checked | apply IH].
Qed.

Lemma tradeUser_checked rnd r db k :
  users_checked db (fst (tradeUser rnd r (db, k))).
Proof.
  unfold tradeUser. destruct (Qcleb _ _); [apply users_checked_refl|].
  cbv zeta. cbn [fst]. apply checked_try_catch. checked.
Qed.

Lemma executeTradingRobots_checked rnd k db :
  users_checked db (fst (executeTradingRobots rnd k db)).
Proof.
  unfold executeTradingRobots.
  generalize (User_findRobots db) as l. intros l. revert db k.
  induction l as [|r l IH]; intros db k; cbn [fold_left]; [apply users_checked_refl|].
  destruct (tradeUser rnd r (db, k)) as [db1 k1] eqn:E.
  eapply users_checked_trans; [|apply IH].
  replace db1 with (fst (tradeUser rnd r (db, k))) by now rewrite E.
  apply tradeUser_checked.
Qed.

Lemma apply_op_checked db op : users_checked db (apply_op db op).
Proof.
  destruct op; cbn [apply_op].
  - apply send_checked.
  - apply receive_checked.
  - apply transfer_checked.
  - apply sendCrypto_checked.
  - apply international_checked.
  - apply processMiningCycles_checked.
  - apply executeTradingRobots_checked.
  - apply withdrawProfit_checked.
  - apply toggleMining_checked.
  - apply toggleTrading_checked.
Qed.

Lemma nonneg_balances_checked db db' :
  nonneg_balances db -> users_checked db db' -> nonneg_balances db'.
Proof.
  intros Hn Hc u Hu c. destruct (Hc u Hu) as [H|H].
  - now apply Hn.
  - apply validateUser_spec in H. apply H.
Qed.

(** C1.  Starting from a store in which every currency balance of every
    account is non-negative, after each operation of any sequence of send,
    receive, conversion, crypto send, international transfer, completion
    sweep, trading cycle, profit withdrawal and the two toggles, every
    currency balance of every account is still non-negative.  The user
    collection is only ever written by [user.save()], which runs the
    [min: 0] validators. *)
Theorem balances_stay_nonnegative ops db :
  nonneg_balances db ->
  forall n, nonneg_balances (run_ops (firstn n ops) db).
Proof.
  intros Hn n. unfold run_ops. revert db Hn n.
  induction ops as [|op ops IH]; intros db Hn n.
  - rewrite firstn_nil. exact Hn.
  - destruct n as [|n]; [exact Hn|]. cbn [firstn fold_left].
    apply IH. eapply nonneg_balances_checked; [exact Hn | apply apply_op_checked].
Qed.


(** C1 along a sequence of five operations on an account with 100 USD and
    a trading profit of 25. *)
Lemma balances_stay_nonnegative_witness :
  nonneg_balances db_bob
  /\ nonneg_balances (run_ops (firstn 5 sample_ops) db_bob)
  /\ exists u', findUser (run_ops sample_ops db_bob) 2 = Some u'
                /\ get_balance (balances u') USD = Q2Qc 85.
Proof.
  assert (Hn : nonneg_balances db_bob).
  { intros u [<-|[]] c. destruct c; discriminate. }
  split; [exact Hn|]. split.
  - exact (balances_stay_nonnegative sample_ops db_bob Hn 5).
  - eexists. split; [vm_compute; reflexivity|]. apply Qc_is_canon. vm_compute. reflexivity.
Defined.

(** * Further properties *)

(** ** What every operation respects

    Every operation is built from the same few store operations.  A
    reflexive and transitive relation between the store before and the store
    after that each of them respects is therefore respected by every
    operation. *)

Section Respects.

Variable R : DB -> DB -> Prop.
Hypothesis R_refl : forall db, R db db.
Hypothesis R_trans : forall db1 db2 db3, R db1 db2 -> R db2 db3 -> R db1 db3.

Local Abbreviation respectsM := (respectsM R).

Hypothesis R_save : forall u, respectsM (User_save u).
Hypothesis R_Transaction_create : forall d, respectsM (Transaction_create d).
Hypothesis R_Notification_create : forall n, respectsM (Notification_create n).
Hypothesis R_AuditLog_createLog : forall a, respectsM (AuditLog_createLog a).
Hypothesis R_Mining_create :
  forall now uid c ty t, respectsM (Mining_createMiningOperation now uid c ty t).
Hypothesis R_Mining_save : forall m, respectsM (Mining_save m).
Hypothesis R_Mining_cancelActive :
  forall now uid, respectsM (Mining_cancelActive now uid).

Lemma respects_ret {A} (a : A) : respectsM (ret a).
Proof. intros db. apply R_refl. Qed.

Lemma respects_throw {A} e : respectsM (@throw A e).
Proof. intros db. apply R_refl. Qed.

Lemma respects_bind {A B} (c : M A) (k : A -> M B) :
  respectsM c -> (forall a, respectsM (k a)) -> respectsM (bind c k).
Proof.
  intros Hc Hk db. unfold bind. specialize (Hc db).
  destruct (c db) as [db1 [a|e]]; cbn [fst] in *; [|exact Hc].
  eapply R_trans; [exact Hc | apply Hk].
Qed.

Lemma respects_nonnull {A} (o : option A) : respectsM (nonnull o).
Proof. destruct o; [apply respects_ret | apply respects_throw]. Qed.

Lemma respects_findById id : respectsM (User_findById id).
Proof. intros db. apply R_refl. Qed.

Lemma respects_getUserActiveMining uid :
  respectsM (Mining_getUserActiveMining uid).
Proof. intros db. apply R_refl. Qed.

Lemma respects_for_each {A} (xs : list A) (body : A -> M unit) :
  (forall x, respectsM (body x)) -> respectsM (for_each xs body).
Proof.
  intros H. induction xs as [|x xs IH]; cbn [for_each]; [apply respects_ret|].
  apply respects_bind; [apply H | intros _; exact IH].
Qed.

Lemma respects_try_catch {A} (c : M A) (h : Error -> A) db :
  respectsM c -> R db (fst (try_catch c h db)).
Proof.
  intros Hc. unfold try_catch. specialize (Hc db).
  destruct (c db) as [db1 [a|e]]; exact Hc.
Qed.

Ltac respects_step :=
  lazymatch goal with
  | |- respectsM (ret _) => apply respects_ret
  | |- respectsM (throw _) => apply respects_throw
  | |- respectsM (nonnull _) => apply respects_nonnull
  | |- respectsM (User_findById _) => apply respects_findById
  | |- respectsM (User_save _) => apply R_save
  | |- respectsM (Transaction_create _) => apply R_Transaction_create
  | |- respectsM (Notification_create _) => apply R_Notification_create
  | |- respectsM (AuditLog_createLog _) => apply R_AuditLog_createLog
  | |- respectsM (Mining_createMiningOperation _ _ _ _ _) => apply R_Mining_create
  | |- respectsM (Mining_save _) => apply R_Mining_save
  | |- respectsM (Mining_getUserActiveMining _) =>
      apply respects_getUserActiveMining
  | |- respectsM (Mining_cancelActive _ _) => apply R_Mining_cancelActive
  | |- respectsM (for_each _ _) => apply respects_for_each; intros
  | |- respectsM (bind _ _) => apply respects_bind; [|intros]
  | |- respectsM (if ?b then _ else _) => destruct b
  | |- respectsM (match ?o with Some _ => _ | None => _ end) => destruct o
  | |- respectsM (let _ := _ in _) => cbv zeta
  end.

Ltac respects := repeat respects_step.

Lemma processMiningJob_respects now m db : R db (processMiningJob now m db).
Proof. unfold processMiningJob. apply respects_try_catch. respects. Qed.

Lemma processMiningJobs_respects now l : forall db, R db (processMiningJobs now l db).
Proof.
  unfold processMiningJobs.
  induction l as [|m l IH]; intros db; cbn [fold_left]; [apply R_refl|].
  eapply R_trans; [apply processMiningJob_respects | apply IH].
Qed.

Lemma tradeUser_respects rnd r db k : R db (fst (tradeUser rnd r (db, k))).
Proof.
  unfold tradeUser. destruct (Qcleb _ _); [apply R_refl|].
  cbv zeta. cbn [fst]. apply respects_try_catch. respects.
Qed.

Lemma executeTradingRobots_respects rnd k db :
  R db (fst (executeTradingRobots rnd k db)).
Proof.
  unfold executeTradingRobots.
  generalize (User_findRobots db) as l. intros l. revert db k.
  induction l as [|r l IH]; intros db k; cbn [fold_left]; [apply R_refl|].
  destruct (tradeUser rnd r (db, k)) as [db1 k1] eqn:E.
  eapply R_trans; [|apply IH].
  replace db1 with (fst (tradeUser rnd r (db, k))) by now rewrite E.
  apply tradeUser_respects.
Qed.

Lemma apply_op_respects db op : R db (apply_op db op).
Proof.
  destruct op; cbn [apply_op].
  - apply respects_try_catch. cbv zeta. respects.
  - apply respects_try_catch. cbv zeta. respects.
  - apply respects_try_catch. cbv zeta. respects.
  - apply respects_try_catch. cbv zeta. respects.
  - apply respects_try_catch. cbv zeta. respects.
  - unfold processMiningCycles. apply processMiningJobs_respects.
  - apply executeTradingRobots_respects.
  - apply respects_try_catch. respects.
  - apply respects_try_catch. respects.
  - apply respects_try_catch. respects.
Qed.

Lemma run_ops_respects ops : forall db, R db (run_ops ops db).
Proof.
  unfold run_ops. induction ops as [|op ops IH]; intros db; cbn [fold_left].
  - apply R_refl.
  - eapply R_trans; [apply apply_op_respects | apply IH].
Qed.

End Respects.

(** ** Logs, accounts and jobs across operations *)

Lemma extends_refl {A} (l : list A) : extends l l.
Proof. exists []. now rewrite app_nil_r. Qed.

Lemma extends_trans {A} (l1 l2 l3 : list A) :
  extends l1 l2 -> extends l2 l3 -> extends l1 l3.
Proof.
  intros [m1 ->] [m2 ->]. exists (m1 ++ m2). now rewrite app_assoc.
Qed.

Lemma extends_app {A} (l more : list A) : extends l (l ++ more).
Proof. now exists more. Qed.

Lemma map_updateOne_same {A B} (key : A -> B) (sel : A -> bool) (f : A -> A) l :
  (forall x, sel x = true -> key (f x) = key x) ->
  map key (updateOne sel f l) = map key l.
Proof.
  intros H. induction l as [|a l IH]; cbn [updateOne map]; [reflexivity|].
  destruct (sel a) eqn:E; cbn [map]; [now rewrite H | now rewrite IH].
Qed.

(** X2.  No operation creates or removes an account: the accounts of the
    store, by [_id] and in order, are the same after any sequence of
    operations. *)
Theorem accounts_are_stable ops db : same_accounts db (run_ops ops db).
Proof.
  apply (run_ops_respects same_accounts).
  - intros db0. reflexivity.
  - unfold same_accounts. intros db1 db2 db3 H12 H23. now rewrite H23.
  - intros u db0. unfold User_save, same_accounts.
    destruct (validateUser u); [|reflexivity].
    cbn [fst users with_users]. apply map_updateOne_same.
    intros x Hx. apply Nat.eqb_eq in Hx. now symmetry.
  - intros d db0. unfold Transaction_create, same_accounts.
    destruct (negb _); [reflexivity|].
    destruct (reference_taken _ _); reflexivity.
  - intros n db0. reflexivity.
  - intros a db0. reflexivity.
  - intros now uid c ty t db0. reflexivity.
  - intros m db0. unfold Mining_save, same_accounts.
    destruct (validateMining m); reflexivity.
  - intros now uid db0. reflexivity.
Qed.

(** X3.  No operation deletes a job or changes its [_id], owner, currency,
    type, target amount or start time: after any sequence of operations the
    jobs that were stored are still there, in place, with the same identity,
    possibly followed by new jobs. *)
Theorem jobs_are_kept ops db : jobs_kept db (run_ops ops db).
Proof.
  apply (run_ops_respects jobs_kept).
  - intros db0. apply extends_refl.
  - intros db1 db2 db3. apply extends_trans.
  - intros u db0. unfold User_save. destruct (validateUser u); apply extends_refl.
  - intros d db0. unfold Transaction_create.
    destruct (negb _); [apply extends_refl|].
    destruct (reference_taken _ _); apply extends_refl.
  - intros n db0. apply extends_refl.
  - intros a db0. apply extends_refl.
  - intros now uid c ty t db0. unfold jobs_kept. cbn [fst minings Mining_createMiningOperation].
    rewrite map_app. apply extends_app.
  - intros m db0. unfold Mining_save, jobs_kept.
    destruct (validateMining m); [|apply extends_refl].
    cbn [fst minings with_minings].
    rewrite map_updateOne_same; [apply extends_refl | reflexivity].
  - intros now uid db0. unfold jobs_kept. cbn [fst minings with_minings Mining_cancelActive].
    rewrite map_map.
    rewrite (map_ext
               (fun m => jobIdentity
                           (if (m_user m =? uid) && is_mining (m_status m)
                            then cancelMining now m else m))
               jobIdentity); [apply extends_refl|].
    intros m. destruct ((m_user m =? uid) && is_mining (m_status m)); reflexivity.
Qed.

(** ** Requests, one at a time *)

(** X7.  A conversion never answers with success and never logs anything:
    the document it hands to [Transaction.create] lacks the required
    [currency], so whenever the guards pass the handler ends in its [catch]
    branch.  Whatever the request, the transaction, notification and audit
    logs are as before. *)
Theorem transfer_never_succeeds db uid body :
  (forall code, snd (transfer uid body db) <> Success code)
  /\ transactions (fst (transfer uid body db)) = transactions db
  /\ notifications (fst (transfer uid body db)) = notifications db
  /\ auditLogs (fst (transfer uid body db)) = auditLogs db.
Proof.
  unfold transfer. run_handler.
  destruct (currency_eqb _ _); [repeat split; discriminate|].
  destruct (findUser db uid) as [user|]; [|repeat split; discriminate].
  cbn. destruct (Qcltb _ _); [repeat split; discriminate|].
  destruct (validateUser _); repeat split; discriminate.
Qed.

(** X9.  After a successful withdrawal of the trading profit, a second
    withdrawal answers [NO_PROFIT] and changes nothing. *)
Theorem withdrawProfit_twice db uid user :
  findUser db uid = Some user ->
  validateUser user = true ->
  0 < profit (trading user) ->
  let db1 := fst (withdrawProfit uid db) in
  withdrawProfit uid db1 = (db1, Failure 400 "NO_PROFIT").
Proof.
  intros Hf Hv Hp db1. subst db1.
  rewrite (withdrawProfit_some _ _ _ Hf Hv Hp). cbn [fst].
  eapply withdrawProfit_none.
  - eapply findUser_after_save;
      [exact Hf | reflexivity | exact (findUser_id _ _ _ Hf)].
  - apply Qcle_refl.
Qed.

Lemma withdrawProfit_twice_witness :
  withdrawProfit 2 (fst (withdrawProfit 2 db_bob))
  = (fst (withdrawProfit 2 db_bob), Failure 400 "NO_PROFIT").
Proof.
  apply (withdrawProfit_twice db_bob 2 bob); reflexivity.
Defined.

Lemma Qceqb_true x y : Qceqb x y = true <-> x = y.
Proof.
  unfold Qceqb. rewrite Qeq_bool_iff. symmetry. apply Qc_eq_Q.
Qed.

(** X11.  Switching the trading robot on or off sets [robotActive] to the
    requested value and touches neither the balances nor the profit.
    Switching it on seeds the capital with 10000 exactly when the capital is
    0; otherwise, and whenever it is switched off, the capital is left as it
    is. *)
Theorem toggleTrading_seeds_capital db uid user enabled :
  findUser db uid = Some user ->
  validateUser user = true ->
  let user' := toggledUser user enabled in
  snd (toggleTrading uid enabled db) = Success 200
  /\ findUser (fst (toggleTrading uid enabled db)) uid = Some user'
  /\ robotActive (trading user') = enabled
  /\ balances user' = balances user
  /\ profit (trading user') = profit (trading user)
  /\ (enabled = true -> capital (trading user) = 0 ->
      capital (trading user') = Q2Qc 10000)
  /\ (enabled = false \/ capital (trading user) <> 0 ->
      capital (trading user') = capital (trading user)).
Proof.
  intros Hf Hv user'.
  pose proof (findUser_id _ _ _ Hf) as Hid. subst uid.
  assert (Hv1 : validateUser
                  {| _id := _id user; balances := balances user;
                     trading := {| capital := capital (trading user);
                                   profit := profit (trading user);
                                   robotActive := enabled |};
                     status := status user |} = true).
  { apply validateUser_spec in Hv. apply validateUser_spec. exact Hv. }
  assert (Hv2 : validateUser
                  {| _id := _id user; balances := balances user;
                     trading := {| capital := Q2Qc 10000;
                                   profit := profit (trading user);
                                   robotActive := enabled |};
                     status := status user |} = true).
  { apply validateUser_spec in Hv. destruct Hv as (Hb & _ & Hp).
    apply validateUser_spec. repeat split; auto. discriminate. }
  split; [|split].
  - unfold toggleTrading. run_handler. rewrite Hf. cbn. rewrite Hv1.
    destruct enabled; [|reflexivity]. cbn.
    destruct (Qceqb (capital (trading user)) 0); [rewrite Hv2|]; reflexivity.
  - unfold toggleTrading. run_handler. rewrite Hf. cbn. rewrite Hv1.
    subst user'. unfold toggledUser.
    destruct enabled; cbn [andb].
    + cbn. destruct (Qceqb (capital (trading user)) 0).
      * rewrite Hv2. cbn [fst]. unfold findUser. cbn [users with_users].
        rewrite (find_updateOne_key _id) by reflexivity.
        rewrite (find_updateOne_key _id) by reflexivity.
        unfold findUser in Hf. rewrite Hf. reflexivity.
      * cbn [fst]. eapply findUser_after_save; [exact Hf | reflexivity | reflexivity].
    + cbn [fst]. eapply findUser_after_save; [exact Hf | reflexivity | reflexivity].
  - subst user'. unfold toggledUser. cbn [trading balances capital profit robotActive].
    repeat split.
    + intros -> H0. apply Qceqb_true in H0. now rewrite H0.
    + intros [-> | Hne]; [reflexivity|].
      destruct (Qceqb (capital (trading user)) 0) eqn:E;
        [apply Qceqb_true in E; contradiction|].
      now rewrite andb_false_r.
Qed.

Lemma toggleTrading_seeds_capital_witness :
  (exists u', findUser (fst (toggleTrading 1 true db_alice)) 1 = Some u'
              /\ capital (trading u') = Q2Qc 10000
              /\ robotActive (trading u') = true)
  /\ (exists u', findUser (fst (toggleTrading 2 false db_bob)) 2 = Some u'
                 /\ capital (trading u') = Q2Qc 10000
                 /\ profit (trading u') = Q2Qc 25
                 /\ robotActive (trading u') = false).
Proof.
  split.
  - destruct (toggleTrading_seeds_capital db_alice 1 alice true eq_refl eq_refl)
      as (_ & Hf & Hr & _ & _ & Hseed & _).
    eexists. split; [exact Hf|]. split; [exact (Hseed eq_refl eq_refl) | exact Hr].
  - destruct (toggleTrading_seeds_capital db_bob 2 bob false eq_refl eq_refl)
      as (_ & Hf & Hr & _ & Hp & _ & Hkeep).
    eexists. split; [exact Hf|]. split; [exact (Hkeep (or_introl eq_refl))|].
    split; [exact Hp | exact Hr].
Defined.

(** ** Requests and the other accounts *)

Ltac other_account Hne :=
  unfold findUser; cbn [fst users with_users];
  rewrite ?(find_updateOne_other _id)
    by first [ intros E; apply Hne; symmetry; exact E | intros; reflexivity ];
  reflexivity.

Ltac open_handler Hf :=
  run_handler;
  match goal with
  | |- context [findUser ?db ?uid] =>
      destruct (findUser db uid) as [?user|] eqn:Hf; [|reflexivity]
  end;
  pose proof (findUser_id _ _ _ Hf); subst; cbn.

Lemma send_other uid uid' body db :
  uid' <> uid -> findUser (fst (send uid body db)) uid' = findUser db uid'.
Proof.
  intros Hne. unfold send. open_handler Hf.
  destruct (Qcltb _ _); [reflexivity|].
  destruct (validateUser _); [|reflexivity]. cbn.
  destruct (negb (validateTransaction _)); cbn;
    [|destruct (reference_taken _ _); cbn];
    other_account Hne.
Qed.

Lemma receive_other uid uid' body db :
  uid' <> uid -> findUser (fst (receive uid body db)) uid' = findUser db uid'.
Proof.
  intros Hne. unfold receive. open_handler Hf.
  destruct (validateUser _); [|reflexivity]. cbn.
  destruct (negb (validateTransaction _)); cbn;
    [|destruct (reference_taken _ _); cbn];
    other_account Hne.
Qed.

Lemma transfer_other uid uid' body db :
  uid' <> uid -> findUser (fst (transfer uid body db)) uid' = findUser db uid'.
Proof.
  intros Hne. unfold transfer. run_handler.
  destruct (currency_eqb _ _); [reflexivity|].
  destruct (findUser db uid) as [user|] eqn:Hf; [|reflexivity].
  pose proof (findUser_id _ _ _ Hf); subst; cbn.
  destruct (Qcltb _ _); [reflexivity|].
  destruct (validateUser _); [|reflexivity]. cbn.
  other_account Hne.
Qed.

Lemma sendCrypto_other uid uid' body db :
  uid' <> uid -> findUser (fst (sendCrypto uid body db)) uid' = findUser db uid'.
Proof.
  intros Hne. unfold sendCrypto. open_handler Hf.
  destruct (Qcltb _ _); [reflexivity|].
  destruct (validateUser _); [|reflexivity]. cbn.
  destruct (negb (validateTransaction _)); cbn; other_account Hne.
Qed.

Lemma international_other uid uid' body db :
  uid' <> uid ->
  findUser (fst (international uid body db)) uid' = findUser db uid'.
Proof.
  intros Hne. unfold international. open_handler Hf.
  destruct (Qcltb _ _); [reflexivity|].
  destruct (validateUser _); [|reflexivity]. cbn.
  destruct (negb (validateTransaction _)); cbn; other_account Hne.
Qed.

Lemma withdrawProfit_other uid uid' db :
  uid' <> uid -> findUser (fst (withdrawProfit uid db)) uid' = findUser db uid'.
Proof.
  intros Hne. unfold withdrawProfit. open_handler Hf.
  destruct (Qcleb _ _); [reflexivity|].
  destruct (validateUser _); [|reflexivity]. cbn.
  destruct (negb (validateTransaction _)); cbn; other_account Hne.
Qed.

Lemma toggleTrading_other uid uid' enabled db :
  uid' <> uid ->
  findUser (fst (toggleTrading uid enabled db)) uid' = findUser db uid'.
Proof.
  intros Hne. unfold toggleTrading. open_handler Hf.
  destruct (validateUser _); [|reflexivity]. cbn.
  destruct enabled; cbn; [|other_account Hne].
  destruct (Qceqb _ _); cbn; [|other_account Hne].
  destruct (validateUser _); cbn; other_account Hne.
Qed.

Lemma toggleMining_users now uid enabled db :
  users (fst (toggleMining now uid enabled db)) = users db.
Proof.
  unfold toggleMining, try_catch, bind, User_findById,
    Mining_getUserActiveMining, Mining_cancelActive.
  destruct enabled.
  - destruct (filter _ _) as [|m l]; [|reflexivity].
    cbv beta iota zeta delta
      [for_each bind Mining_createMiningOperation ret nonnull throw
       AuditLog_createLog fst snd minings nextId users transactions
       notifications auditLogs currency_eqb List.length Nat.eqb].
    destruct (findUser db uid); reflexivity.
  - destruct (findUser db uid); reflexivity.
Qed.

(** X12.  A request made on behalf of one account leaves the document of
    every other account exactly as it was: its balances, its trading state
    and its status. *)
Theorem request_leaves_other_accounts op uid uid' db :
  op_account op = Some uid ->
  uid' <> uid ->
  findUser (apply_op db op) uid' = findUser db uid'.
Proof.
  intros Hop Hne.
  destruct op; cbn [op_account] in Hop; try discriminate;
    injection Hop as ->; cbn [apply_op].
  - now apply send_other.
  - now apply receive_other.
  - now apply transfer_other.
  - now apply sendCrypto_other.
  - now apply international_other.
  - now apply withdrawProfit_other.
  - unfold findUser. now rewrite toggleMining_users.
  - now apply toggleTrading_other.
Qed.

Lemma request_leaves_other_accounts_witness :
  findUser (apply_op db_alice_bob (OpSend 1 (sendUSD (Q2Qc 10) None))) 2
  = Some bob.
Proof.
  etransitivity;
    [apply (request_leaves_other_accounts _ 1 2); [reflexivity | lia]
    | reflexivity].
Defined.

(** ** Crypto send *)

(** ** The trading robot *)

Section TradingRobot.

Variable rnd : nat -> Qc.
Hypothesis rnd_range : forall n, 0 <= rnd n /\ rnd n < 1.

End TradingRobot.

(** ** The reported success rate *)










Lemma toggleMining_log now uid enabled db :
  transactions (fst (toggleMining now uid enabled db)) = transactions db.
Proof.
  unfold toggleMining, try_catch, bind, User_findById,
    Mining_getUserActiveMining, Mining_cancelActive.
  destruct enabled.
  - destruct (filter _ _) as [|m l]; [|reflexivity].
    cbv beta iota zeta delta
      [for_each bind Mining_createMiningOperation ret nonnull throw
       AuditLog_createLog fst snd minings nextId users transactions
       notifications auditLogs currency_eqb List.length Nat.eqb].
    destruct (findUser db uid); reflexivity.
  - destruct (findUser db uid); reflexivity.
Qed.



Section TradesOfTheRobot.

Variable rnd : nat -> Qc.
Hypothesis rnd_range : forall n, 0 <= rnd n /\ rnd n < 1.



End TradesOfTheRobot.







(** ** Switching mining off *)

Lemma processMiningJob_not_owner now m db uid :
  m_user m <> uid ->
  findUser (processMiningJob now m db) uid = findUser db uid
  /\ transactionsBy uid (transactions (processMiningJob now m db))
     = transactionsBy uid (transactions db).
Proof.
  intros Hne.
  destruct (processMiningJob_cases now m db)
    as [E | (u & Hf & _ & _ & [[_ E] | [_ E]])]; rewrite E.
  - split; reflexivity.
  - split; [|reflexivity].
    unfold findUser. cbn [users with_users].
    apply (find_updateOne_other _id);
      [exact Hne | intros; exact (findUser_id _ _ _ Hf)].
  - split.
    + unfold findUser. cbn [users].
      apply (find_updateOne_other _id);
        [exact Hne | intros; exact (findUser_id _ _ _ Hf)].
    + cbn [transactions]. unfold transactionsBy. rewrite filter_app.
      cbn [filter t_user t_doc rewardDoc].
      replace (m_user m =? uid)%nat with false
        by (symmetry; now apply Nat.eqb_neq).
      apply app_nil_r.
Qed.

Lemma processMiningJobs_not_owner now uid l :
  (forall m, In m l -> m_user m <> uid) ->
  forall db,
    findUser (processMiningJobs now l db) uid = findUser db uid
    /\ transactionsBy uid (transactions (processMiningJobs now l db))
       = transactionsBy uid (transactions db).
Proof.
  unfold processMiningJobs.
  induction l as [|m l IH]; intros H db; cbn [fold_left]; [split; reflexivity|].
  destruct (IH (fun m' Hin => H m' (or_intror Hin)) (processMiningJob now m db))
    as [Hu Ht].
  destruct (processMiningJob_not_owner now m db uid (H m (or_introl eq_refl)))
    as [Hu' Ht'].
  split; congruence.
Qed.

(** X16.  Switching mining off stops the rewards.  After the switch-off,
    whenever the next completion sweep runs, it finds no job of the account
    to complete: the account's document is as the switch-off left it, which
    is as it was before, and no transaction is logged for the account. *)
Theorem toggle_off_stops_rewards now later uid db :
  let db1 := fst (toggleMining now uid false db) in
  let db2 := processMiningCycles later db1 in
  activeMiningOf uid db1 = []
  /\ findUser db2 uid = findUser db uid
  /\ transactionsBy uid (transactions db2) = transactionsBy uid (transactions db).
Proof.
  intros db1 db2.
  assert (Hm : minings db1
               = map (fun m => if (m_user m =? uid) && is_mining (m_status m)
                               then cancelMining now m else m) (minings db))
    by apply toggleMining_off.
  assert (Hnone : forall m, In m (minings db1) ->
                            is_mining (m_status m) = true -> m_user m <> uid).
  { intros m Hin Hs Hu. rewrite Hm in Hin. apply in_map_iff in Hin.
    destruct Hin as (m0 & E & _).
    destruct ((m_user m0 =? uid) && is_mining (m_status m0)) eqn:B.
    - subst m. discriminate Hs.
    - subst m. rewrite Hs, andb_true_r in B. apply Nat.eqb_neq in B.
      contradiction. }
  split; [|].
  - unfold activeMiningOf.
    destruct (filter _ (minings db1)) as [|m l] eqn:F; [reflexivity|].
    assert (Hin : In m (filter (fun m => (m_user m =? uid) && is_mining (m_status m))
                               (minings db1)))
      by (rewrite F; left; reflexivity).
    apply filter_In in Hin. destruct Hin as [Hin B].
    apply andb_true_iff in B. destruct B as [Bu Bs].
    apply Nat.eqb_eq in Bu. exfalso. exact (Hnone m Hin Bs Bu).
  - assert (Hsnap : forall m, In m (Mining_findActive db1) -> m_user m <> uid).
    { intros m Hin. unfold Mining_findActive in Hin.
      apply filter_In in Hin. destruct Hin as [Hin Hs]. now apply Hnone. }
    destruct (processMiningJobs_not_owner later uid (Mining_findActive db1)
                Hsnap db1) as [Hu Ht].
    subst db2. unfold processMiningCycles. rewrite Hu, Ht.
    subst db1. unfold findUser at 1.
    rewrite toggleMining_users, toggleMining_log. split; reflexivity.
Qed.

(** ** Progress of the jobs *)

Lemma Math_round_this x :
  (this (Math_round x) == inject_Z (Qfloor (this x + (1 # 2))))%Q.
Proof.
  unfold Math_round. cbn [this Q2Qc Qcplus].
  change (Qred (1 # 2)) with (1 # 2)%Q.
  rewrite !Qred_correct. reflexivity.
Qed.

Lemma Math_round_range x :
  0 <= x -> x <= Q2Qc 100 -> 0 <= Math_round x /\ Math_round x <= Q2Qc 100.
Proof.
  intros H0 H100.
  pose proof (Math_round_this x) as E.
  assert (Hlo : (0 <= Qfloor (this x + (1 # 2)))%Z).
  { change 0%Z with (Qfloor (1 # 2)). apply Qfloor_resp_le. qlra. }
  assert (Hhi : (Qfloor (this x + (1 # 2)) <= 100)%Z).
  { change 100%Z with (Qfloor (100 + (1 # 2))). apply Qfloor_resp_le. qlra. }
  rewrite Zle_Qle in Hlo, Hhi.
  change (inject_Z 0) with 0%Q in Hlo. change (inject_Z 100) with 100%Q in Hhi.
  split; qlra.
Qed.

Lemma Qcdiv_nonneg a b : 0 <= a -> 0 < b -> 0 <= a / b.
Proof.
  intros Ha Hb. unfold Qcdiv, Qcinv.
  assert (Hi : (0 < / this b)%Q) by (apply Qinv_lt_0_compat; exact Hb).
  qc2q. nra.
Qed.

Lemma Qcmin_le_r x y : Qcmin x y <= y.
Proof.
  unfold Qcmin. destruct (Qcltb y x) eqn:E; [apply Qcle_refl | qlra].
Qed.

Lemma Qcmin_nonneg x y : 0 <= x -> 0 <= y -> 0 <= Qcmin x y.
Proof. intros Hx Hy. unfold Qcmin. destruct (Qcltb y x); assumption. Qed.

Lemma progressAt_range now m :
  (m_startTime m <= now)%Z ->
  0 <= progressAt now m /\ progressAt now m <= Q2Qc 100.
Proof.
  intros Hs. unfold progressAt. cbv zeta. split; [|apply Qcmin_le_r].
  apply Qcmin_nonneg; [|discriminate].
  assert (He : 0 <= Q2Qc (inject_Z (now - m_startTime m))).
  { unfold Qcle. cbn [this Q2Qc]. rewrite !Qred_correct.
    change (inject_Z 0 <= inject_Z (now - m_startTime m))%Q.
    rewrite <- Zle_Qle. lia. }
  assert (Hd : 0 <= Q2Qc (inject_Z (now - m_startTime m))
                    / Q2Qc (inject_Z (60 * 60 * 1000)))
    by (apply Qcdiv_nonneg; [exact He | reflexivity]).
  set (q := Q2Qc (inject_Z (now - m_startTime m))
            / Q2Qc (inject_Z (60 * 60 * 1000))) in *.
  clearbody q. qnra.
Qed.

Lemma validateMining_progress p m :
  is_mining (m_status m) = true ->
  0 <= p -> p <= Q2Qc 100 ->
  validateMining (withProgress p m) = true.
Proof.
  intros Hs H0 H100. unfold validateMining.
  cbn [withProgress m_status m_progress].
  destruct (m_status m); try discriminate.
  apply Qcleb_true in H0. apply Qcleb_true in H100.
  rewrite H0, H100. reflexivity.
Qed.

Lemma updateOne_id {A} (sel : A -> bool) (l : list A) :
  updateOne sel (fun x => x) l = l.
Proof.
  induction l as [|a l IH]; cbn [updateOne]; [reflexivity|].
  destruct (sel a); [reflexivity | now rewrite IH].
Qed.

Lemma with_minings_same db : with_minings (minings db) db = db.
Proof. destruct db; reflexivity. Qed.

Lemma updateMiningProgress_loop now l :
  (forall m, In m l -> is_mining (m_status m) = true
                       /\ (m_startTime m <= now)%Z) ->
  forall db,
    for_each l (fun mining =>
      if negb (Qceqb (progressAt now mining) (m_progress mining))
      then Mining_saveProgress
             (withProgress (Math_round (progressAt now mining)) mining)
      else ret tt) db
    = (with_minings
         (fold_left (fun acc m =>
                       updateOne (fun x => m_id x =? m_id m)
                                 (progressStep now m) acc)
                    l (minings db)) db,
       Returned tt).
Proof.
  induction l as [|m l IH]; intros H db; cbn [for_each fold_left].
  - rewrite with_minings_same. reflexivity.
  - destruct (H m (or_introl eq_refl)) as [Hs Ht].
    destruct (progressAt_range now m Ht) as [H0 H100].
    destruct (Math_round_range _ H0 H100) as [R0 R100].
    unfold bind at 1. unfold progressStep at 2.
    destruct (negb (Qceqb (progressAt now m) (m_progress m))).
    + unfold Mining_saveProgress.
      rewrite (validateMining_progress _ _ Hs R0 R100).
      cbn [withProgress m_id m_progress].
      rewrite IH by (intros m' Hin; apply H; right; exact Hin).
      reflexivity.
    + unfold ret at 1. rewrite updateOne_id.
      apply IH. intros m' Hin. apply H. right. exact Hin.
Qed.

(** A loop over the snapshot [filter p ms] that updates the stored document
    of each snapshot document by its key is a pointwise map, when the keys
    are distinct. *)
Lemma fold_updateOne_head {A} (key : A -> nat) (F : A -> A -> A) (l : list A) :
  forall (h : A) (t : list A),
    (forall m, In m l -> key m <> key h) ->
    fold_left (fun acc m => updateOne (fun x => key x =? key m) (F m) acc)
              l (h :: t)
    = h :: fold_left (fun acc m => updateOne (fun x => key x =? key m) (F m) acc)
                     l t.
Proof.
  induction l as [|m l IH]; intros h t H; cbn [fold_left]; [reflexivity|].
  cbn [updateOne].
  replace (key h =? key m)%nat with false.
  - apply IH. intros m' Hin. apply H. right. exact Hin.
  - symmetry. apply Nat.eqb_neq. intro E. apply (H m (or_introl eq_refl)).
    symmetry. exact E.
Qed.

Lemma fold_updateOne_snapshot {A} (key : A -> nat) (p : A -> bool)
    (F : A -> A -> A) (ms : list A) :
  (forall m x, key (F m x) = key x) ->
  NoDup (map key ms) ->
  fold_left (fun acc m => updateOne (fun x => key x =? key m) (F m) acc)
            (filter p ms) ms
  = map (fun x => if p x then F x x else x) ms.
Proof.
  intros Hkey.
  induction ms as [|a ms IH]; intros Hnd; [reflexivity|].
  inversion Hnd as [|? ? Hnotin Hnd']; subst.
  assert (Hother : forall m, In m (filter p ms) -> key m <> key a).
  { intros m Hin E. apply filter_In in Hin. destruct Hin as [Hin _].
    apply Hnotin. rewrite <- E. now apply in_map. }
  cbn [filter map]. destruct (p a).
  - cbn [fold_left updateOne]. rewrite Nat.eqb_refl.
    rewrite fold_updateOne_head.
    + now rewrite IH.
    + intros m Hin. rewrite Hkey. now apply Hother.
  - rewrite fold_updateOne_head by exact Hother. now rewrite IH.
Qed.

Lemma progressStep_id now m x : m_id (progressStep now m x) = m_id x.
Proof. unfold progressStep. destruct (negb _); reflexivity. Qed.

Lemma progressed_step now m :
  (if is_mining (m_status m) then progressStep now m m else m)
  = progressed now m.
Proof.
  unfold progressed, progressStep.
  destruct (is_mining (m_status m)); [|reflexivity].
  destruct (negb _); reflexivity.
Qed.

(** The run as a whole: it does not throw, and it is the pointwise update
    [progressed]. *)
Lemma updateMiningProgress_run now db :
  NoDup (map m_id (minings db)) ->
  (forall m, In m (minings db) -> is_mining (m_status m) = true ->
             (m_startTime m <= now)%Z) ->
  updateMiningProgress now db
  = (with_minings (map (progressed now) (minings db)) db, Returned tt).
Proof.
  intros Hnd Hstart. unfold updateMiningProgress. cbv zeta.
  rewrite updateMiningProgress_loop.
  - unfold Mining_findActive.
    rewrite (fold_updateOne_snapshot m_id (fun m => is_mining (m_status m))
               (progressStep now) (minings db)
               (fun m x => progressStep_id now m x) Hnd).
    f_equal. f_equal. apply map_ext. intros m. apply progressed_step.
  - intros m Hin. unfold Mining_findActive in Hin.
    apply filter_In in Hin. destruct Hin as [Hin Hs].
    split; [exact Hs | now apply Hstart].
Qed.

Lemma progressed_facts now m :
  m_id (progressed now m) = m_id m
  /\ m_status (progressed now m) = m_status m
  /\ m_startTime (progressed now m) = m_startTime m.
Proof.
  unfold progressed. destruct (_ && _); repeat split; reflexivity.
Qed.

Lemma progressed_twice now m : progressed now (progressed now m) = progressed now m.
Proof.
  destruct (is_mining (m_status m)
            && negb (Qceqb (progressAt now m) (m_progress m))) eqn:B.
  - assert (E : progressed now m
                = withProgress (Math_round (progressAt now m)) m)
      by (unfold progressed; rewrite B; reflexivity).
    rewrite E. unfold progressed. cbn [withProgress m_status m_progress].
    change (progressAt now (withProgress (Math_round (progressAt now m)) m))
      with (progressAt now m).
    destruct (is_mining (m_status m)
              && negb (Qceqb (progressAt now m)
                             (Math_round (progressAt now m))));
      reflexivity.
  - assert (E : progressed now m = m)
      by (unfold progressed; rewrite B; reflexivity).
    rewrite !E. reflexivity.
Qed.

(** X18.  Under the same conditions a second progress run at the same time
    changes nothing. *)
Theorem updateMiningProgress_idempotent now db :
  NoDup (map m_id (minings db)) ->
  (forall m, In m (minings db) -> is_mining (m_status m) = true ->
             (m_startTime m <= now)%Z) ->
  let db' := fst (updateMiningProgress now db) in
  updateMiningProgress now db' = (db', Returned tt).
Proof.
  intros Hnd Hstart db'. subst db'.
  rewrite (updateMiningProgress_run now db Hnd Hstart). cbn [fst].
  rewrite updateMiningProgress_run.
  - cbn [minings with_minings]. rewrite map_map.
    rewrite (map_ext _ _ (progressed_twice now)).
    destruct db; reflexivity.
  - cbn [minings with_minings]. rewrite map_map.
    rewrite (map_ext (fun x => m_id (progressed now x)) m_id); [exact Hnd|].
    intros m. apply progressed_facts.
  - cbn [minings with_minings]. intros m' Hin Hs.
    apply in_map_iff in Hin. destruct Hin as (m & <- & Hin).
    destruct (progressed_facts now m) as (_ & Est & Estart).
    rewrite Estart. apply (Hstart m Hin). now rewrite <- Est.
Qed.

Lemma updateMiningProgress_idempotent_witness :
  updateMiningProgress 1000000 (fst (updateMiningProgress 1000000 db_alice_mining))
  = (fst (updateMiningProgress 1000000 db_alice_mining), Returned tt).
Proof.
  apply (updateMiningProgress_idempotent 1000000 db_alice_mining).
  - repeat constructor; intros [].
  - intros m [<- | []] _. cbn. lia.
Defined.

(** ** Login attempts *)

Lemma incLoginAttempts_unlocked now n :
  incLoginAttempts now {| loginAttempts := n; lockUntil := None |}
  = if (5 <=? n + 1)%Z
    then {| loginAttempts := n + 1;
            lockUntil := Some (now + 2 * 60 * 60 * 1000)%Z |}
    else {| loginAttempts := n + 1; lockUntil := None |}.
Proof.
  unfold incLoginAttempts, isLocked. cbn [lockUntil loginAttempts negb andb].
  destruct (5 <=? n + 1)%Z; reflexivity.
Qed.

Lemma failedLogins_counting ts :
  forall n,
    (n + Z.of_nat (List.length ts) < 5)%Z ->
    failedLogins ts {| loginAttempts := n; lockUntil := None |}
    = {| loginAttempts := n + Z.of_nat (List.length ts); lockUntil := None |}.
Proof.
  unfold failedLogins.
  induction ts as [|t ts IH]; intros n Hn; cbn [fold_left List.length] in *.
  - f_equal. lia.
  - rewrite incLoginAttempts_unlocked.
    replace (5 <=? n + 1)%Z with false by (symmetry; apply Z.leb_gt; lia).
    rewrite IH by lia. f_equal. lia.
Qed.

Lemma failedLogins_app ts ts' s :
  failedLogins (ts ++ ts') s = failedLogins ts' (failedLogins ts s).
Proof. unfold failedLogins. apply fold_left_app. Qed.

(** X19.  A new account is locked by its fifth failed login and by no
    earlier one, whatever the times of the failures: the count has no time
    window.  The lock lasts two hours from the fifth failure. *)
Theorem fifth_failure_locks ts t now :
  List.length ts = 4%nat ->
  (forall earlier, (List.length earlier <= 4)%nat ->
     failedLogins earlier freshLogin
     = {| loginAttempts := Z.of_nat (List.length earlier); lockUntil := None |})
  /\ failedLogins (ts ++ [t]) freshLogin
     = {| loginAttempts := 5;
          lockUntil := Some (t + 2 * 60 * 60 * 1000)%Z |}
  /\ (isLocked now (failedLogins (ts ++ [t]) freshLogin) = true
      <-> (now < t + 2 * 60 * 60 * 1000)%Z).
Proof.
  intros Hlen.
  assert (Hfive : failedLogins (ts ++ [t]) freshLogin
                  = {| loginAttempts := 5;
                       lockUntil := Some (t + 2 * 60 * 60 * 1000)%Z |}).
  { rewrite failedLogins_app. unfold freshLogin.
    rewrite failedLogins_counting by (rewrite Hlen; cbn; lia).
    rewrite Hlen. unfold failedLogins. cbn [fold_left].
    rewrite incLoginAttempts_unlocked. reflexivity. }
  split; [|split].
  - intros earlier He. unfold freshLogin.
    rewrite failedLogins_counting by lia. reflexivity.
  - exact Hfive.
  - rewrite Hfive. unfold isLocked. cbn [lockUntil]. apply Z.ltb_lt.
Qed.

Lemma fifth_failure_locks_witness :
  failedLogins [10; 20; 30; 40]%Z freshLogin
  = {| loginAttempts := 4; lockUntil := None |}
  /\ failedLogins ([10; 20; 30; 40] ++ [50])%Z freshLogin
     = {| loginAttempts := 5; lockUntil := Some 7200050%Z |}.
Proof.
  destruct (fifth_failure_locks [10; 20; 30; 40]%Z 50 60 eq_refl)
    as (Hbefore & Hfifth & _).
  split; [apply (Hbefore [10; 20; 30; 40]%Z); cbn; lia | exact Hfifth].
Defined.

(** X20.  A failed login during the lock raises the count and leaves the
    end of the lock where it was.  The first failed login after the end of
    the lock clears it and restarts the count at 1, so the account is locked
    again only by the fourth failure after that one. *)
Theorem lock_is_not_extended_and_expires s t now ts :
  lockUntil s = Some t ->
  ((now < t)%Z ->
   incLoginAttempts now s
   = {| loginAttempts := loginAttempts s + 1; lockUntil := Some t |})
  /\ ((t < now)%Z ->
      (List.length ts <= 3)%nat ->
      failedLogins (now :: ts) s
      = {| loginAttempts := 1 + Z.of_nat (List.length ts); lockUntil := None |}).
Proof.
  intros Hl. split.
  - intros Hlt. unfold incLoginAttempts, isLocked. rewrite Hl.
    replace (t <? now)%Z with false by (symmetry; apply Z.ltb_ge; lia).
    replace (now <? t)%Z with true by (symmetry; apply Z.ltb_lt; lia).
    cbn [negb]. rewrite andb_false_r. reflexivity.
  - intros Hlt Hlen. unfold failedLogins. cbn [fold_left].
    assert (E : incLoginAttempts now s
                = {| loginAttempts := 1; lockUntil := None |}).
    { unfold incLoginAttempts. rewrite Hl.
      replace (t <? now)%Z with true by (symmetry; apply Z.ltb_lt; lia).
      reflexivity. }
    rewrite E. apply failedLogins_counting. lia.
Qed.

Lemma lock_is_not_extended_and_expires_witness :
  let locked := {| loginAttempts := 5; lockUntil := Some 7200050%Z |} in
  incLoginAttempts 60 locked
  = {| loginAttempts := 6; lockUntil := Some 7200050%Z |}
  /\ failedLogins [7200051; 7200052]%Z locked
     = {| loginAttempts := 2; lockUntil := None |}.
Proof.
  intros locked.
  destruct (lock_is_not_extended_and_expires locked 7200050 60 [] eq_refl)
    as [Hduring _].
  destruct (lock_is_not_extended_and_expires locked 7200050 7200051 [7200052]%Z
              eq_refl) as [_ Hafter].
  split; [apply Hduring; lia | apply Hafter; [lia | cbn; lia]].
Defined.

(** ** API keys *)

Lemma findIndex_first {A} (p : A -> bool) (before after : list A) (k : A) :
  (forall x, In x before -> p x = false) ->
  p k = true ->
  findIndex p (before ++ k :: after) = Some (List.length before).
Proof.
  intros Hb Hk. induction before as [|b before IH]; cbn [app findIndex List.length].
  - now rewrite Hk.
  - rewrite (Hb b) by (left; reflexivity).
    rewrite IH by (intros x Hx; apply Hb; right; exact Hx). reflexivity.
Qed.

Lemma assignAt_first {A} (f : A -> A) (before after : list A) (k : A) :
  assignAt (List.length before) f (before ++ k :: after)
  = before ++ f k :: after.
Proof.
  induction before as [|b before IH]; cbn [app assignAt List.length];
    [reflexivity | now rewrite IH].
Qed.

(** [findIndex] finds the first element that satisfies the test and
    splits the array there. *)
Lemma findIndex_split {A} (p : A -> bool) (l : list A) :
  existsb p l = true ->
  exists before k after,
    l = before ++ k :: after
    /\ (forall x, In x before -> p x = false)
    /\ p k = true.
Proof.
  induction l as [|a l IH]; cbn [existsb]; [discriminate|].
  destruct (p a) eqn:E.
  - intros _. exists [], a, l. repeat split; [intros x [] | exact E].
  - cbn [orb]. intros H. destruct (IH H) as (before & k & after & -> & Hb & Hk).
    exists (a :: before), k, after. repeat split; [|exact Hk].
    intros x [<- | Hx]; [exact E | now apply Hb].
Qed.

Lemma updateOne_again {A} (sel : A -> bool) (v : A) (l : list A) :
  sel v = true ->
  updateOne sel (fun _ => v) (updateOne sel (fun _ => v) l)
  = updateOne sel (fun _ => v) l.
Proof.
  intros Hv. induction l as [|a l IH]; cbn [updateOne]; [reflexivity|].
  destruct (sel a) eqn:E; cbn [updateOne].
  - now rewrite Hv.
  - now rewrite E, IH.
Qed.

Lemma find_only {A} (p : A -> bool) (l : list A) (x : A) :
  In x l -> p x = true ->
  (forall y, In y l -> p y = true -> y = x) ->
  find p l = Some x.
Proof.
  induction l as [|a l IH]; intros Hin Hp Hall; [contradiction|].
  cbn [find]. destruct (p a) eqn:E.
  - f_equal. apply Hall; [left; reflexivity | exact E].
  - destruct Hin as [-> | Hin]; [congruence|].
    apply IH; [exact Hin | exact Hp |].
    intros y Hy. apply Hall. right. exact Hy.
Qed.

Lemma In_updated {A} (key : A -> nat) (k : nat) (v x : A) (l : list A) :
  find (fun y => key y =? k) l = Some x ->
  In v (updateOne (fun y => key y =? k) (fun _ => v) l).
Proof.
  induction l as [|a l IH]; cbn [find updateOne]; [discriminate|].
  destruct (key a =? k); [intros _; left; reflexivity|].
  intros H. right. now apply IH.
Qed.

Lemma deleteApiKey_first store uid u before k after :
  findKeyedUser store uid = Some u ->
  validateUser (ku_doc u) = true ->
  ku_apiKeys u = before ++ k :: after ->
  (forall x, In x before -> k_name x <> k_name k) ->
  deleteApiKey uid (k_name k) store
  = (updateOne (fun x => _id (ku_doc x) =? uid)
       (fun _ => {| ku_doc := ku_doc u;
                    ku_apiKeys := before ++ deactivated k :: after |})
       store,
     Success 200).
Proof.
  intros Hf Hv Hkeys Hfirst.
  assert (Hid : _id (ku_doc u) = uid).
  { unfold findKeyedUser in Hf. apply find_some in Hf.
    now apply Nat.eqb_eq. }
  unfold deleteApiKey. rewrite Hf, Hkeys.
  rewrite findIndex_first.
  - rewrite assignAt_first. unfold KeyedUser_save. cbn [ku_doc].
    rewrite Hv, Hid. reflexivity.
  - intros x Hx. apply String.eqb_neq. now apply Hfirst.
  - apply String.eqb_refl.
Qed.

(** X21.  Deleting an API key by name reaches the first key of that name
    and no other.  It marks that key inactive, leaves every other key of the
    account as it is, and answers with success; deleting the same name again
    finds the same key, answers with success again and changes nothing.  A
    later key of the same name is therefore never deactivated. *)
Theorem deleteApiKey_reaches_first_only store uid u before k after :
  findKeyedUser store uid = Some u ->
  validateUser (ku_doc u) = true ->
  ku_apiKeys u = before ++ k :: after ->
  (forall x, In x before -> k_name x <> k_name k) ->
  let store1 := fst (deleteApiKey uid (k_name k) store) in
  snd (deleteApiKey uid (k_name k) store) = Success 200
  /\ (exists u1, findKeyedUser store1 uid = Some u1
                 /\ ku_doc u1 = ku_doc u
                 /\ ku_apiKeys u1 = before ++ deactivated k :: after)
  /\ deleteApiKey uid (k_name k) store1 = (store1, Success 200).
Proof.
  intros Hf Hv Hkeys Hfirst store1. subst store1.
  rewrite (deleteApiKey_first store uid u before k after Hf Hv Hkeys Hfirst).
  cbn [fst snd].
  assert (Hid : _id (ku_doc u) = uid).
  { unfold findKeyedUser in Hf. apply find_some in Hf.
    now apply Nat.eqb_eq. }
  set (u1 := {| ku_doc := ku_doc u;
                ku_apiKeys := before ++ deactivated k :: after |}).
  assert (Hf1 : findKeyedUser
                  (updateOne (fun x => _id (ku_doc x) =? uid) (fun _ => u1) store)
                  uid = Some u1).
  { unfold findKeyedUser.
    apply (find_updateOne_same (fun x => _id (ku_doc x)) uid u);
      [exact Hid | exact Hf]. }
  split; [reflexivity|]. split.
  - exists u1. repeat split. exact Hf1.
  - pose proof (deleteApiKey_first _ uid u1 before (deactivated k) after
                  Hf1 Hv eq_refl Hfirst) as E.
    change (k_name (deactivated k)) with (k_name k) in E. rewrite E.
    f_equal. change (deactivated (deactivated k)) with (deactivated k).
    fold u1. apply updateOne_again. cbn [u1 ku_doc]. now apply Nat.eqb_eq.
Qed.

(** X21 on an account with two keys named ["ci"]: the delete route keeps
    deactivating the first one, and the second one stays active. *)
Lemma deleteApiKey_reaches_first_only_witness :
  let k1 := {| k_key := "aaaa"; k_name := "ci"; k_createdAt := 1;
               k_lastUsed := None; k_isActive := true |} in
  let k2 := {| k_key := "bbbb"; k_name := "ci"; k_createdAt := 2;
               k_lastUsed := None; k_isActive := true |} in
  let store := [{| ku_doc := alice; ku_apiKeys := [k1; k2] |}] in
  let store1 := fst (deleteApiKey 1 "ci" store) in
  store1 = [{| ku_doc := alice; ku_apiKeys := [deactivated k1; k2] |}]
  /\ deleteApiKey 1 "ci" store1 = (store1, Success 200).
Proof.
  intros k1 k2 store store1.
  destruct (deleteApiKey_reaches_first_only store 1
              {| ku_doc := alice; ku_apiKeys := [k1; k2] |} [] k1 [k2]
              eq_refl eq_refl eq_refl (fun x (H : In x []) => match H with end))
    as (_ & _ & Hagain).
  split; [reflexivity | exact Hagain].
Defined.

Lemma same_key_same_doc {A} (key : A -> nat) (l : list A) x y :
  NoDup (map key l) -> In x l -> In y l -> key x = key y -> x = y.
Proof.
  intros Hnd Hx Hy E.
  pose proof (find_by_id_unique key l x Hnd Hx) as Fx.
  pose proof (find_by_id_unique key l y Hnd Hy) as Fy.
  rewrite E in Fx. congruence.
Qed.

Lemma findIndex_some {A} (p : A -> bool) (l : list A) :
  existsb p l = true -> exists i, findIndex p l = Some i.
Proof.
  intros H. destruct (findIndex_split p l H) as (b & k & a & -> & Hb & Hk).
  exists (List.length b). now apply findIndex_first.
Qed.

(** X22.  Deleting an API key does not revoke it while the account holds
    another active key.  The lookup behind the key authentication asks for
    an account with some key of the presented value and some active key,
    not for one key that is both; so the deactivated key still passes, and
    the middleware hands the request on as the account. *)
Theorem revoked_key_still_authenticates now store uid u before k after other :
  NoDup (map (fun x => _id (ku_doc x)) store) ->
  findKeyedUser store uid = Some u ->
  validateUser (ku_doc u) = true ->
  status (ku_doc u) = active ->
  ku_apiKeys u = before ++ k :: after ->
  (forall x, In x before -> k_name x <> k_name k) ->
  k_key k <> EmptyString ->
  In other (before ++ after) ->
  k_isActive other = true ->
  (forall v, In v store ->
     existsb (fun key => String.eqb (k_key key) (k_key k)) (ku_apiKeys v) = true ->
     _id (ku_doc v) = uid) ->
  let store1 := fst (deleteApiKey uid (k_name k) store) in
  snd (deleteApiKey uid (k_name k) store) = Success 200
  /\ (exists u1, findKeyedUser store1 uid = Some u1
                 /\ ku_apiKeys u1 = before ++ deactivated k :: after
                 /\ k_isActive (deactivated k) = false)
  /\ exists u2, snd (apiKeyAuth now (Some (k_key k)) store1) = Next u2
                /\ _id (ku_doc u2) = uid.
Proof.
  intros Hnd Hf Hv Hact Hkeys Hfirst Hkey Hother Hactive Hsole store1.
  subst store1.
  rewrite (deleteApiKey_first store uid u before k after Hf Hv Hkeys Hfirst).
  cbn [fst snd].
  assert (Hid : _id (ku_doc u) = uid).
  { unfold findKeyedUser in Hf. apply find_some in Hf.
    now apply Nat.eqb_eq. }
  set (u1 := {| ku_doc := ku_doc u;
                ku_apiKeys := before ++ deactivated k :: after |}).
  set (store1 := updateOne (fun x => _id (ku_doc x) =? uid) (fun _ => u1) store).
  assert (Hf1 : findKeyedUser store1 uid = Some u1).
  { unfold findKeyedUser, store1.
    apply (find_updateOne_same (fun x => _id (ku_doc x)) uid u);
      [exact Hid | exact Hf]. }
  split; [reflexivity|]. split; [exists u1; repeat split; exact Hf1|].
  (* the lookup finds the account *)
  assert (Hin1 : In u1 store1)
    by (unfold store1; eapply In_updated; exact Hf).
  assert (Hnd1 : NoDup (map (fun x => _id (ku_doc x)) store1)).
  { unfold store1. rewrite map_updateOne_same; [exact Hnd|].
    intros x Hx. apply Nat.eqb_eq in Hx. cbn [u1 ku_doc]. congruence. }
  assert (Hhas : existsb (fun key => String.eqb (k_key key) (k_key k))
                         (ku_apiKeys u1) = true).
  { cbn [u1 ku_apiKeys]. apply existsb_exists. exists (deactivated k).
    split; [apply in_elt | apply String.eqb_refl]. }
  assert (Hsome : existsb k_isActive (ku_apiKeys u1) = true).
  { cbn [u1 ku_apiKeys]. apply existsb_exists. exists other.
    split; [|exact Hactive].
    apply in_app_or in Hother. apply in_or_app.
    destruct Hother as [H | H]; [left; exact H | right; right; exact H]. }
  assert (Hlookup : User_findByApiKey (k_key k) store1 = Some u1).
  { unfold User_findByApiKey. apply find_only.
    - exact Hin1.
    - rewrite Hhas, Hsome. cbn [u1 ku_doc andb]. rewrite Hact. reflexivity.
    - intros y Hy Hp.
      apply andb_true_iff in Hp. destruct Hp as [Hp _].
      apply andb_true_iff in Hp. destruct Hp as [Hp _].
      apply (same_key_same_doc (fun x => _id (ku_doc x)) store1);
        [exact Hnd1 | exact Hy | exact Hin1 |].
      cbn [u1 ku_doc]. rewrite Hid.
      unfold store1 in Hy. apply In_updateOne in Hy.
      destruct Hy as [Hy | (z & _ & ->)]; [|cbn [u1 ku_doc]; exact Hid].
      now apply Hsole. }
  destruct (findIndex_some _ _ Hhas) as [i Hi].
  unfold apiKeyAuth.
  replace (String.eqb (k_key k) EmptyString) with false
    by (symmetry; now apply String.eqb_neq).
  rewrite Hlookup, Hi. unfold KeyedUser_save. cbn [ku_doc u1].
  rewrite Hv. cbn [snd]. eexists. split; [reflexivity|]. exact Hid.
Qed.

(** X22 on an account with a key for a build server and a key for a phone:
    after the first one is deleted it still authenticates. *)
Lemma revoked_key_still_authenticates_witness :
  let k1 := {| k_key := "aaaa"; k_name := "ci"; k_createdAt := 1;
               k_lastUsed := None; k_isActive := true |} in
  let k2 := {| k_key := "bbbb"; k_name := "phone"; k_createdAt := 2;
               k_lastUsed := None; k_isActive := true |} in
  let store := [{| ku_doc := alice; ku_apiKeys := [k1; k2] |}] in
  let store1 := fst (deleteApiKey 1 "ci" store) in
  (exists u1, findKeyedUser store1 1 = Some u1
              /\ ku_apiKeys u1 = [deactivated k1; k2])
  /\ exists u2, snd (apiKeyAuth 5 (Some "aaaa"%string) store1) = Next u2
                /\ _id (ku_doc u2) = 1%nat.
Proof.
  intros k1 k2 store store1.
  destruct (revoked_key_still_authenticates 5 store 1
              {| ku_doc := alice; ku_apiKeys := [k1; k2] |} [] k1 [k2] k2)
    as (_ & (u1 & Hu1 & Hk1 & _) & Hauth);
    try reflexivity.
  - repeat constructor. intros [].
  - intros x [].
  - discriminate.
  - left. reflexivity.
  - intros v [<- | []] _. reflexivity.
  - split; [exists u1; split; [exact Hu1 | exact Hk1] | exact Hauth].
Defined.

(** ** Generated addresses *)

Lemma only_addresses_refl db : only_addresses db db.
Proof. repeat split; reflexivity. Qed.

Lemma only_addresses_trans db1 db2 db3 :
  only_addresses db1 db2 -> only_addresses db2 db3 -> only_addresses db1 db3.
Proof.
  intros (A1 & A2 & A3 & A4 & A5) (B1 & B2 & B3 & B4 & B5).
  repeat split; congruence.
Qed.

(** What one round does: nothing, or a new list of addresses for the first
    job in [mining] status of the drawn currency. *)
Lemma generateMiningAddress_cases now rnd k db :
  fst (generateMiningAddress now rnd k db) = db
  \/ exists c found a,
       Mining_findOneActive c db = Some found
       /\ fst (generateMiningAddress now rnd k db)
          = with_minings
              (updateOne (fun x => m_id x =? m_id found)
                 (withAddresses
                    (if (100 <? List.length (m_addresses found ++ [a]))%nat
                     then tl (m_addresses found ++ [a])
                     else m_addresses found ++ [a]))
                 (minings db)) db.
Proof.
  unfold generateMiningAddress. cbv zeta.
  destruct (item _ _) as [c|]; [|left; reflexivity].
  destruct (Mining_findOneActive c db) as [found|] eqn:Hf; [|left; reflexivity].
  unfold Mining_saveAddresses. cbn [withAddresses m_id m_addresses].
  destruct (validateMining _); [|left; reflexivity].
  right. eexists c, found, _. split; [exact Hf | reflexivity].
Qed.

Lemma kept_bounded (l : list MiningAddress) a :
  (List.length l <= 100)%nat ->
  (List.length (if (100 <? List.length (l ++ [a]))%nat
                then tl (l ++ [a]) else l ++ [a]) <= 100)%nat.
Proof.
  intros H. destruct (100 <? List.length (l ++ [a]))%nat eqn:E.
  - destruct l as [|x l]; cbn [app tl List.length] in *; [lia|].
    rewrite length_app. cbn [List.length]. lia.
  - apply Nat.ltb_ge in E. exact E.
Qed.

Lemma find_updateOne_kept {A} (p sel : A -> bool) (f : A -> A) (l : list A) y :
  (forall x, p (f x) = p x) ->
  find p (updateOne sel f l) = Some y ->
  exists x, find p l = Some x /\ (y = x \/ y = f x).
Proof.
  intros Hp. induction l as [|a l IH]; cbn [updateOne find]; [discriminate|].
  destruct (sel a).
  - cbn [find]. rewrite Hp. destruct (p a).
    + intros [= <-]. exists a. split; [reflexivity | right; reflexivity].
    + intros H. exists y. split; [exact H | left; reflexivity].
  - cbn [find]. destruct (p a).
    + intros [= <-]. exists a. split; [reflexivity | left; reflexivity].
    + exact IH.
Qed.

Lemma In_updateOne_other {A} (key : A -> nat) (k : nat) (f : A -> A) l x :
  key x <> k -> In x l -> In x (updateOne (fun y => key y =? k) f l).
Proof.
  intros Hne. induction l as [|a l IH]; cbn [updateOne]; [intros []|].
  intros [-> | Hin].
  - replace (key x =? k)%nat with false by (symmetry; now apply Nat.eqb_neq).
    left. reflexivity.
  - destruct (key a =? k)%nat; right; [exact Hin | now apply IH].
Qed.

(** The three facts that every round preserves. *)
Lemma generateMiningAddress_round now rnd k db :
  only_addresses db (fst (generateMiningAddress now rnd k db))
  /\ (addresses_bounded db ->
      addresses_bounded (fst (generateMiningAddress now rnd k db)))
  /\ (forall m, passed_over m db ->
                passed_over m (fst (generateMiningAddress now rnd k db))).
Proof.
  destruct (generateMiningAddress_cases now rnd k db)
    as [E | (c & found & a & Hf & E)]; rewrite E.
  - split; [apply only_addresses_refl|]. split; auto.
  - assert (Hin : In found (minings db)).
    { unfold Mining_findOneActive in Hf. apply find_some in Hf. tauto. }
    split; [|split].
    + unfold only_addresses. cbn [users transactions notifications auditLogs
                                   minings with_minings].
      repeat split.
      apply map_updateOne_same. intros x _. reflexivity.
    + intros Hb m Hm. cbn [minings with_minings] in Hm.
      apply In_updateOne in Hm. destruct Hm as [Hm | (y & _ & ->)].
      * now apply Hb.
      * cbn [withAddresses m_addresses]. apply kept_bounded. now apply Hb.
    + intros m [Hm Hnot]. split.
      * cbn [minings with_minings].
        apply (In_updateOne_other m_id); [|exact Hm].
        intros Eid. exact (Hnot c found Hf (eq_sym Eid)).
      * intros c' found' Hf'. unfold Mining_findOneActive in Hf'.
        cbn [minings with_minings] in Hf'.
        apply find_updateOne_kept in Hf'; [|intros x; reflexivity].
        destruct Hf' as (x & Hx & [-> | ->]).
        -- exact (Hnot c' x Hx).
        -- cbn [withAddresses m_id]. exact (Hnot c' x Hx).
Qed.

Lemma generateMiningAddresses_rounds now rnd (l : list nat) (at_ : nat -> nat) :
  forall db,
    let db' := fst (for_each l (fun i => generateMiningAddress now rnd (at_ i)) db) in
    only_addresses db db'
    /\ (addresses_bounded db -> addresses_bounded db')
    /\ (forall m, passed_over m db -> passed_over m db').
Proof.
  induction l as [|i l IH]; intros db; cbn [for_each].
  - split; [apply only_addresses_refl|]. split; auto.
  - unfold bind.
    destruct (generateMiningAddress_round now rnd (at_ i) db) as (A & B & C).
    destruct (generateMiningAddress now rnd (at_ i) db) as [db1 [[]|e]];
      cbn [fst] in *.
    + destruct (IH db1) as (A' & B' & C'). cbv zeta in *.
      split; [eapply only_addresses_trans; eauto|]. split; auto.
    + split; [exact A|]. split; auto.
Qed.

(** X23.  A run of the address generator changes nothing but the addresses
    of jobs: accounts, logs, and the state of every job stay.  The addresses
    of a job form a ring of at most 100: if no job holds more than 100
    before the run, none does after it. *)
Theorem generated_addresses_stay_bounded now rnd k db :
  addresses_bounded db ->
  let db' := fst (generateMiningAddresses now rnd k db) in
  addresses_bounded db' /\ only_addresses db db'.
Proof.
  intros Hb db'. subst db'. unfold generateMiningAddresses.
  destruct (generateMiningAddresses_rounds now rnd (seq 0 10)
              (fun i => (k + 41 * i)%nat) db) as (A & B & _).
  split; [exact (B Hb) | exact A].
Qed.

(** X23 on the store with two BTC jobs, every random value being 1/10: the
    ten rounds all draw BTC, and the ten addresses go to the older job. *)
Lemma generated_addresses_stay_bounded_witness :
  let db' := fst (generateMiningAddresses 5 rnd_tenth 0 db_two_miners) in
  addresses_bounded db'
  /\ map (fun m => (m_user m, List.length (m_addresses m))) (minings db')
     = [(4, 10); (1, 0)]%nat.
Proof.
  intros db'. split; [|vm_compute; reflexivity].
  apply (generated_addresses_stay_bounded 5 rnd_tenth 0 db_two_miners).
  intros m [<- | [<- | []]]; cbn; lia.
Defined.

(** X24.  The generator looks up the job for a drawn currency with
    [findOne] on currency and status alone, so it always feeds the first
    job in [mining] status of that currency, whoever owns it.  A job that is
    not the first one for any currency comes out of the run exactly as it
    went in: it is never given an address. *)
Theorem later_job_gets_no_address now rnd k db m :
  passed_over m db ->
  passed_over m (fst (generateMiningAddresses now rnd k db)).
Proof.
  intros H. unfold generateMiningAddresses.
  destruct (generateMiningAddresses_rounds now rnd (seq 0 10)
              (fun i => (k + 41 * i)%nat) db) as (_ & _ & C).
  exact (C m H).
Qed.

Lemma later_job_gets_no_address_witness :
  In (btcJob 8 1)
     (minings (fst (generateMiningAddresses 5 rnd_tenth 0 db_two_miners))).
Proof.
  apply (later_job_gets_no_address 5 rnd_tenth 0 db_two_miners (btcJob 8 1)).
  split; [right; left; reflexivity|].
  intros c found Hf.
  destruct c; cbn in Hf; try discriminate.
  injection Hf as <-. cbn. lia.
Defined.

(** ** Further invariants of the store *)

Lemma nonneg_trading_checked db db' :
  nonneg_trading db -> users_checked db db' -> nonneg_trading db'.
Proof.
  intros Hn Hc u Hu. destruct (Hc u Hu) as [H|H].
  - now apply Hn.
  - apply validateUser_spec in H. tauto.
Qed.

(** X26.  The trading capital and the trading profit of an account never
    become negative: starting from a store in which they are non-negative
    for every account, they are after each operation of any sequence. *)
Theorem trading_state_stays_nonnegative ops db :
  nonneg_trading db ->
  forall n, nonneg_trading (run_ops (firstn n ops) db).
Proof.
  intros Hn n. unfold run_ops. revert db Hn n.
  induction ops as [|op ops IH]; intros db Hn n.
  - rewrite firstn_nil. exact Hn.
  - destruct n as [|n]; [exact Hn|]. cbn [firstn fold_left].
    apply IH. eapply nonneg_trading_checked; [exact Hn | apply apply_op_checked].
Qed.

Lemma trading_state_stays_nonnegative_witness :
  nonneg_trading (run_ops (firstn 5 sample_ops) db_bob).
Proof.
  apply (trading_state_stays_nonnegative sample_ops db_bob).
  intros u [<-|[]]. split; discriminate.
Defined.

(** ** What a trading cycle leaves alone *)

Lemma tradedUser_frame rnd k r :
  balances (tradedUser rnd k r) = balances r
  /\ status (tradedUser rnd k r) = status r
  /\ robotActive (trading (tradedUser rnd k r)) = robotActive (trading r).
Proof. unfold tradedUser. destruct (Qcltb _ _); repeat split. Qed.

(** X27.  A trading cycle never touches a balance.  Whatever the random
    values, every account keeps its balances, its status and its robot
    switch; the outcome of a trade stays in the trading capital and the
    trading profit until the profit is withdrawn.  An account whose robot is
    off, which is not active, or whose capital is not positive is left
    exactly as it was. *)
Theorem trading_cycle_leaves_balances rnd k db uid u u' :
  NoDup (map _id (users db)) ->
  findUser db uid = Some u ->
  findUser (fst (executeTradingRobots rnd k db)) uid = Some u' ->
  balances u' = balances u
  /\ status u' = status u
  /\ robotActive (trading u') = robotActive (trading u)
  /\ (robotActive (trading u) = false \/ status u <> active
      \/ capital (trading u) <= 0 ->
      u' = u).
Proof.
  intros Hnd Hf Hf'. unfold executeTradingRobots in Hf'.
  destruct (fold_tradeUser_findUser rnd (User_findRobots db)
              (NoDup_keys_filter _ _ _ Hnd) db k uid)
    as [H | (r & j & Hin & Hid & Hc & H)]; cbv zeta in H; rewrite H in Hf'.
  - rewrite Hf in Hf'. injection Hf' as <-. repeat split.
  - injection Hf' as <-.
    apply filter_In in Hin. destruct Hin as [Hin Hrobot].
    assert (Hr : r = u) by (eapply find_unique_id; eauto). subst r.
    destruct (tradedUser_frame rnd j u) as (Hb & Hs & Hr).
    repeat split; try assumption.
    apply andb_true_iff in Hrobot. destruct Hrobot as [Hon Hact].
    intros [Hoff | [Hina | Hcap]].
    + congruence.
    + exfalso. apply Hina. destruct (status u); [reflexivity | discriminate..].
    + exfalso. qlra.
Qed.

Lemma trading_cycle_leaves_balances_witness :
  exists u',
    findUser (fst (executeTradingRobots rnd_half 0 db_bob)) 2 = Some u'
    /\ balances u' = balances bob
    /\ profit (trading u') = Q2Qc 46.
Proof.
  eexists. split; [reflexivity|].
  split; [|apply Qc_is_canon; reflexivity].
  assert (Hnd : NoDup (map _id (users db_bob)))
    by (repeat constructor; intros []).
  exact (proj1 (trading_cycle_leaves_balances rnd_half 0 db_bob 2 bob _
                  Hnd eq_refl eq_refl)).
Defined.

(** * Binary64 arithmetic

    Facts about the operations of [PrimFloat], derived from their
    specification in [SpecFloat]: the sign of a sum, a difference and a
    product, and that rounding never crosses a representable value. *)

Section Binary64Arithmetic.

Local Open Scope Z_scope.

Lemma iter_pos_preserves {A : Type} (P : A -> Prop) (f : A -> A) :
  (forall x, P x -> P (f x)) -> forall n x, P x -> P (iter_pos f n x).
Proof.
  intros Hf n; induction n as [n IH|n IH|]; intros x Hx; cbn; auto.
Qed.

Lemma shr_1_nonneg mrs : 0 <= shr_m mrs -> 0 <= shr_m (shr_1 mrs).
Proof.
  destruct mrs as [m r s]; destruct m as [|[p|p|]|p]; cbn; lia.
Qed.

Lemma shr_nonneg mrs e n : 0 <= shr_m mrs -> 0 <= shr_m (fst (shr mrs e n)).
Proof.
  intros H; destruct n as [|p|p]; cbn; trivial.
  now apply (iter_pos_preserves (fun x => 0 <= shr_m x)); [apply shr_1_nonneg|].
Qed.

Lemma shr_record_of_loc_m m l : shr_m (shr_record_of_loc m l) = m.
Proof. destruct l as [|[]]; reflexivity. Qed.

Lemma shr_fexp_nonneg m e l :
  0 <= m -> 0 <= shr_m (fst (shr_fexp prec emax m e l)).
Proof.
  intros H; unfold shr_fexp; apply shr_nonneg.
  now rewrite shr_record_of_loc_m.
Qed.

Lemma round_nearest_even_bounds m l :
  m <= round_nearest_even m l <= m + 1.
Proof.
  destruct l as [|[]]; cbn; try lia.
  destruct (Z.even m); lia.
Qed.

Lemma binary_round_aux_signed sx m e l :
  0 <= m -> signed sx (binary_round_aux prec emax sx m e l).
Proof.
  intros Hm; unfold binary_round_aux.
  pose proof (shr_fexp_nonneg m e l Hm) as H1.
  destruct (shr_fexp prec emax m e l) as [mrs' e']; cbn [fst] in H1.
  pose proof (round_nearest_even_bounds (shr_m mrs') (loc_of_shr_record mrs')) as H2.
  assert (H3 : 0 <= round_nearest_even (shr_m mrs') (loc_of_shr_record mrs')) by lia.
  pose proof (shr_fexp_nonneg _ e' loc_Exact H3) as H4.
  destruct (shr_fexp prec emax _ e' loc_Exact) as [mrs'' e'']; cbn [fst] in H4.
  destruct (shr_m mrs'') as [|p|p]; [constructor| |lia].
  destruct (e'' <=? emax - prec); constructor.
Qed.

Lemma binary_round_signed sx m e : signed sx (binary_round prec emax sx m e).
Proof.
  unfold binary_round.
  destruct (shl_align m e _) as [mz ez].
  now apply binary_round_aux_signed.
Qed.

Lemma signed_nonneg x : signed false x -> SFnonneg x = true.
Proof. now destruct 1. Qed.

Lemma SFadd_nonneg x y :
  SFnonneg x = true -> SFnonneg y = true ->
  SFnonneg (SFadd prec emax x y) = true.
Proof.
  destruct x as [sx|[]| |[] mx ex]; try discriminate;
  destruct y as [sy|[]| |[] my ey]; try discriminate; intros _ _; try reflexivity.
  - now destruct sx, sy.
  - cbn -[binary_round shl_align].
    apply signed_nonneg, binary_round_signed.
Qed.


(* without finiteness: non-negative or not a number *)
Lemma SFmul_nonneg_or_nan x y :
  SFnonneg x = true -> SFnonneg y = true ->
  SFnonneg (SFmul prec emax x y) = true \/ SFmul prec emax x y = S754_nan.
Proof.
  destruct x as [sx|[]| |[] mx ex]; try discriminate;
  destruct y as [sy|[]| |[] my ey]; try discriminate; intros _ _; auto.
  left; cbn -[binary_round_aux].
  apply signed_nonneg, binary_round_aux_signed; lia.
Qed.

Lemma pow2_pos a : 0 <= a -> 0 < 2 ^ a.
Proof. intros; now apply Z.pow_pos_nonneg. Qed.

Lemma pow2_add a b : 0 <= a -> 0 <= b -> 2 ^ (a + b) = 2 ^ a * 2 ^ b.
Proof. intros; now apply Z.pow_add_r. Qed.

Lemma pow2_split a b : 0 <= b <= a -> 2 ^ a = 2 ^ b * 2 ^ (a - b).
Proof. intros; rewrite <- pow2_add by lia; f_equal; lia. Qed.

Lemma pow2_ge_2 a : 0 < a -> 2 <= 2 ^ a.
Proof.
  intros H; rewrite (pow2_split a 1) by lia.
  pose proof (pow2_pos (a - 1)); change (2 ^ 1) with 2; lia.
Qed.

Lemma digits2_pos_bounds m :
  2 ^ (Zpos (digits2_pos m) - 1) <= Zpos m < 2 ^ Zpos (digits2_pos m).
Proof.
  induction m as [m IH|m IH|]; cbn [digits2_pos];
    try (rewrite Pos2Z.inj_succ;
         replace (Z.succ (Zpos (digits2_pos m)) - 1) with (Zpos (digits2_pos m)) by lia;
         rewrite Z.pow_succ_r by lia;
         rewrite (pow2_split (Zpos (digits2_pos m)) 1) in * by lia;
         change (2 ^ 1) with 2 in *; lia).
  cbn; lia.
Qed.

Lemma digits2_pos_unique m k :
  2 ^ (k - 1) <= Zpos m < 2 ^ k -> Zpos (digits2_pos m) = k.
Proof.
  intros [Hl Hu]; destruct (digits2_pos_bounds m) as [Hl' Hu'].
  assert (0 < k).
  { destruct (Z_lt_le_dec 0 k) as [|Hk]; trivial.
    assert (2 ^ k <= 2 ^ 0) by (destruct (Z_lt_le_dec k 0);
      [rewrite Z.pow_neg_r by lia; cbn; lia | apply Z.pow_le_mono_r; lia]).
    change (2 ^ 0) with 1 in *; lia. }
  set (d := Zpos (digits2_pos m)) in *.
  destruct (Z_lt_le_dec d k) as [Hlt|Hge].
  - assert (2 ^ d <= 2 ^ (k - 1)) by (apply Z.pow_le_mono_r; lia). lia.
  - destruct (Z_lt_le_dec k d) as [Hlt|Hge']; [|lia].
    assert (2 ^ k <= 2 ^ (d - 1)) by (apply Z.pow_le_mono_r; lia). lia.
Qed.

Lemma canonical_facts m e :
  canonical_mantissa prec emax m e = true ->
  -1074 <= e /\ Zpos (digits2_pos m) <= 53 /\
  (-1074 < e -> Zpos (digits2_pos m) = 53).
Proof.
  unfold canonical_mantissa, fexp, SpecFloat.emin, prec, emax.
  intros H; apply Z.eqb_eq in H; lia.
Qed.

Lemma canonical_upper m e :
  canonical_mantissa prec emax m e = true -> Zpos m < 2 ^ 53.
Proof.
  intros H; destruct (canonical_facts _ _ H) as (_ & Hd & _).
  destruct (digits2_pos_bounds m) as [_ Hu].
  assert (2 ^ Zpos (digits2_pos m) <= 2 ^ 53) by (apply Z.pow_le_mono_r; lia).
  lia.
Qed.

Lemma canonical_lower m e :
  canonical_mantissa prec emax m e = true -> -1074 < e -> 2 ^ 52 <= Zpos m.
Proof.
  intros H He; destruct (canonical_facts _ _ H) as (_ & _ & Hd).
  destruct (digits2_pos_bounds m) as [Hl _].
  rewrite (Hd He) in Hl; exact Hl.
Qed.

(* a canonical value below the next exponent's smallest normal one *)
Lemma canonical_below m e e' :
  canonical_mantissa prec emax m e = true -> e < e' ->
  Zpos m * 2 ^ (e + 1074) < 2 ^ 52 * 2 ^ (e' + 1074).
Proof.
  intros H He; pose proof (canonical_upper _ _ H) as Hu.
  destruct (canonical_facts _ _ H) as (Hm & _).
  rewrite (pow2_split (e' + 1074) (e + 1074)) by lia.
  pose proof (pow2_pos (e + 1074) ltac:(lia)) as Hp.
  pose proof (pow2_ge_2 (e' + 1074 - (e + 1074)) ltac:(lia)) as Hq.
  change (2 ^ 53) with (2 ^ 52 * 2) in Hu.
  set (P := 2 ^ (e + 1074)) in *; set (Q := 2 ^ (e' + 1074 - (e + 1074))) in *.
  assert (Zpos m * P < 2 ^ 52 * 2 * P) by (apply Z.mul_lt_mono_pos_r; lia).
  assert (2 ^ 52 * 2 * P <= 2 ^ 52 * (P * Q)); [|lia].
  rewrite Z.mul_assoc, <- (Z.mul_assoc (2 ^ 52) 2 P), (Z.mul_comm 2 P).
  rewrite <- !Z.mul_assoc. apply Z.mul_le_mono_nonneg_l; [cbn; lia|].
  apply Z.mul_le_mono_nonneg_l; lia.
Qed.

Lemma canonical_above m e :
  canonical_mantissa prec emax m e = true -> -1074 < e ->
  2 ^ 52 * 2 ^ (e + 1074) <= Zpos m * 2 ^ (e + 1074).
Proof.
  intros H He; pose proof (canonical_lower _ _ H He).
  apply Z.mul_le_mono_nonneg_r; [|trivial].
  apply Z.lt_le_incl, pow2_pos; lia.
Qed.

Lemma SFleb_canonical m1 e1 m2 e2 :
  canonical_mantissa prec emax m1 e1 = true ->
  canonical_mantissa prec emax m2 e2 = true ->
  Zpos m1 * 2 ^ (e1 + 1074) <= Zpos m2 * 2 ^ (e2 + 1074) ->
  SFleb (S754_finite false m1 e1) (S754_finite false m2 e2) = true.
Proof.
  intros H1 H2 Hv; unfold SFleb, SFcompare.
  destruct (Z.compare_spec e1 e2) as [He|He|He]; trivial.
  - subst e2. change (Pos.compare_cont Eq m1 m2) with (m1 ?= m2)%positive.
    destruct (Pos.compare_spec m1 m2) as [Hm|Hm|Hm]; trivial.
    destruct (canonical_facts _ _ H1) as (He & _).
    pose proof (pow2_pos (e1 + 1074) ltac:(lia)).
    assert (Zpos m2 * 2 ^ (e1 + 1074) < Zpos m1 * 2 ^ (e1 + 1074))
      by (apply Z.mul_lt_mono_pos_r; lia).
    lia.
  - destruct (canonical_facts _ _ H2) as (He2 & _).
    pose proof (canonical_below _ _ _ H2 He).
    pose proof (canonical_above _ _ H1 ltac:(lia)). lia.
Qed.

Lemma Pos_iter_xO m d : Zpos (Pos.iter xO m d) = Zpos m * 2 ^ Zpos d.
Proof.
  induction d as [|d IH] using Pos.peano_ind.
  - cbn; lia.
  - rewrite Pos.iter_succ, Pos2Z.inj_xO, IH, Pos2Z.inj_succ, Z.pow_succ_r by lia. lia.
Qed.

Lemma shl_align_fst m e e' :
  e' <= e -> Zpos (fst (shl_align m e e')) = Zpos m * 2 ^ (e - e').
Proof.
  intros H; unfold shl_align.
  destruct (e' - e) as [|p|p] eqn:E; cbn [fst]; try lia.
  - replace (e - e') with 0 by lia. cbn; lia.
  - rewrite Pos_iter_xO. f_equal. f_equal. lia.
Qed.

Lemma shl_align_snd m e e' : e' <= e -> snd (shl_align m e e') = e'.
Proof.
  intros H; unfold shl_align.
  destruct (e' - e) as [|p|p] eqn:E; cbn [snd]; lia.
Qed.

Lemma SFsub_nonneg x y :
  valid_binary x = true -> valid_binary y = true ->
  SFnonneg x = true -> SFnonneg y = true -> SFfinite y = true ->
  SFltb x y = false ->
  SFnonneg (SFsub prec emax x y) = true.
Proof.
  destruct x as [sx|[]| |[] mx ex]; try discriminate;
  destruct y as [sy|[]| |[] my ey]; try discriminate; intros Vx Vy _ _ _ Hlt;
    try reflexivity; try discriminate.
  - now destruct sx, sy.
  - unfold SFsub, cond_Zopp; cbv zeta.
    cbn [valid_binary] in Vx, Vy. unfold bounded in Vx, Vy.
    apply andb_prop in Vx, Vy. destruct Vx as [Cx _], Vy as [Cy _].
    assert (Hd : Zpos (fst (shl_align my ey (Z.min ex ey)))
                 <= Zpos (fst (shl_align mx ex (Z.min ex ey)))).
    { rewrite !shl_align_fst by lia.
      unfold SFltb, SFcompare in Hlt.
      destruct (Z.compare_spec ex ey) as [He|He|He]; try discriminate.
      - subst ey. rewrite Z.min_id, Z.sub_diag. cbn [Z.pow].
        change (Pos.compare_cont Eq mx my) with (mx ?= my)%positive in Hlt.
        destruct (Pos.compare_spec mx my); try discriminate; lia.
      - rewrite Z.min_r by lia. rewrite Z.sub_diag. cbn [Z.pow].
        destruct (canonical_facts _ _ Cy) as (Hey & _).
        pose proof (canonical_upper _ _ Cy).
        pose proof (canonical_lower _ _ Cx ltac:(lia)).
        pose proof (pow2_ge_2 (ex - ey) ltac:(lia)).
        change (2 ^ 53) with (2 ^ 52 * 2) in *.
        assert (2 ^ 52 * 2 <= Zpos mx * 2 ^ (ex - ey)); [|lia].
        apply Z.mul_le_mono_nonneg; lia. }
    destruct (Zpos (fst (shl_align mx ex (Z.min ex ey))) -
              Zpos (fst (shl_align my ey (Z.min ex ey)))) as [|q|q] eqn:E;
      [reflexivity| |lia].
    cbn [binary_normalize]. apply signed_nonneg, binary_round_signed.
Qed.

Lemma iter_pos_steps {A : Type} (Q : Z -> A -> Prop) (f : A -> A) :
  (forall k x, 0 <= k -> Q k x -> Q (k + 1) (f x)) ->
  forall n k x, 0 <= k -> Q k x -> Q (k + Zpos n) (iter_pos f n x).
Proof.
  intros Hf n; induction n as [n IH|n IH|]; intros k x Hk HQ; cbn [iter_pos].
  - replace (k + Zpos n~1) with (k + 1 + Zpos n + Zpos n) by lia.
    apply IH; [lia|]. apply IH; [lia|]. now apply Hf.
  - replace (k + Zpos n~0) with (k + Zpos n + Zpos n) by lia.
    apply IH; [lia|]. now apply IH.
  - now apply Hf.
Qed.

Lemma shr_1_step mrs :
  0 <= shr_m mrs ->
  exists b, (b = 0 \/ b = 1) /\ shr_m mrs = 2 * shr_m (shr_1 mrs) + b /\
    (b = 0 -> shr_r (shr_1 mrs) = false) /\
    shr_s (shr_1 mrs) = shr_r mrs || shr_s mrs.
Proof.
  destruct mrs as [m r s]; destruct m as [|[p|p|]|p]; cbn; intros H; try lia.
  - exists 0; repeat split; auto.
  - exists 1; repeat split; auto; lia.
  - exists 0; repeat split; auto.
  - exists 1; repeat split; auto; lia.
Qed.

Lemma iter_shr_1 m n :
  0 <= m ->
  let mrs := iter_pos shr_1 n (Build_shr_record m false false) in
  0 <= shr_m mrs /\
  exists rem, m = shr_m mrs * 2 ^ Zpos n + rem /\ 0 <= rem < 2 ^ Zpos n /\
    (rem = 0 -> loc_of_shr_record mrs = loc_Exact).
Proof.
  intros Hm.
  pose (Q := fun k mrs =>
    0 <= shr_m mrs /\
    exists rem, m = shr_m mrs * 2 ^ k + rem /\ 0 <= rem < 2 ^ k /\
      (rem = 0 -> shr_r mrs = false /\ shr_s mrs = false)).
  assert (H : Q (0 + Zpos n) (iter_pos shr_1 n (Build_shr_record m false false))).
  { apply iter_pos_steps; [|lia|].
    - intros k x Hk (Hx & rem & E & Hr & Hex).
      destruct (shr_1_step x Hx) as (b & Hb & Eb & Hb0 & Hs).
      split; [lia|].
      exists (b * 2 ^ k + rem).
      rewrite Z.pow_add_r by lia. change (2 ^ 1) with 2.
      pose proof (pow2_pos k Hk).
      split; [rewrite E, Eb; ring|].
      split; [destruct Hb; subst b; lia|].
      intros Hz. assert (b = 0 /\ rem = 0) as [-> ->] by (destruct Hb; subst b; lia).
      destruct (Hex eq_refl) as [Er Es].
      split; [now apply Hb0|]. now rewrite Hs, Er, Es.
    - split; [exact Hm|]. exists 0. cbn. repeat split; auto; lia. }
  cbn [Z.add] in H. destruct H as (H0 & rem & E & Hr & Hex).
  split; [exact H0|]. exists rem. repeat split; try lia.
  intros Hz. destruct (Hex Hz) as [Er Es].
  destruct (iter_pos _ _ _) as [m' r' s']. cbn in Er, Es. now subst.
Qed.

Lemma shr_fexp_canonical m e :
  canonical_mantissa prec emax m e = true ->
  shr_fexp prec emax (Zpos m) e loc_Exact = (Build_shr_record (Zpos m) false false, e).
Proof.
  unfold canonical_mantissa, shr_fexp; intros H; apply Z.eqb_eq in H.
  cbn [Zdigits2]. rewrite H, Z.sub_diag. reflexivity.
Qed.

Lemma binary_round_aux_canonical sx m e :
  canonical_mantissa prec emax m e = true ->
  binary_round_aux prec emax sx (Zpos m) e loc_Exact =
  if e <=? 971 then S754_finite sx m e else S754_infinity sx.
Proof.
  intros H; unfold binary_round_aux.
  rewrite (shr_fexp_canonical _ _ H). cbn [shr_m loc_of_shr_record round_nearest_even].
  rewrite (shr_fexp_canonical _ _ H). reflexivity.
Qed.

Lemma canonical_intro m e :
  Z.max (Zpos (digits2_pos m) + e - 53) (-1074) = e ->
  canonical_mantissa prec emax m e = true.
Proof.
  intros H; unfold canonical_mantissa, fexp, SpecFloat.emin, prec, emax.
  apply Z.eqb_eq. exact H.
Qed.

Lemma binary_round_cases sx px ez :
  -1074 <= ez ->
  exists mr er,
    canonical_mantissa prec emax mr er = true /\
    binary_round prec emax sx px ez =
      (if er <=? 971 then S754_finite sx mr er else S754_infinity sx) /\
    (Zpos mr * 2 ^ (er + 1074) = Zpos px * 2 ^ (ez + 1074) \/
     exists E m0, ez < E /\ 2 ^ 52 <= m0 /\
       m0 * 2 ^ (E + 1074) < Zpos px * 2 ^ (ez + 1074) < (m0 + 1) * 2 ^ (E + 1074) /\
       (Zpos mr * 2 ^ (er + 1074) = m0 * 2 ^ (E + 1074) \/
        Zpos mr * 2 ^ (er + 1074) = (m0 + 1) * 2 ^ (E + 1074))).
Proof.
  intros Hez. unfold binary_round.
  destruct (digits2_pos_bounds px) as [Hl Hu].
  set (d := Zpos (digits2_pos px)) in *.
  assert (EE : fexp prec emax (d + ez) = Z.max (d + ez - 53) (-1074)) by reflexivity.
  set (E := fexp prec emax (d + ez)) in *.
  destruct (Z_le_gt_dec E ez) as [HE|HE].
  - (* the mantissa fits: the value is kept *)
    pose proof (shl_align_fst px ez E HE) as Hf.
    pose proof (shl_align_snd px ez E HE) as Hs.
    destruct (shl_align px ez E) as [mz ez']. cbn [fst snd] in Hf, Hs. subst ez'.
    assert (Hd : Zpos (digits2_pos mz) = d + (ez - E)).
    { apply digits2_pos_unique. rewrite Hf.
      replace (d + (ez - E) - 1) with (d - 1 + (ez - E)) by lia.
      rewrite !pow2_add by lia.
      pose proof (pow2_pos (ez - E) ltac:(lia)).
      split; [apply Z.mul_le_mono_nonneg_r; lia | apply Z.mul_lt_mono_pos_r; lia]. }
    assert (C : canonical_mantissa prec emax mz E = true)
      by (apply canonical_intro; rewrite Hd; lia).
    exists mz, E. split; [exact C|]. split; [now apply binary_round_aux_canonical|].
    left. rewrite Hf, <- Z.mul_assoc, <- pow2_add by lia. do 2 f_equal. lia.
  - (* the mantissa is shifted to the right and rounded *)
    assert (Hd : 53 < d) by lia.
    assert (Ed : E = d + ez - 53) by lia.
    unfold shl_align. destruct (E - ez) as [|n|n] eqn:En; try lia.
    unfold binary_round_aux, shr_fexp at 1. cbn [Zdigits2]. fold d. fold E.
    rewrite En. cbn [shr_record_of_loc shr].
    destruct (iter_shr_1 (Zpos px) n ltac:(lia)) as (H0 & rem & Epx & Hrem & Hex).
    set (mrs := iter_pos shr_1 n _) in *.
    set (m0 := shr_m mrs) in *.
    pose proof (round_nearest_even_bounds m0 (loc_of_shr_record mrs)) as Hrne.
    set (m1 := round_nearest_even m0 (loc_of_shr_record mrs)) in *.
    assert (Hn : Zpos n = d - 53) by lia.
    pose proof (pow2_pos (Zpos n) ltac:(lia)) as HN.
    assert (Hm0 : 2 ^ 52 <= m0 < 2 ^ 53).
    { rewrite (pow2_split d (Zpos n)) in Hu by lia.
      rewrite (pow2_split (d - 1) (Zpos n)) in Hl by lia.
      replace (d - Zpos n) with 53 in Hu by lia.
      replace (d - 1 - Zpos n) with 52 in Hl by lia.
      set (N := 2 ^ Zpos n) in *.
      split.
      - destruct (Z_lt_le_dec m0 (2 ^ 52)) as [Hc|]; [|trivial].
        assert ((m0 + 1) * N <= 2 ^ 52 * N) by (apply Z.mul_le_mono_nonneg_r; lia).
        lia.
      - destruct (Z_lt_le_dec m0 (2 ^ 53)) as [|Hc]; [trivial|].
        assert (2 ^ 53 * N <= m0 * N) by (apply Z.mul_le_mono_nonneg_r; lia).
        lia. }
    assert (Eg : 2 ^ (E + 1074) = 2 ^ Zpos n * 2 ^ (ez + 1074)).
    { rewrite <- pow2_add by lia. f_equal. lia. }
    pose proof (pow2_pos (ez + 1074) ltac:(lia)) as HP.
    assert (EX : Zpos px * 2 ^ (ez + 1074) =
                 m0 * 2 ^ (E + 1074) + rem * 2 ^ (ez + 1074)).
    { rewrite Epx, Eg. ring. }
    assert (Hm1 : exists p1, m1 = Zpos p1).
    { destruct m1 as [|p1|p1]; try (cbn in Hm0; lia). now exists p1. }
    destruct Hm1 as (p1 & Ep1). rewrite Ep1.
    assert (Hval : forall mr er,
      Zpos mr * 2 ^ (er + 1074) = m1 * 2 ^ (E + 1074) ->
      Zpos mr * 2 ^ (er + 1074) = Zpos px * 2 ^ (ez + 1074) \/
      exists E' m0', ez < E' /\ 2 ^ 52 <= m0' /\
        m0' * 2 ^ (E' + 1074) < Zpos px * 2 ^ (ez + 1074) < (m0' + 1) * 2 ^ (E' + 1074) /\
        (Zpos mr * 2 ^ (er + 1074) = m0' * 2 ^ (E' + 1074) \/
         Zpos mr * 2 ^ (er + 1074) = (m0' + 1) * 2 ^ (E' + 1074))).
    { intros mr er Hv. rewrite Hv.
      destruct (Z.eq_dec rem 0) as [Hz|Hz].
      - left. rewrite EX, Hz. unfold m1. rewrite (Hex Hz). cbn [round_nearest_even]. lia.
      - right. exists E, m0. split; [lia|]. split; [lia|]. split.
        + rewrite EX.
          assert (0 < rem * 2 ^ (ez + 1074)) by (apply Z.mul_pos_pos; lia).
          assert (rem * 2 ^ (ez + 1074) < 2 ^ (E + 1074))
            by (rewrite Eg; apply Z.mul_lt_mono_pos_r; lia).
          lia.
        + assert (m1 = m0 \/ m1 = m0 + 1) as [->| ->] by lia; auto. }
    replace (ez + Zpos n) with E by lia.
    destruct (Z_lt_le_dec m1 (2 ^ 53)) as [Hlt|Hge].
    + assert (C : canonical_mantissa prec emax p1 E = true).
      { apply canonical_intro.
        rewrite (digits2_pos_unique p1 53) by (rewrite <- Ep1; cbn; lia). lia. }
      rewrite (shr_fexp_canonical _ _ C). cbn [shr_m].
      exists p1, E. split; [exact C|]. split; [reflexivity|].
      apply Hval. now rewrite Ep1.
    + assert (E1 : m1 = 2 ^ 53) by lia.
      assert (p1 = 9007199254740992%positive) by (rewrite E1 in Ep1; cbn in Ep1; lia).
      subst p1.
      unfold shr_fexp. cbn [Zdigits2 digits2_pos Pos.succ shr_record_of_loc].
      replace (fexp prec emax (54 + E) - E) with 1
        by (unfold fexp, SpecFloat.emin, prec, emax; lia).
      cbn [shr iter_pos shr_1 shr_m].
      exists 4503599627370496%positive, (E + 1).
      split; [apply canonical_intro; cbn [digits2_pos Pos.succ]; lia|].
      split; [reflexivity|].
      apply Hval. rewrite E1, (pow2_split (E + 1 + 1074) (E + 1074)) by lia.
      replace (E + 1 + 1074 - (E + 1074)) with 1 by lia.
      change (2 ^ 1) with 2. change (2 ^ 53) with (4503599627370496 * 2). ring.
Qed.

(* Rounding never crosses a representable value. *)
Lemma rounding_keeps_order mr er px ez m e :
  -1074 <= ez ->
  canonical_mantissa prec emax m e = true ->
  (Zpos mr * 2 ^ (er + 1074) = Zpos px * 2 ^ (ez + 1074) \/
   exists E m0, ez < E /\ 2 ^ 52 <= m0 /\
     m0 * 2 ^ (E + 1074) < Zpos px * 2 ^ (ez + 1074) < (m0 + 1) * 2 ^ (E + 1074) /\
     (Zpos mr * 2 ^ (er + 1074) = m0 * 2 ^ (E + 1074) \/
      Zpos mr * 2 ^ (er + 1074) = (m0 + 1) * 2 ^ (E + 1074))) ->
  (Zpos m * 2 ^ (e + 1074) <= Zpos px * 2 ^ (ez + 1074) ->
   Zpos m * 2 ^ (e + 1074) <= Zpos mr * 2 ^ (er + 1074)) /\
  (Zpos px * 2 ^ (ez + 1074) <= Zpos m * 2 ^ (e + 1074) ->
   Zpos mr * 2 ^ (er + 1074) <= Zpos m * 2 ^ (e + 1074)).
Proof.
  intros Hez C [->|(E & m0 & HE & Hm0 & HX & HR)]; [split; trivial|].
  set (X := Zpos px * 2 ^ (ez + 1074)) in *.
  set (R := Zpos mr * 2 ^ (er + 1074)) in *.
  pose proof (pow2_pos (E + 1074) ltac:(lia)) as Hg.
  destruct (canonical_facts _ _ C) as (He & _).
  destruct (Z_lt_le_dec e E) as [Hlt|Hge].
  - pose proof (canonical_below _ _ _ C Hlt) as Hb.
    assert (2 ^ 52 * 2 ^ (E + 1074) <= m0 * 2 ^ (E + 1074))
      by (apply Z.mul_le_mono_nonneg_r; lia).
    split; intros; lia.
  - assert (EV : Zpos m * 2 ^ (e + 1074) = Zpos m * 2 ^ (e - E) * 2 ^ (E + 1074)).
    { rewrite <- Z.mul_assoc, <- pow2_add by lia. do 2 f_equal. lia. }
    rewrite EV. set (K := Zpos m * 2 ^ (e - E)) in *.
    set (g := 2 ^ (E + 1074)) in *.
    split; intros HV.
    + assert (K < m0 + 1) by (apply (Z.mul_lt_mono_pos_r g); lia).
      assert (K * g <= m0 * g) by (apply Z.mul_le_mono_nonneg_r; lia).
      assert (m0 * g <= (m0 + 1) * g) by (apply Z.mul_le_mono_nonneg_r; lia).
      lia.
    + assert (m0 < K) by (apply (Z.mul_lt_mono_pos_r g); lia).
      assert ((m0 + 1) * g <= K * g) by (apply Z.mul_le_mono_nonneg_r; lia).
      assert (m0 * g <= (m0 + 1) * g) by (apply Z.mul_le_mono_nonneg_r; lia).
      lia.
Qed.

Lemma valid_finite s m e :
  valid_binary (S754_finite s m e) = true ->
  canonical_mantissa prec emax m e = true /\ e <= 971.
Proof.
  cbn [valid_binary]; unfold bounded; intros H.
  apply andb_prop in H; destruct H as [C B]. split; [exact C|].
  apply Z.leb_le in B. exact B.
Qed.

Lemma SFleb_refl_finite m e :
  canonical_mantissa prec emax m e = true ->
  SFleb (S754_finite false m e) (S754_finite false m e) = true.
Proof. intros C; apply SFleb_canonical; trivial; lia. Qed.

Lemma aligned_value m e ez :
  ez <= e -> -1074 <= ez ->
  Zpos (fst (shl_align m e ez)) * 2 ^ (ez + 1074) = Zpos m * 2 ^ (e + 1074).
Proof.
  intros H1 H2. rewrite shl_align_fst by lia.
  rewrite <- Z.mul_assoc, <- pow2_add by lia. do 2 f_equal. lia.
Qed.

(* adding a non-negative number never gives less *)
Lemma SFadd_ge x y :
  valid_binary x = true -> valid_binary y = true ->
  SFnonneg x = true -> SFnonneg y = true ->
  SFleb x (SFadd prec emax x y) = true.
Proof.
  destruct x as [sx|[]| |[] mx ex]; try discriminate;
  destruct y as [sy|[]| |[] my ey]; try discriminate; intros Vx Vy _ _;
    try reflexivity.
  - now destruct sx, sy.
  - apply SFleb_refl_finite. now apply valid_finite in Vx.
  - destruct (valid_finite _ _ _ Vx) as [Cx Bx], (valid_finite _ _ _ Vy) as [Cy By_].
    destruct (canonical_facts _ _ Cx) as (Hex & _), (canonical_facts _ _ Cy) as (Hey & _).
    unfold SFadd, cond_Zopp; cbv zeta. set (ez := Z.min ex ey).
    pose proof (aligned_value mx ex ez ltac:(lia) ltac:(lia)) as Ea.
    set (a := fst (shl_align mx ex ez)) in *.
    set (b := fst (shl_align my ey ez)) in *.
    change (Zpos a + Zpos b) with (Zpos (a + b)). cbn [binary_normalize].
    destruct (binary_round_cases false (a + b) ez ltac:(lia)) as (mr & er & C & -> & Hc).
    destruct (rounding_keeps_order mr er (a + b) ez mx ex ltac:(lia) Cx Hc) as [Hlow _].
    destruct (er <=? 971); [|reflexivity].
    apply SFleb_canonical; trivial. apply Hlow.
    rewrite <- Ea. apply Z.mul_le_mono_nonneg_r; [|lia].
    apply Z.lt_le_incl, pow2_pos; lia.
Qed.

Lemma SFleb_signed_true x m e :
  signed true x -> SFleb x (S754_finite false m e) = true.
Proof. now destruct 1. Qed.

(* taking a non-negative number away never gives more *)
Lemma SFsub_le x y :
  valid_binary x = true -> valid_binary y = true ->
  SFnonneg x = true -> SFnonneg y = true ->
  SFsub prec emax x y = S754_nan \/ SFleb (SFsub prec emax x y) x = true.
Proof.
  destruct x as [sx|[]| |[] mx ex]; try discriminate;
  destruct y as [sy|[]| |[] my ey]; try discriminate; intros Vx Vy _ _;
    try (right; reflexivity); try (left; reflexivity).
  - right; now destruct sx, sy.
  - right; apply SFleb_refl_finite. now apply valid_finite in Vx.
  - right.
    destruct (valid_finite _ _ _ Vx) as [Cx Bx], (valid_finite _ _ _ Vy) as [Cy By_].
    destruct (canonical_facts _ _ Cx) as (Hex & _), (canonical_facts _ _ Cy) as (Hey & _).
    unfold SFsub, cond_Zopp; cbv zeta. set (ez := Z.min ex ey).
    pose proof (aligned_value mx ex ez ltac:(lia) ltac:(lia)) as Ea.
    set (a := fst (shl_align mx ex ez)) in *.
    set (b := fst (shl_align my ey ez)) in *.
    destruct (Zpos a - Zpos b) as [|q|q] eqn:Ed; cbn [binary_normalize].
    + reflexivity.
    + destruct (binary_round_cases false q ez ltac:(lia)) as (mr & er & C & -> & Hc).
      destruct (rounding_keeps_order mr er q ez mx ex ltac:(lia) Cx Hc) as [_ Hup].
      assert (Hle : Zpos mr * 2 ^ (er + 1074) <= Zpos mx * 2 ^ (ex + 1074)).
      { apply Hup. rewrite <- Ea. apply Z.mul_le_mono_nonneg_r; [|lia].
        apply Z.lt_le_incl, pow2_pos; lia. }
      destruct (Z.leb_spec er 971) as [Her|Her].
      * now apply SFleb_canonical.
      * exfalso.
        pose proof (canonical_above _ _ C ltac:(lia)) as Ha.
        pose proof (canonical_below _ _ 972 Cx ltac:(lia)) as Hb.
        assert (2 ^ (972 + 1074) <= 2 ^ (er + 1074)) by (apply Z.pow_le_mono_r; lia).
        assert (2 ^ 52 * 2 ^ (972 + 1074) <= 2 ^ 52 * 2 ^ (er + 1074))
          by (apply Z.mul_le_mono_nonneg_l; [cbn|]; lia).
        lia.
    + apply SFleb_signed_true, binary_round_signed.
Qed.

(* taking a negative number away never gives less *)
Lemma SFsub_neg_ge x y :
  valid_binary x = true -> valid_binary y = true ->
  SFnonneg x = true -> SFltb y (S754_zero false) = true ->
  SFltb x y = false
  /\ SFnonneg (SFsub prec emax x y) = true
  /\ SFleb x (SFsub prec emax x y) = true.
Proof.
  destruct x as [sx|[]| |[] mx ex]; try discriminate;
  destruct y as [sy|[]| |[] my ey]; try discriminate; intros Vx Vy _ _;
    try (repeat split; reflexivity).
  destruct (valid_finite _ _ _ Vx) as [Cx Bx], (valid_finite _ _ _ Vy) as [Cy By_].
  destruct (canonical_facts _ _ Cx) as (Hex & _), (canonical_facts _ _ Cy) as (Hey & _).
  split; [reflexivity|].
  unfold SFsub, cond_Zopp; cbv zeta. set (ez := Z.min ex ey).
  pose proof (aligned_value mx ex ez ltac:(lia) ltac:(lia)) as Ea.
  set (a := fst (shl_align mx ex ez)) in *.
  set (b := fst (shl_align my ey ez)) in *.
  change (Zpos a - - Zpos b) with (Zpos (a + b)). cbn [binary_normalize].
  split; [apply signed_nonneg, binary_round_signed|].
  destruct (binary_round_cases false (a + b) ez ltac:(lia)) as (mr & er & C & -> & Hc).
  destruct (rounding_keeps_order mr er (a + b) ez mx ex ltac:(lia) Cx Hc) as [Hlow _].
  destruct (er <=? 971); [|reflexivity].
  apply SFleb_canonical; trivial. apply Hlow.
  rewrite <- Ea. apply Z.mul_le_mono_nonneg_r; [|lia].
  apply Z.lt_le_incl, pow2_pos; lia.
Qed.


(** The same facts on the primitive doubles. *)

Local Open Scope float_scope.

Lemma nonneg_spec x : (0 <=? x) = true -> SFnonneg (Prim2SF x) = true.
Proof.
  rewrite leb_spec. change (Prim2SF 0) with (S754_zero false).
  now destruct (Prim2SF x) as [s|[]| |[] m e].
Qed.

Lemma nonneg_intro x : SFnonneg (Prim2SF x) = true -> (0 <=? x) = true.
Proof.
  rewrite leb_spec. change (Prim2SF 0) with (S754_zero false).
  now destruct (Prim2SF x) as [s|[]| |[] m e].
Qed.

Lemma finite_spec x : (abs x <? infinity) = true -> SFfinite (Prim2SF x) = true.
Proof.
  rewrite ltb_spec, abs_spec. change (Prim2SF infinity) with (S754_infinity false).
  now destruct (Prim2SF x) as [s|[]| |[] m e].
Qed.

Lemma fadd_nonneg a b :
  (0 <=? a) = true -> (0 <=? b) = true -> (0 <=? a + b) = true.
Proof.
  intros Ha Hb; apply nonneg_intro. rewrite add_spec.
  apply SFadd_nonneg; now apply nonneg_spec.
Qed.

Lemma fsub_nonneg a b :
  (0 <=? a) = true -> (0 <=? b) = true -> (abs b <? infinity) = true ->
  (a <? b) = false -> (0 <=? a - b) = true.
Proof.
  intros Ha Hb Hf Hlt; apply nonneg_intro. rewrite sub_spec.
  rewrite ltb_spec in Hlt.
  apply SFsub_nonneg; auto using Prim2SF_valid, nonneg_spec, finite_spec.
Qed.


Lemma fadd_ge a b :
  (0 <=? a) = true -> (0 <=? b) = true -> (a <=? a + b) = true.
Proof.
  intros Ha Hb. rewrite leb_spec, add_spec.
  apply SFadd_ge; auto using Prim2SF_valid, nonneg_spec.
Qed.

Lemma fsub_le a b :
  (0 <=? a) = true -> (0 <=? b) = true ->
  is_nan (a - b) = true \/ (a - b <=? a) = true.
Proof.
  intros Ha Hb. unfold is_nan. rewrite leb_spec, eqb_spec, sub_spec.
  unfold SF64sub.
  destruct (SFsub_le (Prim2SF a) (Prim2SF b)) as [->|H];
    auto using Prim2SF_valid, nonneg_spec.
Qed.

Lemma SFeqb_refl x : x <> S754_nan -> SFeqb x x = true.
Proof.
  destruct x as [s|s| |s m e]; intros H; try reflexivity.
  - now destruct s.
  - now destruct H.
  - unfold SFeqb, SFcompare. rewrite Z.compare_refl.
    change (PosDef.Pos.compare_cont Eq m m) with (m ?= m)%positive.
    rewrite Pos.compare_refl. now destruct s.
Qed.

Lemma is_nan_spec a : is_nan a = true <-> Prim2SF a = S754_nan.
Proof.
  unfold is_nan. rewrite eqb_spec. split.
  - intros H. destruct (Prim2SF a) eqn:E; trivial;
      rewrite SFeqb_refl in H by discriminate; discriminate.
  - intros ->. reflexivity.
Qed.

Lemma nonneg_or_nan_spec a :
  (0 <=? a) = true \/ is_nan a = true ->
  SFnonneg (Prim2SF a) = true \/ Prim2SF a = S754_nan.
Proof.
  rewrite is_nan_spec, leb_spec.
  change (Prim2SF 0) with (S754_zero false).
  destruct (Prim2SF a) as [sx|[]| |[] mx ex]; cbn; intros [H|H];
    first [discriminate H | auto].
Qed.

Lemma nonneg_or_nan_intro a :
  SFnonneg (Prim2SF a) = true \/ Prim2SF a = S754_nan ->
  (0 <=? a) = true \/ is_nan a = true.
Proof.
  rewrite is_nan_spec, leb_spec.
  change (Prim2SF 0) with (S754_zero false).
  destruct (Prim2SF a) as [sx|[]| |[] mx ex]; cbn; intros [H|H];
    first [discriminate H | auto].
Qed.

Lemma fmul_nonneg_or_nan a b :
  (0 <=? a) = true \/ is_nan a = true ->
  (0 <=? b) = true \/ is_nan b = true ->
  (0 <=? a * b) = true \/ is_nan (a * b) = true.
Proof.
  intros Ha Hb. apply nonneg_or_nan_spec in Ha, Hb.
  apply nonneg_or_nan_intro. rewrite mul_spec. unfold SF64mul.
  destruct Ha as [Ha| ->]; [|now right].
  destruct Hb as [Hb| ->]; [|right; now destruct (Prim2SF a)].
  destruct (SFmul_nonneg_or_nan _ _ Ha Hb); auto.
Qed.

Lemma fadd_nonneg_or_nan a b :
  (0 <=? a) = true \/ is_nan a = true ->
  (0 <=? b) = true \/ is_nan b = true ->
  (0 <=? a + b) = true \/ is_nan (a + b) = true.
Proof.
  intros Ha Hb. apply nonneg_or_nan_spec in Ha, Hb.
  apply nonneg_or_nan_intro. rewrite add_spec. unfold SF64add.
  destruct Ha as [Ha| ->]; [|now right].
  destruct Hb as [Hb| ->]; [|right; now destruct (Prim2SF a)].
  left. now apply SFadd_nonneg.
Qed.

Lemma abs_nonneg_or_nan a : (0 <=? abs a) = true \/ is_nan (abs a) = true.
Proof.
  apply nonneg_or_nan_intro. rewrite abs_spec.
  destruct (Prim2SF a) as [sx|[]| |[] mx ex]; auto.
Qed.

Lemma nan_not_nonneg a : is_nan a = true -> (0 <=? a) = false.
Proof.
  intros H. apply is_nan_spec in H. rewrite leb_spec, H. reflexivity.
Qed.

Lemma nonneg_not_nan a : (0 <=? a) = true -> is_nan a = false.
Proof.
  intros H. destruct (is_nan a) eqn:E; [|reflexivity].
  rewrite (nan_not_nonneg _ E) in H. discriminate.
Qed.

Lemma nan_sub a b : is_nan a = true \/ is_nan b = true -> is_nan (a - b) = true.
Proof.
  rewrite !is_nan_spec, sub_spec. unfold SF64sub.
  intros [->| ->]; [reflexivity|]. now destruct (Prim2SF a) as [sx|[]| |[] mx ex].
Qed.

Lemma nan_add_r a b : is_nan b = true -> is_nan (a + b) = true.
Proof.
  rewrite !is_nan_spec, add_spec. unfold SF64add.
  intros ->. now destruct (Prim2SF a) as [sx|[]| |[] mx ex].
Qed.

Lemma leb_refl_nonneg a : (0 <=? a) = true -> (a <=? a) = true.
Proof.
  intros H. pose proof (Prim2SF_valid a) as V. revert H V.
  rewrite !leb_spec. change (Prim2SF 0) with (S754_zero false).
  destruct (Prim2SF a) as [sx|[]| |[] mx ex]; try discriminate; try reflexivity.
  intros _ V. apply SFleb_refl_finite. now apply valid_finite in V.
Qed.

Lemma ltb_leb a b : (a <? b) = true -> (a <=? b) = true.
Proof.
  rewrite ltb_spec, leb_spec. unfold SFltb, SFleb.
  now destruct (SFcompare (Prim2SF a) (Prim2SF b)) as [[]|].
Qed.

Lemma leb_false_ltb a b :
  (a <=? b) = false -> is_nan a = false -> is_nan b = false -> (b <? a) = true.
Proof.
  unfold is_nan. rewrite !eqb_spec, ltb_spec, leb_spec.
  destruct (Prim2SF a) as [sx|[]| |[] mx ex]; try discriminate;
  destruct (Prim2SF b) as [sy|[]| |[] my ey]; try discriminate; intros H _ _;
    try discriminate; try reflexivity;
    revert H; unfold SFltb, SFleb, SFcompare;
    destruct (Z.compare_spec ey ex), (Z.compare_spec ex ey); try lia;
      try discriminate; try reflexivity;
    change (PosDef.Pos.compare_cont Eq mx my) with (mx ?= my)%positive;
    change (PosDef.Pos.compare_cont Eq my mx) with (my ?= mx)%positive;
    rewrite (Pos.compare_antisym mx my);
    now destruct (mx ?= my)%positive.
Qed.


Lemma fsub_neg a b :
  (0 <=? a) = true -> (b <? 0) = true ->
  (a <? b) = false /\ (0 <=? a - b) = true /\ (a <=? a - b) = true.
Proof.
  intros Ha Hb. rewrite ltb_spec in Hb.
  change (Prim2SF 0) with (S754_zero false) in Hb.
  destruct (SFsub_neg_ge (Prim2SF a) (Prim2SF b)) as (H1 & H2 & H3);
    auto using Prim2SF_valid, nonneg_spec.
  split; [now rewrite ltb_spec|].
  split; [apply nonneg_intro; now rewrite sub_spec | now rewrite leb_spec, sub_spec].
Qed.

Lemma neg_not_nonneg b : (b <? 0) = true -> (0 <=? b) = false.
Proof.
  rewrite ltb_spec, leb_spec. change (Prim2SF 0) with (S754_zero false).
  now destruct (Prim2SF b) as [s|[]| |[] m e].
Qed.

End Binary64Arithmetic.
(** * The ledger over binary64 numbers: proofs *)

Set Warnings "-inexact-float,-notation-overridden".
Import B64.
Local Open Scope float_scope.

(** ** Balances and validators *)

Lemma get_set_balance_same64 b c v : get_balance (set_balance b c v) c = v.
Proof. destruct c; reflexivity. Qed.

Lemma get_set_balance_other64 b c c' v :
  c <> c' -> get_balance (set_balance b c v) c' = get_balance b c'.
Proof. destruct c, c'; try reflexivity; intros H; now destruct H. Qed.

Lemma validateUser_spec64 u :
  validateUser u = true <->
  (forall c, (0 <=? get_balance (balances u) c) = true)
  /\ (0 <=? capital (trading u)) = true
  /\ (0 <=? profit (trading u)) = true.
Proof.
  unfold validateUser. rewrite !andb_true_iff, forallb_forall. split.
  - intros [[Hb Hc] Hp]. split; [|split; assumption].
    intros c. apply Hb. destruct c; cbn; tauto.
  - intros (Hb & Hc & Hp). split; [split|]; auto.
Qed.

Lemma validateUser_set_balance64 u c v :
  validateUser u = true -> (0 <=? v) = true ->
  validateUser {| _id := _id u; balances := set_balance (balances u) c v;
                  trading := trading u; status := status u |} = true.
Proof.
  rewrite !validateUser_spec64. cbn [balances trading].
  intros (Hb & Hc & Hp) Hv. split; [|split; assumption].
  intros c'. destruct (currency_eqb c c') eqn:E.
  - apply currency_eqb_eq in E. subst c'. now rewrite get_set_balance_same64.
  - apply currency_eqb_neq in E. now rewrite get_set_balance_other64.
Qed.

Lemma validateUser_balance64 u c :
  validateUser u = true -> (0 <=? get_balance (balances u) c) = true.
Proof. intros H. apply validateUser_spec64 in H. apply H. Qed.

Lemma joi_positive_facts a :
  joi_positive a = true ->
  (0 <? a) = true /\ (0 <=? a) = true /\ (abs a <? infinity) = true.
Proof.
  unfold joi_positive. rewrite andb_true_iff. intros [H0 Hi].
  split; [exact H0|]. split; [now apply ltb_leb|].
  revert H0 Hi. rewrite !ltb_spec, abs_spec.
  change (Prim2SF 0) with (S754_zero false).
  change (Prim2SF infinity) with (S754_infinity false).
  now destruct (Prim2SF a) as [s|[]| |[] m e].
Qed.

(** ** Store lookups *)

Lemma findUser_id64 w uid u : findUser w uid = Some u -> _id u = uid.
Proof.
  unfold findUser. intros H. apply find_some in H. destruct H as [_ H].
  now apply Nat.eqb_eq in H.
Qed.

Lemma findUser_after_save64 w w' uid user user' :
  findUser w uid = Some user ->
  users w' = updateOne (fun x => Nat.eqb (_id x) uid) (fun _ => user') (users w) ->
  _id user' = uid ->
  findUser w' uid = Some user'.
Proof.
  unfold findUser. intros Hf -> Hid.
  eapply (find_updateOne_same _id); eauto.
Qed.

(** Symbolic execution of a handler: unfold the store operations. *)
Ltac run_handler64 :=
  unfold try_catch, bind, ret, throw, nonnull, User_findById, User_save,
    Notification_create, AuditLog_createLog.

Section Ledger64.

Variable rnd : nat -> float.
Variable generatedReference : Z -> float -> string.

Local Abbreviation storedReference := (B64.storedReference generatedReference).
Local Abbreviation Transaction_create := (B64.Transaction_create rnd generatedReference).
Local Abbreviation send := (B64.send rnd generatedReference).

(** ** [Transaction.create] *)

Lemma with_reference_same d : with_reference (t_reference d) d = d.
Proof. now destruct d. Qed.

Lemma Transaction_create_invalid now d w :
  validateTransaction d = false ->
  Transaction_create now d w = (w, Thrown ValidationError).
Proof.
  intros H. unfold B64.Transaction_create, bind, throw. now rewrite H.
Qed.

Lemma Transaction_create_valid now d w :
  validateTransaction d = true ->
  let reference := storedReference now (rnd (drawn w)) (t_reference d) in
  let k := if no_reference (t_reference d) then S (drawn w) else drawn w in
  Transaction_create now d w =
  if reference_taken (transactions w) reference
  then (with_drawn k w, Thrown DuplicateKeyError)
  else
    ({| users := users w; minings := minings w;
        transactions := transactions w ++
          [{| t_id := nextId w; t_doc := with_reference reference d |}];
        notifications := notifications w; auditLogs := auditLogs w;
        nextId := S (nextId w); drawn := k |},
     Returned {| t_id := nextId w; t_doc := with_reference reference d |}).
Proof.
  intros H. cbv zeta.
  unfold B64.Transaction_create, bind, ret, Transaction_preSave, Transaction_insert,
    B64.storedReference.
  rewrite H. destruct (no_reference (t_reference d)) eqn:E.
  - cbn [transactions with_drawn t_reference with_reference users minings
         notifications auditLogs nextId drawn].
    destruct (reference_taken _ _); reflexivity.
  - rewrite with_reference_same.
    destruct (reference_taken _ _); [now destruct w | reflexivity].
Qed.

(** ** Send *)

Lemma send_insufficient64 now w uid user body :
  findUser w uid = Some user ->
  (get_balance (balances user) (s_currency body) <? s_amount body) = true ->
  send now uid body w = (w, Failure 400 "INSUFFICIENT_BALANCE").
Proof.
  intros Hf Hlt. unfold B64.send. run_handler64. rewrite Hf. cbn. rewrite Hlt.
  reflexivity.
Qed.

Lemma validateUser_debited64 user c amount :
  validateUser user = true ->
  joi_positive amount = true ->
  (get_balance (balances user) c <? amount) = false ->
  validateUser (debitedUser user c amount) = true.
Proof.
  intros Hv Hp Hlt. destruct (joi_positive_facts _ Hp) as (_ & H0 & Hfin).
  apply validateUser_set_balance64; [exact Hv|].
  apply fsub_nonneg; auto using validateUser_balance64.
Qed.

Lemma send_sufficient64 now w uid user body :
  findUser w uid = Some user ->
  validateUser user = true ->
  (get_balance (balances user) (s_currency body) <? s_amount body) = false ->
  joi_positive (s_amount body) = true ->
  let reference := storedReference now (rnd (drawn w)) (s_reference body) in
  reference_taken (transactions w) reference = false ->
  send now uid body w =
  ({| users := updateOne (fun x => Nat.eqb (_id x) uid)
                 (fun _ => debitedUser user (s_currency body) (s_amount body))
                 (users w);
      minings := minings w;
      transactions := transactions w ++
        [{| t_id := nextId w;
            t_doc := {| t_user := uid; t_type := tx_send;
                        t_currency := Some (s_currency body);
                        t_amount := s_amount body;
                        t_fromCurrency := None; t_toCurrency := None;
                        t_convertedAmount := None; t_exchangeRate := None;
                        t_status := tx_completed;
                        t_reference := reference |} |}];
      notifications := notifications w ++
        [{| n_user := uid; n_type := nt_transaction;
            n_title := "Money Sent"; n_priority := pr_normal |}];
      auditLogs := auditLogs w ++
        [{| a_user := uid; a_action := aa_send_money;
            a_entityType := Some et_transaction;
            a_entityId := Some (nextId w) |}];
      nextId := S (nextId w);
      drawn := if no_reference (s_reference body) then S (drawn w) else drawn w |},
   Success 200).
Proof.
  intros Hf Hv Hlt Hp reference Href. subst reference.
  pose proof (findUser_id64 _ _ _ Hf) as Hid. subst uid.
  pose proof (validateUser_debited64 _ _ _ Hv Hp Hlt) as Hv'.
  destruct (joi_positive_facts _ Hp) as (_ & H0 & _).
  unfold B64.send. run_handler64. rewrite Hf. cbn. rewrite Hlt.
  unfold debitedUser in Hv'. rewrite Hv'.
  rewrite Transaction_create_valid
    by (unfold validateTransaction; cbn; now rewrite H0).
  cbn [t_reference transactions with_users drawn]. rewrite Href.
  reflexivity.
Qed.

(** A send whose reference is taken: the debit is saved, the hook has run,
    [Transaction.create] throws on the index, and the handler answers with
    its [catch] branch. *)
Lemma send_duplicate_reference64 now w uid user body :
  findUser w uid = Some user ->
  validateUser user = true ->
  (get_balance (balances user) (s_currency body) <? s_amount body) = false ->
  joi_positive (s_amount body) = true ->
  reference_taken (transactions w)
    (storedReference now (rnd (drawn w)) (s_reference body)) = true ->
  send now uid body w =
  (with_drawn (if no_reference (s_reference body) then S (drawn w) else drawn w)
     (with_users
        (updateOne (fun x => Nat.eqb (_id x) uid)
           (fun _ => debitedUser user (s_currency body) (s_amount body))
           (users w)) w),
   Failure 500 "TRANSACTION_FAILED").
Proof.
  intros Hf Hv Hlt Hp Href.
  pose proof (findUser_id64 _ _ _ Hf) as Hid. subst uid.
  pose proof (validateUser_debited64 _ _ _ Hv Hp Hlt) as Hv'.
  destruct (joi_positive_facts _ Hp) as (_ & H0 & _).
  unfold B64.send. run_handler64. rewrite Hf. cbn. rewrite Hlt.
  unfold debitedUser in Hv'. rewrite Hv'.
  rewrite Transaction_create_valid
    by (unfold validateTransaction; cbn; now rewrite H0).
  cbn [t_reference transactions with_users drawn]. rewrite Href.
  reflexivity.
Qed.

Lemma send_not_insufficient64 now w uid user body :
  findUser w uid = Some user ->
  (get_balance (balances user) (s_currency body) <? s_amount body) = false ->
  snd (send now uid body w) <> Failure 400 "INSUFFICIENT_BALANCE".
Proof.
  intros Hf Hlt.
  unfold B64.send. run_handler64. rewrite Hf. cbn. rewrite Hlt.
  destruct (validateUser _); cbn; [|discriminate].
  match goal with
  | |- context [B64.Transaction_create _ _ ?n ?d ?w] =>
      destruct (validateTransaction d) eqn:Hd;
      [rewrite Transaction_create_valid by exact Hd
      |rewrite Transaction_create_invalid by exact Hd]
  end; cbn; [|discriminate].
  destruct (reference_taken _ _); cbn; discriminate.
Qed.

(** C2 (amended).  For an authenticated account, [send] answers
    [INSUFFICIENT_BALANCE] exactly when the balance in the currency compares
    below the amount, and then the store is unchanged (so the balance is
    unchanged and no transaction is appended).  When the balance is not
    below the amount, the stored account is valid, the amount is a finite
    number above 0 (the route's schema) and the reference the transaction
    is stored with is not taken, the answer is 200, the stored balance is
    the binary64 difference [balance - amount], which is at least 0 and at
    most the old balance, and exactly one transaction, of status
    [completed] with the given amount and currency, is appended.  The
    difference is rounded: it need not be smaller than the old balance. *)
Theorem send_insufficient_balance_exactly_when now w uid user body :
  findUser w uid = Some user ->
  let c := s_currency body in
  let amount := s_amount body in
  let balance := get_balance (balances user) c in
  let w' := fst (send now uid body w) in
  let response := snd (send now uid body w) in
  (response = Failure 400 "INSUFFICIENT_BALANCE" <-> (balance <? amount) = true)
  /\ ((balance <? amount) = true -> w' = w)
  /\ ((balance <? amount) = false ->
      validateUser user = true ->
      joi_positive amount = true ->
      reference_taken (transactions w)
        (storedReference now (rnd (drawn w)) (s_reference body)) = false ->
      response = Success 200
      /\ (exists user',
            findUser w' uid = Some user'
            /\ get_balance (balances user') c = balance - amount
            /\ (0 <=? balance - amount) = true
            /\ (balance - amount <=? balance) = true)
      /\ (exists t : Transaction,
            transactions w' = transactions w ++ [t]
            /\ t_status t = tx_completed
            /\ t_amount t = amount
            /\ t_currency t = Some c
            /\ t_type t = tx_send
            /\ t_user t = uid
            /\ t_reference t
               = storedReference now (rnd (drawn w)) (s_reference body))).
Proof.
  intros Hf c amount balance w' response. subst c amount balance w' response.
  split; [split|split].
  - intros Hr.
    destruct (get_balance (balances user) (s_currency body) <? s_amount body)
      eqn:Hlt; [reflexivity|].
    exfalso. exact (send_not_insufficient64 _ _ _ _ _ Hf Hlt Hr).
  - intros Hlt. now rewrite (send_insufficient64 _ _ _ _ _ Hf Hlt).
  - intros Hlt. now rewrite (send_insufficient64 _ _ _ _ _ Hf Hlt).
  - intros Hlt Hv Hp Href.
    rewrite (send_sufficient64 _ _ _ _ _ Hf Hv Hlt Hp Href).
    cbn [fst snd]. split; [reflexivity|]. split.
    + eexists. split.
      * eapply findUser_after_save64;
          [exact Hf | reflexivity | exact (findUser_id64 _ _ _ Hf)].
      * cbn [debitedUser balances]. rewrite get_set_balance_same64.
        destruct (joi_positive_facts _ Hp) as (_ & H0 & Hfin).
        pose proof (validateUser_balance64 user (s_currency body) Hv) as Hb.
        pose proof (fsub_nonneg _ _ Hb H0 Hfin Hlt) as Hnn.
        split; [reflexivity|]. split; [exact Hnn|].
        destruct (fsub_le _ _ Hb H0) as [Hnan|Hle]; [|exact Hle].
        rewrite (nonneg_not_nan _ Hnn) in Hnan. discriminate.
    + eexists. cbn [transactions]. split; [reflexivity|]. cbn. repeat split.
Qed.

End Ledger64.

(** C2 on an account with 100 USD that sends 50 USD: the answer is 200, 50
    USD are left and one [completed] transaction of 50 USD is logged. *)
Lemma send_insufficient_balance_exactly_when_witness :
  let w := world_of (holder 100) in
  let body := sendUSD 50 None in
  let result := send (constantly 0.5) sampleReference 0 1 body w in
  findUser w 1 = Some (holder 100)
  /\ snd result = Success 200
  /\ (exists user',
        findUser (fst result) 1 = Some user'
        /\ get_balance (balances user') USD = 50)
  /\ exists t : Transaction,
       transactions (fst result) = [t]
       /\ t_status t = tx_completed /\ t_amount t = 50.
Proof.
  cbv zeta. split; [reflexivity|].
  destruct (proj2 (proj2 (send_insufficient_balance_exactly_when
                            (constantly 0.5) sampleReference 0
                            (world_of (holder 100)) 1 (holder 100)
                            (sendUSD 50 None) eq_refl)))
    as (Hr & (user' & Hf & Hb & _) & (t & Ht & Hs & Ha & _));
    [reflexivity | reflexivity | reflexivity | reflexivity |].
  split; [exact Hr|]. split.
  - exists user'. split; [exact Hf|]. etransitivity; [exact Hb | reflexivity].
  - exists t. split; [exact Ht|]. split; [exact Hs | exact Ha].
Defined.

(** C2 as stated fails: the balance need not decrease by the amount.  An
    account with [2^54] USD sends 1 USD: the guard lets the request through,
    the answer is 200, a [completed] transaction of 1 USD is logged, and the
    stored balance is [2^54] as before, since [2^54 - 1] rounds to
    [2^54]. *)
Lemma send_of_1_leaves_2_54 :
  let w := world_of (holder two54) in
  let result := send (constantly 0.5) sampleReference 0 1 (sendUSD 1 None) w in
  validateUser (holder two54) = true
  /\ joi_positive 1 = true
  /\ snd result = Success 200
  /\ findUser (fst result) 1 = Some (holder two54)
  /\ exists t : Transaction,
       transactions (fst result) = [t]
       /\ t_status t = tx_completed /\ t_amount t = 1 /\ t_currency t = Some USD.
Proof.
  cbv zeta. repeat split; try reflexivity.
  eexists. split; [reflexivity|]. repeat split.
Qed.

(** ** Transfer between currencies *)




Section Routes64.

Variable rnd : nat -> float.
Variable generatedReference : Z -> float -> string.

Local Abbreviation storedReference := (B64.storedReference generatedReference).
Local Abbreviation Transaction_create := (B64.Transaction_create rnd generatedReference).
Local Abbreviation transfer := (B64.transfer rnd generatedReference).
Local Abbreviation withdrawProfit := (B64.withdrawProfit rnd generatedReference).




(** ** Profit withdrawal *)

Lemma withdrawProfit_none64 now w uid user :
  findUser w uid = Some user ->
  (profit (trading user) <=? 0) = true ->
  withdrawProfit now uid w = (w, Failure 400 "NO_PROFIT").
Proof.
  intros Hf Hle.
  unfold B64.withdrawProfit. run_handler64. rewrite Hf. cbn. now rewrite Hle.
Qed.

Lemma validateUser_withdrawn64 user :
  validateUser user = true -> validateUser (withdrawnUser user) = true.
Proof.
  intros Hv. pose proof Hv as Hs. apply validateUser_spec64 in Hs.
  destruct Hs as (Hb & Hc & Hp).
  apply validateUser_spec64. unfold withdrawnUser. cbn [balances trading capital profit].
  split; [|split; [exact Hc | reflexivity]].
  intros c. destruct (currency_eqb USD c) eqn:E.
  - apply currency_eqb_eq in E. subst c. rewrite get_set_balance_same64.
    now apply fadd_nonneg.
  - apply currency_eqb_neq in E. now rewrite get_set_balance_other64.
Qed.

Lemma withdrawProfit_some64 now w uid user :
  findUser w uid = Some user ->
  validateUser user = true ->
  (profit (trading user) <=? 0) = false ->
  let reference := Some (generatedReference now (rnd (drawn w))) in
  reference_taken (transactions w) reference = false ->
  withdrawProfit now uid w =
  ({| users := updateOne (fun x => Nat.eqb (_id x) uid)
                 (fun _ => withdrawnUser user) (users w);
      minings := minings w;
      transactions := transactions w ++
        [{| t_id := nextId w;
            t_doc := {| t_user := uid; t_type := tx_trading;
                        t_currency := Some USD;
                        t_amount := profit (trading user);
                        t_fromCurrency := None; t_toCurrency := None;
                        t_convertedAmount := None; t_exchangeRate := None;
                        t_status := tx_completed;
                        t_reference := reference |} |}];
      notifications := notifications w ++
        [{| n_user := uid; n_type := nt_trading;
            n_title := "Profit Withdrawn"; n_priority := pr_high |}];
      auditLogs := auditLogs w ++
        [{| a_user := uid; a_action := aa_trading_profit;
            a_entityType := Some et_transaction;
            a_entityId := Some (nextId w) |}];
      nextId := S (nextId w);
      drawn := S (drawn w) |},
   Success 200).
Proof.
  intros Hf Hv Hlt reference Href. subst reference.
  pose proof (findUser_id64 _ _ _ Hf) as Hid. subst uid.
  pose proof (validateUser_withdrawn64 _ Hv) as Hv'.
  pose proof Hv as Hs. apply validateUser_spec64 in Hs. destruct Hs as (_ & _ & Hp).
  unfold B64.withdrawProfit. run_handler64. rewrite Hf.
  cbn -[validateUser B64.Transaction_create set_balance get_balance]. rewrite Hlt.
  unfold withdrawnUser in Hv'. rewrite Hv'.
  rewrite Transaction_create_valid
    by (unfold validateTransaction; cbn; now rewrite Hp).
  cbn [t_reference transactions with_users drawn no_reference B64.storedReference].
  rewrite Href. reflexivity.
Qed.

Lemma withdrawProfit_not_none64 now w uid user :
  findUser w uid = Some user ->
  (profit (trading user) <=? 0) = false ->
  snd (withdrawProfit now uid w) <> Failure 400 "NO_PROFIT".
Proof.
  intros Hf Hlt.
  unfold B64.withdrawProfit. run_handler64. rewrite Hf. cbn. rewrite Hlt.
  destruct (validateUser _); cbn; [|discriminate].
  match goal with
  | |- context [B64.Transaction_create _ _ ?n ?d ?w] =>
      destruct (validateTransaction d) eqn:Hd;
      [rewrite Transaction_create_valid by exact Hd
      |rewrite Transaction_create_invalid by exact Hd]
  end; cbn; [|discriminate].
  match goal with |- context [if ?b then _ else _] => destruct b end;
    cbn; discriminate.
Qed.

(** C6 (amended).  For an authenticated account, the withdrawal answers
    [NO_PROFIT] exactly when the trading profit compares at most 0, and then
    the store is unchanged.  When the profit is above 0, the stored account
    is valid and the generated reference is not taken, the answer is 200,
    the stored USD balance is the binary64 sum of the old USD balance and of
    the profit, which is at least the old balance, the trading profit
    becomes 0, one [completed] transaction of the profit is appended, and
    the other balances, the capital and the robot flag stay as they were.
    The sum is rounded: the USD balance need not grow by the profit. *)
Theorem withdrawProfit_moves_profit now w uid user :
  findUser w uid = Some user ->
  let w' := fst (withdrawProfit now uid w) in
  let response := snd (withdrawProfit now uid w) in
  let usd := get_balance (balances user) USD in
  (response = Failure 400 "NO_PROFIT" <-> (profit (trading user) <=? 0) = true)
  /\ ((profit (trading user) <=? 0) = true -> w' = w)
  /\ ((profit (trading user) <=? 0) = false ->
      validateUser user = true ->
      reference_taken (transactions w)
        (Some (generatedReference now (rnd (drawn w)))) = false ->
      response = Success 200
      /\ (exists user',
           findUser w' uid = Some user'
           /\ get_balance (balances user') USD = usd + profit (trading user)
           /\ (usd <=? usd + profit (trading user)) = true
           /\ profit (trading user') = 0
           /\ capital (trading user') = capital (trading user)
           /\ robotActive (trading user') = robotActive (trading user)
           /\ (forall c, c <> USD ->
                 get_balance (balances user') c = get_balance (balances user) c))
      /\ (exists t : Transaction,
            transactions w' = transactions w ++ [t]
            /\ t_status t = tx_completed
            /\ t_amount t = profit (trading user)
            /\ t_currency t = Some USD)).
Proof.
  intros Hf w' response usd. subst w' response usd.
  split; [split|split].
  - intros Hr.
    destruct (profit (trading user) <=? 0) eqn:Hle; [reflexivity|].
    exfalso. exact (withdrawProfit_not_none64 _ _ _ _ Hf Hle Hr).
  - intros Hle. now rewrite (withdrawProfit_none64 _ _ _ _ Hf Hle).
  - intros Hle. now rewrite (withdrawProfit_none64 _ _ _ _ Hf Hle).
  - intros Hlt Hv Href. rewrite (withdrawProfit_some64 _ _ _ _ Hf Hv Hlt Href).
    cbn [fst snd]. split; [reflexivity|]. split.
    + eexists. split.
      * eapply findUser_after_save64;
          [exact Hf | reflexivity | exact (findUser_id64 _ _ _ Hf)].
      * unfold withdrawnUser. cbn [balances trading capital profit robotActive].
        split; [apply get_set_balance_same64|].
        pose proof Hv as Hs. apply validateUser_spec64 in Hs.
        destruct Hs as (Hb & _ & Hp).
        split; [now apply fadd_ge|]. repeat split.
        intros c Hc. apply get_set_balance_other64. congruence.
    + eexists. cbn [transactions]. split; [reflexivity|]. cbn. repeat split.
Qed.

End Routes64.



(** C6 on an account with 100 USD and a trading profit of 25: the USD
    balance becomes 125 and the profit 0. *)
Lemma withdrawProfit_moves_profit_witness :
  let w := world_of (trader 100 10000 25) in
  let result := withdrawProfit (constantly 0.5) sampleReference 0 2 w in
  findUser w 2 = Some (trader 100 10000 25)
  /\ snd result = Success 200
  /\ exists user',
       findUser (fst result) 2 = Some user'
       /\ get_balance (balances user') USD = 125
       /\ profit (trading user') = 0.
Proof.
  cbv zeta. split; [reflexivity|].
  destruct (proj2 (proj2 (withdrawProfit_moves_profit (constantly 0.5)
                            sampleReference 0 (world_of (trader 100 10000 25)) 2
                            (trader 100 10000 25) eq_refl)))
    as (Hr & (user' & Hf & Husd & _ & Hp & _) & _);
    [reflexivity | reflexivity | reflexivity |].
  split; [exact Hr|]. exists user'. split; [exact Hf|]. split; [|exact Hp].
  etransitivity; [exact Husd | reflexivity].
Defined.

(** C6 as stated fails: the USD balance need not grow by the profit.  An
    account with [1e20] USD withdraws a profit of 21: the answer is 200, a
    transaction of 21 is logged, the profit is set to 0, and the USD balance
    is [1e20] as before, since [1e20 + 21] rounds to [1e20]. *)
Lemma withdrawn_profit_of_21_is_lost :
  let user := trader 1e20 10000 21 in
  let result := withdrawProfit (constantly 0.5) sampleReference 0 2 (world_of user) in
  validateUser user = true
  /\ snd result = Success 200
  /\ (exists user',
        findUser (fst result) 2 = Some user'
        /\ get_balance (balances user') USD = get_balance (balances user) USD
        /\ profit (trading user') = 0)
  /\ exists t : Transaction,
       transactions (fst result) = [t] /\ t_amount t = 21.
Proof.
  cbv zeta. split; [reflexivity|]. split; [reflexivity|]. split.
  - eexists. split; [reflexivity|]. split; reflexivity.
  - eexists. split; reflexivity.
Qed.

(** ** Completion sweep *)

Lemma validateMining_complete64 now tid m :
  is_nan (m_targetAmount m) = false ->
  validateMining (completeMining now tid m) = true.
Proof. intros H. unfold validateMining. cbn. now rewrite H. Qed.

Lemma validateMining_new64 now id uid c ty t :
  is_nan t = false -> validateMining (newMining now id uid c ty t) = true.
Proof. intros H. unfold validateMining. cbn. now rewrite H. Qed.

Lemma setAssigned_complete64 now tid m :
  setAssigned (completeMining now tid m) m = completeMining now tid m.
Proof. reflexivity. Qed.

Lemma validateUser_credited64 u c t :
  validateUser u = true -> (0 <=? t) = true ->
  validateUser (creditedUser u c t) = true.
Proof.
  intros Hv Ht. apply validateUser_set_balance64; [assumption|].
  apply fadd_nonneg; [now apply validateUser_balance64 | exact Ht].
Qed.

Lemma job_of_true64 uid c m :
  job_of uid c m = true <-> m_user m = uid /\ m_currency m = c.
Proof.
  unfold job_of. rewrite andb_true_iff, Nat.eqb_eq, currency_eqb_eq. tauto.
Qed.

Lemma get_balance_credited64 u c t c' :
  get_balance (balances (creditedUser u c t)) c'
  = if currency_eqb c c' then get_balance (balances u) c' + t
    else get_balance (balances u) c'.
Proof.
  unfold creditedUser. cbn [balances].
  destruct (currency_eqb c c') eqn:E.
  - apply currency_eqb_eq in E. subst. apply get_set_balance_same64.
  - apply currency_eqb_neq in E. now apply get_set_balance_other64.
Qed.

Section Sweep64.

Variable rnd : nat -> float.
Variable generatedReference : Z -> float -> string.

Local Abbreviation processMiningJob := (B64.processMiningJob rnd generatedReference).
Local Abbreviation processMiningJobs := (B64.processMiningJobs rnd generatedReference).
Local Abbreviation processMiningCycles := (B64.processMiningCycles rnd generatedReference).
Local Abbreviation rewardDoc := (B64.rewardDoc generatedReference).
Local Abbreviation fresh_references := (B64.fresh_references rnd generatedReference).
Local Abbreviation references_known := (B64.references_known rnd generatedReference).
Local Abbreviation overlap := (B64.overlap rnd generatedReference).

(** The store after an iteration that credits the owner and stops. *)
Local Abbreviation creditedOnly w m u :=
  (with_users
     (updateOne (fun x => Nat.eqb (_id x) (m_user m))
        (fun _ => creditedUser u (m_currency m) (m_targetAmount m))
        (users w)) w).

(** The store after an iteration that runs to its end. *)
Local Abbreviation completed now w m u :=
  {| users :=
       updateOne (fun x => Nat.eqb (_id x) (m_user m))
         (fun _ => creditedUser u (m_currency m) (m_targetAmount m))
         (users w);
     minings :=
       updateOne (fun x => Nat.eqb (m_id x) (m_id m))
         (setAssigned (completeMining now (nextId w) m))
         (minings w)
       ++ [newMining now (S (nextId w)) (m_user m) (m_currency m)
             (m_type m) (m_targetAmount m)];
     transactions :=
       transactions w
       ++ [{| t_id := nextId w; t_doc := rewardDoc now (rnd (drawn w)) m |}];
     notifications :=
       notifications w
       ++ [{| n_user := m_user m; n_type := nt_mining;
              n_title := "Mining Completed";
              n_priority := pr_normal |}];
     auditLogs :=
       auditLogs w
       ++ [{| a_user := m_user m; a_action := aa_mining_complete;
              a_entityType := Some et_mining;
              a_entityId := Some (m_id m) |}];
     nextId := S (S (nextId w));
     drawn := S (drawn w) |}.

(** One iteration of the sweep, as a function of what it reads: nothing
    is written when the owner is missing, is not active or fails the
    validators once credited; otherwise the owner is credited, and the
    iteration stops there when the validators refuse the reward transaction
    (no random value is read), stops there when the index refuses the
    generated reference, and runs to its end otherwise. *)
Lemma processMiningJob_eq64 now m w :
  processMiningJob now m w =
  match findUser w (m_user m) with
  | None => w
  | Some u =>
      if UserStatus_eqb (status u) active
         && validateUser (creditedUser u (m_currency m) (m_targetAmount m))
      then
        if 0 <=? m_targetAmount m
        then
          if reference_taken (transactions w)
               (Some (generatedReference now (rnd (drawn w))))
          then with_drawn (S (drawn w)) (creditedOnly w m u)
          else completed now w m u
        else creditedOnly w m u
      else w
  end.
Proof.
  unfold B64.processMiningJob, try_catch, bind, User_findById.
  destruct (findUser w (m_user m)) as [u|] eqn:Hf; [|reflexivity].
  pose proof (findUser_id64 _ _ _ Hf) as Hid.
  unfold User_save.
  change {| _id := _id u;
            balances := set_balance (balances u) (m_currency m)
                          (get_balance (balances u) (m_currency m) + m_targetAmount m);
            trading := trading u; status := status u |}
    with (creditedUser u (m_currency m) (m_targetAmount m)).
  destruct (UserStatus_eqb (status u) active) eqn:Hs; cbn [negb andb];
    [|reflexivity].
  destruct (validateUser _) eqn:Hv; [|reflexivity].
  destruct (0 <=? m_targetAmount m) eqn:Ht.
  - rewrite Transaction_create_valid
      by (unfold validateTransaction; cbn; now rewrite Ht).
    cbn [t_reference no_reference B64.storedReference transactions with_users drawn].
    destruct (reference_taken _ _) eqn:Href.
    + cbn [fst creditedUser _id]. rewrite Hid. reflexivity.
    + pose proof (nonneg_not_nan _ Ht) as Hn.
      unfold Mining_save. rewrite validateMining_complete64 by exact Hn.
      unfold Notification_create, AuditLog_createLog, Mining_createMiningOperation, ret.
      cbn [fst with_users with_minings users minings transactions notifications
           auditLogs nextId drawn _id t_id m_id completeMining creditedUser].
      rewrite validateMining_new64 by exact Hn.
      cbn [fst]. rewrite Hid. reflexivity.
  - rewrite Transaction_create_invalid
      by (unfold validateTransaction; cbn; now rewrite Ht).
    cbn [fst creditedUser _id]. rewrite Hid. reflexivity.
Qed.

(** The four ways one iteration of the sweep can end. *)
Lemma processMiningJob_cases64 now m w :
  processMiningJob now m w = w
  \/ exists u,
       findUser w (m_user m) = Some u
       /\ status u = active
       /\ validateUser (creditedUser u (m_currency m) (m_targetAmount m)) = true
       /\ ((0 <=? m_targetAmount m) = false
           /\ processMiningJob now m w = creditedOnly w m u
           \/ (0 <=? m_targetAmount m) = true
              /\ reference_taken (transactions w)
                   (Some (generatedReference now (rnd (drawn w)))) = true
              /\ processMiningJob now m w
                 = with_drawn (S (drawn w)) (creditedOnly w m u)
           \/ (0 <=? m_targetAmount m) = true
              /\ reference_taken (transactions w)
                   (Some (generatedReference now (rnd (drawn w)))) = false
              /\ processMiningJob now m w = completed now w m u).
Proof.
  rewrite processMiningJob_eq64.
  destruct (findUser w (m_user m)) as [u|] eqn:Hf; [|left; reflexivity].
  destruct (UserStatus_eqb (status u) active) eqn:Hs; cbn [andb];
    [|left; reflexivity].
  assert (Hact : status u = active) by (destruct (status u); auto; discriminate).
  destruct (validateUser _) eqn:Hv; [|left; reflexivity].
  right. exists u. split; [reflexivity|]. split; [exact Hact|]. split; [exact Hv|].
  destruct (0 <=? m_targetAmount m); [|left; split; reflexivity].
  right. destruct (reference_taken _ _); [left|right]; repeat split.
Qed.

Lemma processMiningJob_skip64 now m w :
  (forall u, findUser w (m_user m) = Some u -> status u <> active) ->
  processMiningJob now m w = w.
Proof.
  intros H. rewrite processMiningJob_eq64.
  destruct (findUser w (m_user m)) as [u|] eqn:Hf; [|reflexivity].
  specialize (H u eq_refl).
  destruct (status u); [congruence | reflexivity | reflexivity].
Qed.

(** An iteration for a job with an active, valid owner and a non-negative
    target, at a point where the generated reference is new, runs to its
    end. *)
Lemma processMiningJob_happy64 now m w u :
  findUser w (m_user m) = Some u ->
  status u = active ->
  validateUser u = true ->
  (0 <=? m_targetAmount m) = true ->
  reference_taken (transactions w)
    (Some (generatedReference now (rnd (drawn w)))) = false ->
  processMiningJob now m w = completed now w m u.
Proof.
  intros Hf Hs Hv Ht Href.
  rewrite processMiningJob_eq64, Hf, Hs, (validateUser_credited64 _ _ _ Hv Ht), Ht, Href.
  reflexivity.
Qed.

(** What one iteration does to the stored document of the owner of its
    job. *)
Lemma processMiningJob_owner64 now m w u :
  findUser w (m_user m) = Some u ->
  findUser (processMiningJob now m w) (m_user m)
  = Some (if UserStatus_eqb (status u) active
             && validateUser (creditedUser u (m_currency m) (m_targetAmount m))
          then creditedUser u (m_currency m) (m_targetAmount m)
          else u).
Proof.
  intros Hf. rewrite processMiningJob_eq64, Hf.
  destruct (_ && _); [|exact Hf].
  destruct (0 <=? m_targetAmount m); [destruct (reference_taken _ _)|];
    (eapply findUser_after_save64;
       [exact Hf | reflexivity | exact (findUser_id64 _ _ _ Hf)]).
Qed.

(** ... and to the stored document of any other account. *)
Lemma processMiningJob_not_owner64 now m w uid :
  uid <> m_user m ->
  findUser (processMiningJob now m w) uid = findUser w uid.
Proof.
  intros Hne. rewrite processMiningJob_eq64.
  destruct (findUser w (m_user m)) as [u|] eqn:Hf; [|reflexivity].
  destruct (_ && _); [|reflexivity].
  destruct (0 <=? m_targetAmount m); [destruct (reference_taken _ _)|];
    unfold findUser; cbn [users with_users with_drawn];
    (apply (find_updateOne_other _id);
       [congruence | intros; exact (findUser_id64 _ _ _ Hf)]).
Qed.

Lemma creditedBalance_cons uid c m l b :
  creditedBalance uid c (m :: l) b
  = creditedBalance uid c l (if job_of uid c m then b + m_targetAmount m else b).
Proof. reflexivity. Qed.

Lemma creditedBalance_none uid c l b :
  (forall m, In m l -> job_of uid c m = false) -> creditedBalance uid c l b = b.
Proof.
  revert b. induction l as [|m l IH]; intros b H; [reflexivity|].
  rewrite creditedBalance_cons, (H m (or_introl eq_refl)).
  apply IH. intros m' Hin. apply H. right. exact Hin.
Qed.

Lemma creditedBalance_app uid c l1 l2 b :
  creditedBalance uid c (l1 ++ l2) b
  = creditedBalance uid c l2 (creditedBalance uid c l1 b).
Proof. apply fold_left_app. Qed.

(** Accounting of a sweep over the snapshot [l]: the balance of a valid,
    active account in a currency goes through the additions of the targets
    of its jobs in that currency, in the order of the snapshot; the balance
    of an account that is not active does not change. *)
Lemma sweep_balance64 now uid c l :
  forall w u,
    findUser w uid = Some u ->
    validateUser u = true ->
    (forall m, In m l -> job_of uid c m = true -> (0 <=? m_targetAmount m) = true) ->
    exists u',
      findUser (processMiningJobs now l w) uid = Some u'
      /\ status u' = status u
      /\ validateUser u' = true
      /\ get_balance (balances u') c
         = if UserStatus_eqb (status u) active
           then creditedBalance uid c l (get_balance (balances u) c)
           else get_balance (balances u) c.
Proof.
  unfold B64.processMiningJobs.
  induction l as [|m l IH]; intros w u Hf Hv Ht.
  - exists u. cbn [fold_left creditedBalance]. repeat split; auto.
    now destruct (UserStatus_eqb _ _).
  - cbn [fold_left]. rewrite creditedBalance_cons.
    assert (Ht' : forall m', In m' l -> job_of uid c m' = true ->
                             (0 <=? m_targetAmount m') = true)
      by (intros m' Hin; apply Ht; right; exact Hin).
    destruct (Nat.eq_dec uid (m_user m)) as [Hu|Hu].
    + (* the owner of the job *)
      subst uid. pose proof (processMiningJob_owner64 now m w u Hf) as Hf1.
      destruct (UserStatus_eqb (status u) active) eqn:Hs; cbn [andb] in Hf1.
      * destruct (validateUser (creditedUser u (m_currency m) (m_targetAmount m)))
          eqn:Hv1.
        -- destruct (IH _ _ Hf1 Hv1 Ht') as (u' & Hf' & Hs' & Hv' & Hb').
           exists u'. split; [exact Hf'|]. split; [exact Hs'|]. split; [exact Hv'|].
           rewrite Hb'. cbn [status creditedUser]. rewrite Hs.
           f_equal. rewrite get_balance_credited64.
           unfold job_of. rewrite Nat.eqb_refl. cbn [andb]. reflexivity.
        -- destruct (IH _ _ Hf1 Hv Ht') as (u' & Hf' & Hs' & Hv' & Hb').
           exists u'. split; [exact Hf'|]. split; [exact Hs'|]. split; [exact Hv'|].
           rewrite Hb', Hs. f_equal.
           destruct (job_of (m_user m) c m) eqn:Hjob; [|reflexivity].
           exfalso. pose proof Hjob as Hc. apply job_of_true64 in Hc.
           destruct Hc as [_ Hc]. subst c.
           rewrite validateUser_credited64 in Hv1;
             [discriminate | exact Hv | apply Ht; [left; reflexivity | exact Hjob]].
      * destruct (IH _ _ Hf1 Hv Ht') as (u' & Hf' & Hs' & Hv' & Hb').
        exists u'. split; [exact Hf'|]. split; [exact Hs'|]. split; [exact Hv'|].
        rewrite Hb', Hs. reflexivity.
    + (* another account *)
      assert (Hf1 : findUser (processMiningJob now m w) uid = Some u)
        by (rewrite processMiningJob_not_owner64; assumption).
      destruct (IH _ _ Hf1 Hv Ht') as (u' & Hf' & Hs' & Hv' & Hb').
      exists u'. split; [exact Hf'|]. split; [exact Hs'|]. split; [exact Hv'|].
      rewrite Hb'. replace (job_of uid c m) with false; [reflexivity|].
      symmetry. unfold job_of. apply andb_false_iff. left.
      apply Nat.eqb_neq. congruence.
Qed.

(** ** One iteration of the sweep, seen from another job *)

Lemma findMining_step_other64 now m w id x :
  findMining w id = Some x -> id <> m_id m ->
  findMining (processMiningJob now m w) id = Some x.
Proof.
  intros Hf Hne.
  destruct (processMiningJob_cases64 now m w)
    as [E | (u' & _ & _ & _ & [[_ E] | [(_ & _ & E) | (_ & _ & E)]])]; rewrite E;
    [exact Hf | exact Hf | exact Hf |].
  unfold findMining. cbn [minings]. apply find_app_l.
  rewrite (find_updateOne_other m_id);
    [exact Hf | congruence | intros y Hy; exact Hy].
Qed.

Lemma nextId_step64 now m w : (nextId w <= nextId (processMiningJob now m w))%nat.
Proof.
  destruct (processMiningJob_cases64 now m w)
    as [E | (u' & _ & _ & _ & [[_ E] | [(_ & _ & E) | (_ & _ & E)]])]; rewrite E;
    cbn; lia.
Qed.

Lemma drawn_step64 now m w :
  (drawn w <= drawn (processMiningJob now m w) <= S (drawn w))%nat.
Proof.
  destruct (processMiningJob_cases64 now m w)
    as [E | (u' & _ & _ & _ & [[_ E] | [(_ & _ & E) | (_ & _ & E)]])]; rewrite E;
    cbn; lia.
Qed.

Lemma miningJobsOf_step_other64 now m w uid c :
  findMining w (m_id m) = Some m ->
  job_of uid c m = false ->
  miningJobsOf uid c (processMiningJob now m w) = miningJobsOf uid c w.
Proof.
  intros Hf Hjob.
  destruct (processMiningJob_cases64 now m w)
    as [E | (u' & _ & _ & _ & [[_ E] | [(_ & _ & E) | (_ & _ & E)]])]; rewrite E;
    [reflexivity | reflexivity | reflexivity |].
  unfold miningJobsOf. cbn [minings]. rewrite filter_app.
  assert (Hs : job_of uid c
                 (newMining now (S (nextId w)) (m_user m) (m_currency m)
                    (m_type m) (m_targetAmount m)) = false) by exact Hjob.
  cbn [filter]. rewrite Hs. cbn [andb]. rewrite app_nil_r.
  apply (filter_updateOne_keep _ _ _ _ m); [exact Hf | |].
  - now rewrite Hjob.
  - change (job_of uid c (setAssigned (completeMining now (nextId w) m) m))
      with (job_of uid c m). now rewrite Hjob.
Qed.

Lemma transactionsOf_app64 uid c l1 l2 :
  transactionsOf uid c (l1 ++ l2) = transactionsOf uid c l1 ++ transactionsOf uid c l2.
Proof. apply filter_app. Qed.

Lemma transactionsOf_step_other64 now m w uid c :
  job_of uid c m = false ->
  transactionsOf uid c (transactions (processMiningJob now m w))
  = transactionsOf uid c (transactions w).
Proof.
  intros Hjob.
  destruct (processMiningJob_cases64 now m w)
    as [E | (u' & _ & _ & _ & [[_ E] | [(_ & _ & E) | (_ & _ & E)]])]; rewrite E;
    [reflexivity | reflexivity | reflexivity |].
  cbn [transactions]. rewrite transactionsOf_app64.
  unfold transactionsOf at 2. cbn [filter].
  match goal with
  | |- context [if ?b then _ else _] => change b with (job_of uid c m)
  end.
  rewrite Hjob. apply app_nil_r.
Qed.

(** The references of the log stay known: a new transaction carries the
    reference generated from the position the stream was at. *)
Lemma references_known_step64 now k log m w :
  (k <= drawn w)%nat ->
  references_known now k log w ->
  references_known now k log (processMiningJob now m w).
Proof.
  intros Hk H.
  destruct (processMiningJob_cases64 now m w)
    as [E | (u' & _ & _ & _ & [[_ E] | [(_ & _ & E) | (_ & _ & E)]])]; rewrite E.
  - exact H.
  - exact H.
  - intros t Ht. cbn [transactions with_drawn with_users] in Ht.
    destruct (H t Ht) as [Hl | (i & Hi & Hr)]; [left; exact Hl|].
    right. exists i. cbn [drawn with_drawn]. split; [lia | exact Hr].
  - intros t Ht. cbn [transactions] in Ht. apply in_app_or in Ht.
    destruct Ht as [Ht|[<-|[]]].
    + destruct (H t Ht) as [Hl | (i & Hi & Hr)]; [left; exact Hl|].
      right. exists i. cbn [drawn]. split; [lia | exact Hr].
    + right. exists (drawn w). cbn [drawn]. split; [lia | reflexivity].
Qed.

Lemma references_known_jobs64 now k log l :
  forall w,
    (k <= drawn w)%nat ->
    references_known now k log w ->
    references_known now k log (processMiningJobs now l w)
    /\ (drawn w <= drawn (processMiningJobs now l w) <= drawn w + List.length l)%nat.
Proof.
  unfold B64.processMiningJobs.
  induction l as [|m l IH]; intros w Hk H; cbn [fold_left List.length].
  - split; [exact H | lia].
  - pose proof (drawn_step64 now m w) as Hd.
    destruct (IH (processMiningJob now m w)) as [H1 H2].
    + lia.
    + now apply references_known_step64.
    + split; [exact H1 | lia].
Qed.

Lemma reference_taken_true (log : list Transaction) s :
  reference_taken log (Some s) = true ->
  exists t : Transaction, In t log /\ t_reference t = Some s.
Proof.
  cbn [reference_taken]. intros H. apply existsb_exists in H.
  destruct H as (t & Hin & Ht). exists t. split; [exact Hin|].
  destruct (t_reference t) as [s'|]; [|discriminate].
  apply String.eqb_eq in Ht. now subst.
Qed.

Lemma reference_taken_In (log : list Transaction) (t : Transaction) s :
  In t log -> t_reference t = Some s -> reference_taken log (Some s) = true.
Proof.
  intros Hin Hr. cbn [reference_taken]. apply existsb_exists.
  exists t. split; [exact Hin|]. rewrite Hr. apply String.eqb_refl.
Qed.

(** Where the references are known and the generated ones are fresh, the
    next generated reference is not taken. *)
Lemma fresh_reference_next64 now k n log w :
  fresh_references now k n log ->
  references_known now k log w ->
  (k <= drawn w < k + n)%nat ->
  reference_taken (transactions w)
    (Some (generatedReference now (rnd (drawn w)))) = false.
Proof.
  intros [Hnew Hinj] Hknown Hk.
  destruct (reference_taken _ _) eqn:E; [|reflexivity].
  exfalso. apply reference_taken_true in E. destruct E as (t & Hin & Hr).
  destruct (Hknown t Hin) as [Hl | (i & Hi & Hr')].
  - pose proof (Hnew (drawn w) Hk) as Hn.
    rewrite (reference_taken_In log t _ Hl Hr) in Hn. discriminate.
  - rewrite Hr in Hr'. injection Hr' as Hr'.
    apply Hinj in Hr'; lia.
Qed.

(** A sweep over jobs that are not jobs of [uid] in [c] leaves alone
    whatever belongs to [uid] and [c], and every stored job it does not
    handle. *)
Lemma sweep_others64 now uid c l :
  forall w,
    NoDup (map m_id l) ->
    (forall m, In m l -> job_of uid c m = false) ->
    (forall m, In m l -> findMining w (m_id m) = Some m) ->
    miningJobsOf uid c (processMiningJobs now l w) = miningJobsOf uid c w
    /\ transactionsOf uid c (transactions (processMiningJobs now l w))
       = transactionsOf uid c (transactions w)
    /\ (forall id x, findMining w id = Some x -> ~ In id (map m_id l) ->
                     findMining (processMiningJobs now l w) id = Some x)
    /\ (nextId w <= nextId (processMiningJobs now l w))%nat.
Proof.
  unfold B64.processMiningJobs.
  induction l as [|m l IH]; intros w Hnd Hother Hstored.
  - cbn [fold_left]. repeat split; auto.
  - inversion Hnd as [|? ? Hnotin Hnd']; subst. cbn [fold_left].
    destruct (IH (processMiningJob now m w) Hnd') as (Hjobs & Htx & Hfind & Hid).
    + intros m' Hin. apply Hother. right. exact Hin.
    + intros m' Hin. apply findMining_step_other64.
      * apply Hstored. right. exact Hin.
      * intros Heq. apply Hnotin. rewrite <- Heq. now apply in_map.
    + split; [|split; [|split]].
      * rewrite Hjobs. apply miningJobsOf_step_other64.
        -- apply Hstored. left. reflexivity.
        -- apply Hother. left. reflexivity.
      * rewrite Htx. apply transactionsOf_step_other64.
        apply Hother. left. reflexivity.
      * intros id x Hx Hn. apply Hfind.
        -- apply findMining_step_other64; [exact Hx|].
           intros Heq. apply Hn. left. congruence.
        -- intros Hin. apply Hn. right. exact Hin.
      * pose proof (nextId_step64 now m w). lia.
Qed.

Lemma findMining_happy64 now m w u :
  findUser w (m_user m) = Some u -> status u = active ->
  validateUser u = true -> (0 <=? m_targetAmount m) = true ->
  reference_taken (transactions w)
    (Some (generatedReference now (rnd (drawn w)))) = false ->
  findMining w (m_id m) = Some m ->
  findMining (processMiningJob now m w) (m_id m)
  = Some (completeMining now (nextId w) m).
Proof.
  intros Hf Hs Hv Ht Href Hm.
  rewrite (processMiningJob_happy64 now m w u Hf Hs Hv Ht Href).
  unfold findMining. cbn [minings]. apply find_app_l.
  rewrite (find_updateOne_hit _ _ _ m Hm); [reflexivity|].
  cbn [setAssigned m_id]. apply Nat.eqb_refl.
Qed.

Lemma miningJobsOf_happy64 now m w u :
  findUser w (m_user m) = Some u -> status u = active ->
  validateUser u = true -> (0 <=? m_targetAmount m) = true ->
  reference_taken (transactions w)
    (Some (generatedReference now (rnd (drawn w)))) = false ->
  findMining w (m_id m) = Some m ->
  miningJobsOf (m_user m) (m_currency m) w = [m] ->
  miningJobsOf (m_user m) (m_currency m) (processMiningJob now m w)
  = [newMining now (S (nextId w)) (m_user m) (m_currency m) (m_type m)
       (m_targetAmount m)].
Proof.
  intros Hf Hs Hv Ht Href Hm Hone.
  rewrite (processMiningJob_happy64 now m w u Hf Hs Hv Ht Href).
  unfold miningJobsOf in *. cbn [minings]. rewrite filter_app.
  rewrite (filter_updateOne_drop _ _ _ _ m Hone Hm).
  - cbn [app filter]. unfold job_of. cbn [newMining m_user m_currency m_status is_mining].
    rewrite Nat.eqb_refl.
    replace (currency_eqb (m_currency m) (m_currency m)) with true
      by (symmetry; now apply currency_eqb_eq).
    reflexivity.
  - cbn [setAssigned completeMining m_status is_mining]. apply andb_false_r.
Qed.

Lemma transactionsOf_happy64 now m w u :
  findUser w (m_user m) = Some u -> status u = active ->
  validateUser u = true -> (0 <=? m_targetAmount m) = true ->
  reference_taken (transactions w)
    (Some (generatedReference now (rnd (drawn w)))) = false ->
  transactionsOf (m_user m) (m_currency m)
    (transactions (processMiningJob now m w))
  = transactionsOf (m_user m) (m_currency m) (transactions w)
    ++ [{| t_id := nextId w; t_doc := rewardDoc now (rnd (drawn w)) m |}].
Proof.
  intros Hf Hs Hv Ht Href.
  rewrite (processMiningJob_happy64 now m w u Hf Hs Hv Ht Href).
  cbn [transactions]. rewrite transactionsOf_app64. f_equal.
  unfold transactionsOf. cbn [filter t_doc t_user t_currency B64.rewardDoc].
  rewrite Nat.eqb_refl.
  replace (currency_eqb (m_currency m) (m_currency m)) with true
    by (symmetry; now apply currency_eqb_eq).
  reflexivity.
Qed.

(** ** A job whose owner is missing or not active *)

Lemma inactive_owner_step64 now m w uid :
  (forall u, findUser w uid = Some u -> status u <> active) ->
  findUser (processMiningJob now m w) uid = findUser w uid.
Proof.
  intros H. destruct (Nat.eq_dec uid (m_user m)) as [->|Hne].
  - now rewrite processMiningJob_skip64.
  - now apply processMiningJob_not_owner64.
Qed.

Lemma job_of_other_owner64 uid c m : m_user m <> uid -> job_of uid c m = false.
Proof.
  intros H. unfold job_of. apply andb_false_iff. left. now apply Nat.eqb_neq.
Qed.

(** A sweep leaves alone whatever belongs to an account that is missing or
    not active, its jobs included. *)
Lemma sweep_inactive64 now uid l :
  forall w,
    (forall u, findUser w uid = Some u -> status u <> active) ->
    NoDup (map m_id l) ->
    (forall m, In m l -> findMining w (m_id m) = Some m) ->
    findUser (processMiningJobs now l w) uid = findUser w uid
    /\ (forall c, miningJobsOf uid c (processMiningJobs now l w)
                  = miningJobsOf uid c w)
    /\ (forall c, transactionsOf uid c (transactions (processMiningJobs now l w))
                  = transactionsOf uid c (transactions w))
    /\ (forall id x, findMining w id = Some x ->
                     (forall m, In m l -> m_id m = id -> m_user m = uid) ->
                     findMining (processMiningJobs now l w) id = Some x).
Proof.
  unfold B64.processMiningJobs.
  induction l as [|m l IH]; intros w Hin Hnd Hstored.
  - cbn [fold_left]. repeat split; auto.
  - inversion Hnd as [|? ? Hnotin Hnd']; subst. cbn [fold_left].
    pose proof (inactive_owner_step64 now m w uid Hin) as Hu.
    destruct (IH (processMiningJob now m w)) as (Hf & Hjobs & Htx & Hfind).
    + intros u. rewrite Hu. apply Hin.
    + exact Hnd'.
    + intros m' Hm'. apply findMining_step_other64.
      * apply Hstored. right. exact Hm'.
      * intros Heq. apply Hnotin. rewrite <- Heq. now apply in_map.
    + destruct (Nat.eq_dec (m_user m) uid) as [Heq|Hne].
      * (* a job of the account itself: skipped *)
        assert (E : processMiningJob now m w = w)
          by (apply processMiningJob_skip64; rewrite Heq; exact Hin).
        rewrite E in *. split; [exact Hf|]. split; [exact Hjobs|].
        split; [exact Htx|].
        intros id x Hx Hown. apply Hfind; [exact Hx|].
        intros m' Hm'. apply Hown. right. exact Hm'.
      * split; [now rewrite Hf|]. split; [|split].
        -- intros c. rewrite Hjobs. apply miningJobsOf_step_other64.
           ++ apply Hstored. left. reflexivity.
           ++ now apply job_of_other_owner64.
        -- intros c. rewrite Htx. apply transactionsOf_step_other64.
           now apply job_of_other_owner64.
        -- intros id x Hx Hown. apply Hfind.
           ++ apply findMining_step_other64; [exact Hx|].
              intros Heq. apply Hne. apply Hown; [left; reflexivity | now symmetry].
           ++ intros m' Hm'. apply Hown. right. exact Hm'.
Qed.

Lemma NoDup_same_id (l : list Mining) x y :
  NoDup (map m_id l) -> In x l -> In y l -> m_id x = m_id y -> x = y.
Proof.
  induction l as [|a l IH]; intros Hnd Hx Hy Heq; [contradiction|].
  inversion Hnd as [|? ? Hnotin Hnd']; subst.
  destruct Hx as [->|Hx], Hy as [->|Hy]; auto.
  - exfalso. apply Hnotin. rewrite Heq. now apply in_map.
  - exfalso. apply Hnotin. rewrite <- Heq. now apply in_map.
Qed.

(** C3 (amended).  Take a job in [mining] status in a store whose job ids
    are distinct, and run one completion sweep.

    When the owning account is missing or not active, the job is skipped:
    it stays in [mining] status as it was, and the account, its
    transactions and its jobs in [mining] status are as before.

    When the owning account is active and valid, the target is at least 0,
    the job is the only one in [mining] status of its account and currency,
    and the references that the sweep can generate are new and distinct,
    the sweep stores the binary64 sum of the balance in the job's currency
    and of the target, leaves the job [completed] with
    [minedAmount = targetAmount], [progress = 100] and [endTime] stamped,
    appends exactly one transaction of that account and currency (the
    reward, under a generated reference), and leaves exactly one job of that
    account and currency in [mining] status: the successor, with the same
    target. *)
Theorem sweep_completes_job now w j :
  NoDup (map m_id (minings w)) ->
  In j (minings w) ->
  m_status j = st_mining ->
  let w' := processMiningCycles now w in
  ((forall u, findUser w (m_user j) = Some u -> status u <> active) ->
   findMining w' (m_id j) = Some j
   /\ findUser w' (m_user j) = findUser w (m_user j)
   /\ (forall c, transactionsOf (m_user j) c (transactions w')
                 = transactionsOf (m_user j) c (transactions w))
   /\ (forall c, miningJobsOf (m_user j) c w' = miningJobsOf (m_user j) c w))
  /\ (forall u,
        findUser w (m_user j) = Some u ->
        status u = active ->
        validateUser u = true ->
        (0 <=? m_targetAmount j) = true ->
        (forall m, In m (minings w) -> m_status m = st_mining ->
                   m_user m = m_user j -> m_currency m = m_currency j -> m = j) ->
        fresh_references now (drawn w) (List.length (Mining_findActive w))
          (transactions w) ->
        exists tid k u',
          (nextId w <= tid)%nat
          /\ (drawn w <= k < drawn w + List.length (Mining_findActive w))%nat
          /\ findMining w' (m_id j) = Some (completeMining now tid j)
          /\ m_status (completeMining now tid j) = st_completed
          /\ m_minedAmount (completeMining now tid j) = m_targetAmount j
          /\ m_progress (completeMining now tid j) = 100
          /\ m_endTime (completeMining now tid j) = Some now
          /\ findUser w' (m_user j) = Some u'
          /\ get_balance (balances u') (m_currency j)
             = get_balance (balances u) (m_currency j) + m_targetAmount j
          /\ transactionsOf (m_user j) (m_currency j) (transactions w')
             = transactionsOf (m_user j) (m_currency j) (transactions w)
               ++ [{| t_id := tid; t_doc := rewardDoc now (rnd k) j |}]
          /\ miningJobsOf (m_user j) (m_currency j) w'
             = [newMining now (S tid) (m_user j) (m_currency j) (m_type j)
                  (m_targetAmount j)]).
Proof.
  intros Hnd Hin Hst w'. subst w'.
  set (uid := m_user j) in *. set (c := m_currency j) in *.
  unfold B64.processMiningCycles.
  assert (Hsnap : In j (Mining_findActive w)).
  { apply filter_In. split; [exact Hin|]. rewrite Hst. reflexivity. }
  assert (Hnds0 : NoDup (map m_id (Mining_findActive w)))
    by (apply NoDup_keys_filter; exact Hnd).
  assert (Hstored : forall m, In m (minings w) -> findMining w (m_id m) = Some m).
  { intros m Hm. unfold findMining. now apply (find_by_id_unique m_id). }
  assert (Hsnap_in : forall m, In m (Mining_findActive w) ->
                       In m (minings w) /\ m_status m = st_mining).
  { intros m Hm. apply filter_In in Hm. destruct Hm as [Hm1 Hm2].
    split; [exact Hm1|]. destruct (m_status m); auto; discriminate. }
  split.
  { (* skipped *)
    intros Hinactive.
    destruct (sweep_inactive64 now uid (Mining_findActive w) w Hinactive Hnds0)
      as (Hf & Hjobs & Htx & Hfind).
    - intros m Hm. apply Hstored. now apply Hsnap_in.
    - split; [|split; [exact Hf | split; [exact Htx | exact Hjobs]]].
      apply Hfind; [now apply Hstored|].
      intros m Hm Heq.
      replace m with j; [reflexivity|].
      symmetry. eapply NoDup_same_id; eauto. }
  intros u Hf Hact Hv Ht Hone Hfresh.
  destruct (in_split _ _ Hsnap) as (l1 & l2 & Hsplit).
  assert (Hnds : NoDup (map m_id (l1 ++ j :: l2))) by (rewrite <- Hsplit; exact Hnds0).
  rewrite map_app in Hnds. cbn [map] in Hnds.
  pose proof (NoDup_remove_1 _ _ _ Hnds) as Hnd12.
  pose proof (NoDup_remove_2 _ _ _ Hnds) as Hj12.
  assert (Hnd1 : NoDup (map m_id l1)) by (eapply NoDup_app_remove_r; exact Hnd12).
  assert (Hnd2 : NoDup (map m_id l2)) by (eapply NoDup_app_remove_l; exact Hnd12).
  assert (Hj1 : ~ In (m_id j) (map m_id l1))
    by (intro; apply Hj12; apply in_or_app; left; assumption).
  assert (Hj2 : ~ In (m_id j) (map m_id l2))
    by (intro; apply Hj12; apply in_or_app; right; assumption).
  assert (Hmem : forall m, In m l1 \/ In m l2 ->
                   In m (minings w) /\ m_status m = st_mining /\ m_id m <> m_id j).
  { intros m Hm.
    assert (Hms : In m (Mining_findActive w)).
    { rewrite Hsplit. apply in_or_app. destruct Hm; [left|right; right]; assumption. }
    destruct (Hsnap_in m Hms) as [Hm1 Hm2].
    split; [exact Hm1|]. split; [exact Hm2|].
    intros Heq. destruct Hm as [Hm|Hm].
    - apply Hj1. rewrite <- Heq. now apply in_map.
    - apply Hj2. rewrite <- Heq. now apply in_map. }
  assert (Hother : forall m, In m l1 \/ In m l2 -> job_of uid c m = false).
  { intros m Hm. destruct (Hmem m Hm) as (Hm1 & Hm2 & Hm3).
    destruct (job_of uid c m) eqn:E; [|reflexivity].
    apply job_of_true64 in E. destruct E as [E1 E2].
    exfalso. apply Hm3. f_equal. now apply Hone. }
  rewrite Hsplit in *. unfold B64.processMiningJobs. rewrite fold_left_app.
  cbn [fold_left].
  fold (processMiningJobs now l1 w).
  set (w1 := processMiningJobs now l1 w).
  fold (processMiningJobs now l2 (processMiningJob now j w1)).
  (* before [j] *)
  destruct (sweep_others64 now uid c l1 w Hnd1) as (Hjobs1 & Htx1 & Hfind1 & Hid1).
  { intros m Hm. apply Hother. left. exact Hm. }
  { intros m Hm. apply Hstored. apply (Hmem m). left. exact Hm. }
  fold w1 in Hjobs1, Htx1, Hfind1, Hid1.
  destruct (sweep_balance64 now uid c l1 w u Hf Hv) as (u1 & Hf1 & Hs1 & Hv1 & Hb1).
  { intros m Hm Hjob. rewrite (Hother m (or_introl Hm)) in Hjob. discriminate. }
  fold w1 in Hf1. rewrite Hact in Hs1.
  destruct (references_known_jobs64 now (drawn w) (transactions w) l1 w)
    as [Hknown1 Hdrawn1]; [lia | intros t Ht0; left; exact Ht0 |].
  fold w1 in Hknown1, Hdrawn1.
  rewrite length_app in Hfresh. cbn [List.length] in Hfresh.
  assert (Href1 : reference_taken (transactions w1)
                    (Some (generatedReference now (rnd (drawn w1)))) = false).
  { eapply fresh_reference_next64; [exact Hfresh | exact Hknown1 | lia]. }
  assert (Hjstored : findMining w1 (m_id j) = Some j)
    by (apply Hfind1; [now apply Hstored | exact Hj1]).
  assert (Hjonly : miningJobsOf uid c w = [j]).
  { unfold miningJobsOf. apply filter_singleton.
    - eapply NoDup_of_map. exact Hnd.
    - exact Hin.
    - unfold job_of, uid, c. rewrite Nat.eqb_refl, Hst.
      replace (currency_eqb (m_currency j) (m_currency j)) with true
        by (symmetry; now apply currency_eqb_eq).
      reflexivity.
    - intros y Hy HP. apply andb_true_iff in HP. destruct HP as [HP1 HP2].
      apply job_of_true64 in HP1. destruct HP1.
      apply Hone; auto. destruct (m_status y); auto; discriminate. }
  (* [j] itself *)
  set (w2 := processMiningJob now j w1).
  assert (Hjdone : findMining w2 (m_id j) = Some (completeMining now (nextId w1) j))
    by (apply (findMining_happy64 now j w1 u1); assumption).
  assert (Hjobs2 : miningJobsOf uid c w2
                   = [newMining now (S (nextId w1)) uid c (m_type j) (m_targetAmount j)]).
  { apply (miningJobsOf_happy64 now j w1 u1); try assumption.
    fold uid c. rewrite Hjobs1. exact Hjonly. }
  assert (Htx2 : transactionsOf uid c (transactions w2)
                 = transactionsOf uid c (transactions w)
                   ++ [{| t_id := nextId w1;
                          t_doc := rewardDoc now (rnd (drawn w1)) j |}]).
  { unfold w2. rewrite <- Htx1.
    apply (transactionsOf_happy64 now j w1 u1); assumption. }
  (* after [j] *)
  destruct (sweep_others64 now uid c l2 w2 Hnd2) as (Hjobs3 & Htx3 & Hfind3 & _).
  { intros m Hm. apply Hother. right. exact Hm. }
  { intros m Hm. destruct (Hmem m (or_intror Hm)) as (Hm1 & _ & Hm3).
    apply findMining_step_other64; [|exact Hm3].
    apply Hfind1; [now apply Hstored|].
    intros Hin1. apply in_map_iff in Hin1. destruct Hin1 as (m' & Heq & Hm').
    assert (Hdup : In (m_id m) (map m_id l1)) by (rewrite <- Heq; now apply in_map).
    clear - Hnd12 Hdup Hm.
    induction l1 as [|a l1 IH]; [contradiction|].
    cbn [map app] in *. inversion Hnd12 as [|? ? Hn Hnd']; subst.
    destruct Hdup as [Heq|Hdup].
    - apply Hn. apply in_or_app. right. rewrite Heq. now apply in_map.
    - now apply IH. }
  (* the whole sweep, for the balance *)
  destruct (sweep_balance64 now uid c (l1 ++ j :: l2) w u Hf Hv)
    as (u' & Hf' & _ & _ & Hb').
  { intros m Hm Hjob. apply in_app_or in Hm. destruct Hm as [Hm|[<-|Hm]];
      [|exact Ht|];
      [rewrite (Hother m (or_introl Hm)) in Hjob
      |rewrite (Hother m (or_intror Hm)) in Hjob]; discriminate. }
  rewrite Hact in Hb'. cbn [UserStatus_eqb] in Hb'.
  rewrite creditedBalance_app, creditedBalance_cons in Hb'.
  rewrite (creditedBalance_none uid c l1) in Hb'
    by (intros m Hm; apply Hother; left; exact Hm).
  rewrite (creditedBalance_none uid c l2) in Hb'
    by (intros m Hm; apply Hother; right; exact Hm).
  replace (job_of uid c j) with true in Hb'
    by (symmetry; apply job_of_true64; split; reflexivity).
  unfold B64.processMiningJobs in Hf'. rewrite fold_left_app in Hf'.
  cbn [fold_left] in Hf'.
  exists (nextId w1), (drawn w1), u'.
  split; [exact Hid1|].
  split; [rewrite length_app; cbn [List.length]; lia|].
  split; [apply Hfind3; [exact Hjdone | exact Hj2]|].
  do 4 (split; [reflexivity|]).
  split; [exact Hf'|].
  split; [exact Hb'|].
  split; [rewrite Htx3; exact Htx2|].
  rewrite Hjobs3. exact Hjobs2.
Qed.

(** ** Sweeps running alone and overlapping *)

Lemma completionsOf_step64 now m w id :
  (completionsOf id (processMiningJob now m w)
   <= completionsOf id w + (if Nat.eqb (m_id m) id then 1 else 0))%nat.
Proof.
  destruct (processMiningJob_cases64 now m w)
    as [E | (u' & _ & _ & _ & [[_ E] | [(_ & _ & E) | (_ & _ & E)]])]; rewrite E;
    [lia | unfold completionsOf; cbn [auditLogs with_users]; lia
    | unfold completionsOf; cbn [auditLogs with_users with_drawn]; lia |].
  unfold completionsOf. cbn [auditLogs]. rewrite filter_app, length_app.
  cbn [filter a_action a_entityType a_entityId].
  destruct (Nat.eqb (m_id m) id); cbn [List.length]; lia.
Qed.

Lemma transactions_step64 now m w :
  (List.length (transactions (processMiningJob now m w))
   <= List.length (transactions w) + 1)%nat.
Proof.
  destruct (processMiningJob_cases64 now m w)
    as [E | (u' & _ & _ & _ & [[_ E] | [(_ & _ & E) | (_ & _ & E)]])]; rewrite E;
    [lia | cbn [transactions with_users]; lia
    | cbn [transactions with_users with_drawn]; lia |].
  cbn [transactions]. rewrite length_app. cbn [List.length]. lia.
Qed.

Lemma completionsOf_jobs64 now id l :
  forall w,
    (completionsOf id (processMiningJobs now l w)
     <= completionsOf id w
        + List.length (filter (fun m => Nat.eqb (m_id m) id) l))%nat.
Proof.
  unfold B64.processMiningJobs.
  induction l as [|m l IH]; intros w; cbn [fold_left filter]; [lia|].
  specialize (IH (processMiningJob now m w)).
  pose proof (completionsOf_step64 now m w id).
  destruct (Nat.eqb (m_id m) id); cbn [List.length]; lia.
Qed.

Lemma transactions_jobs64 now l :
  forall w,
    (List.length (transactions (processMiningJobs now l w))
     <= List.length (transactions w) + List.length l)%nat.
Proof.
  unfold B64.processMiningJobs.
  induction l as [|m l IH]; intros w; cbn [fold_left List.length]; [lia|].
  specialize (IH (processMiningJob now m w)).
  pose proof (transactions_step64 now m w). lia.
Qed.

Lemma filter_id_NoDup64 (l : list Mining) id :
  NoDup (map m_id l) ->
  (List.length (filter (fun m => Nat.eqb (m_id m) id) l) <= 1)%nat.
Proof.
  induction l as [|m l IH]; intros Hnd; cbn [filter List.length]; [lia|].
  inversion Hnd as [|? ? Hnotin Hnd']; subst. specialize (IH Hnd').
  destruct (Nat.eqb (m_id m) id) eqn:E; [|exact IH].
  apply Nat.eqb_eq in E. cbn [List.length].
  destruct (filter (fun m0 => Nat.eqb (m_id m0) id) l) as [|y l'] eqn:F; [cbn; lia|].
  exfalso. apply Hnotin.
  assert (Hy : In y (filter (fun m0 => Nat.eqb (m_id m0) id) l))
    by (rewrite F; left; reflexivity).
  apply filter_In in Hy. destruct Hy as [Hy Hid]. apply Nat.eqb_eq in Hid.
  rewrite E, <- Hid. now apply in_map.
Qed.

(** C7 (amended).  A completion sweep that runs alone, over a store whose
    job ids are distinct, handles every job at most once: it writes at most
    one [mining_complete] audit entry per job, appends at most one
    transaction per job of its snapshot, and the balance of a valid account
    in a currency goes through one binary64 addition per job of the
    snapshot that the account owns in that currency, in the order of the
    snapshot (through none when the account is not active). *)
Theorem sweep_alone_completes_once now w :
  NoDup (map m_id (minings w)) ->
  let w' := processMiningCycles now w in
  (forall id, (completionsOf id w' <= completionsOf id w + 1)%nat)
  /\ (List.length (transactions w')
      <= List.length (transactions w) + List.length (Mining_findActive w))%nat
  /\ (forall uid c u,
        findUser w uid = Some u ->
        validateUser u = true ->
        (forall m, In m (Mining_findActive w) -> job_of uid c m = true ->
                   (0 <=? m_targetAmount m) = true) ->
        exists u',
          findUser w' uid = Some u'
          /\ get_balance (balances u') c
             = if UserStatus_eqb (status u) active
               then creditedBalance uid c (Mining_findActive w)
                      (get_balance (balances u) c)
               else get_balance (balances u) c).
Proof.
  intros Hnd w'. subst w'. unfold B64.processMiningCycles. split; [|split].
  - intros id.
    pose proof (completionsOf_jobs64 now id (Mining_findActive w) w).
    pose proof (filter_id_NoDup64 (Mining_findActive w) id
                  (NoDup_keys_filter _ _ _ Hnd)).
    lia.
  - apply transactions_jobs64.
  - intros uid c u Hf Hv Ht.
    destruct (sweep_balance64 now uid c _ w u Hf Hv Ht) as (u' & Hf' & _ & _ & Hb).
    exists u'. split; assumption.
Qed.

(** A sweep that takes all the turns it needs, while the other sweep takes
    none, is [processMiningCycles]. *)
Lemma overlap_jobs64 now l : forall w b,
  overlap now (repeat SweepA (List.length l)) (w, Some l, b)
  = (processMiningJobs now l w, Some [], b).
Proof.
  unfold B64.processMiningJobs.
  induction l as [|m l IH]; intros w b; [reflexivity|].
  cbn [List.length repeat B64.overlap sweep_turn fold_left]. apply IH.
Qed.

Lemma overlap_alone64 now w b :
  overlap now (repeat SweepA (S (List.length (Mining_findActive w)))) (w, None, b)
  = (processMiningCycles now w, Some [], b).
Proof.
  cbn [repeat B64.overlap sweep_turn]. apply overlap_jobs64.
Qed.

End Sweep64.

(** C3 on an active account with 100 USD and one USD job of target 1000:
    the job is completed, the balance is 1100, one reward transaction is
    logged and one successor job is in [mining] status. *)
Lemma sweep_completes_job_witness :
  let w := miningWorld (holder 100) in
  let w' := processMiningCycles (constantly 0.5) sampleReference 0 w in
  exists tid k u',
    findMining w' 7 = Some (completeMining 0 tid (usdJob 1))
    /\ findUser w' 1 = Some u'
    /\ get_balance (balances u') USD = 1100
    /\ transactionsOf 1 USD (transactions w')
       = [{| t_id := tid;
             t_doc := rewardDoc sampleReference 0 (constantly 0.5 k) (usdJob 1) |}]
    /\ miningJobsOf 1 USD w'
       = [newMining 0 (S tid) 1 USD mt_currency 1000].
Proof.
  cbv zeta.
  assert (Hnd : NoDup (map m_id (minings (miningWorld (holder 100)))))
    by (repeat constructor; intros []).
  destruct (proj2 (sweep_completes_job (constantly 0.5) sampleReference 0
                     (miningWorld (holder 100)) (usdJob 1) Hnd
                     (or_introl eq_refl) eq_refl) (holder 100))
    as (tid & k & u' & _ & _ & Hjob & _ & _ & _ & _ & Hu & Hbal & Htx & Hjobs).
  - reflexivity.
  - reflexivity.
  - reflexivity.
  - reflexivity.
  - intros m [<-|[]] _ _ _. reflexivity.
  - split; [reflexivity|]. cbn. intros i j Hi Hj _. lia.
  - exists tid, k, u'. split; [exact Hjob|]. split; [exact Hu|].
    split; [|split; [exact Htx | exact Hjobs]].
    etransitivity; [exact Hbal | reflexivity].
Defined.

(** C3 as stated fails for a job whose owner is not active: the sweep
    skips it.  Here the owner is suspended; the job stays in [mining]
    status, nothing is credited, no transaction is appended and no successor
    is created. *)
Lemma sweep_skips_suspended_owner :
  let w := miningWorld suspendedHolder in
  let w' := processMiningCycles (constantly 0.5) sampleReference 0 w in
  In (usdJob 3) (minings w)
  /\ m_status (usdJob 3) = st_mining
  /\ findMining w' 7 = Some (usdJob 3)
  /\ findUser w' 3 = Some suspendedHolder
  /\ transactions w' = []
  /\ minings w' = [usdJob 3].
Proof.
  cbv zeta. split; [left; reflexivity|]. repeat split.
Qed.

(** C7 as stated fails: the sweep never claims a job before crediting it,
    so two sweeps that both read their snapshot before either has handled
    the job each credit it.  One job of target 1000 USD, an account with 100
    USD: after the two overlapping sweeps the job has two completion
    entries, the balance is 2100 USD, two reward transactions are logged and
    two successors are in [mining] status. *)
Lemma overlapping_sweeps_credit_twice :
  let w := miningWorld (holder 100) in
  let w' := fst (fst (overlap alternating sampleReference 0
                        [SweepA; SweepB; SweepA; SweepB] (w, None, None))) in
  NoDup (map m_id (minings w))
  /\ completionsOf 7 w = 0%nat
  /\ completionsOf 7 w' = 2%nat
  /\ (exists u', findUser w' 1 = Some u'
                 /\ get_balance (balances u') USD = 2100)
  /\ List.length (transactions w') = 2%nat
  /\ List.length (miningJobsOf 1 USD w') = 2%nat.
Proof.
  cbv zeta. split; [repeat constructor; intros []|].
  split; [reflexivity|]. split; [reflexivity|].
  split; [|split; reflexivity].
  eexists. split; reflexivity.
Qed.

(** C7 on the store with one account of 100 USD and one job of target 1000
    USD: the sweep that runs alone writes at most one completion for the job
    and leaves the account with 1100 USD. *)
Lemma sweep_alone_completes_once_witness :
  let w := miningWorld (holder 100) in
  let w' := processMiningCycles (constantly 0.5) sampleReference 0 w in
  NoDup (map m_id (minings w))
  /\ (completionsOf 7 w' <= completionsOf 7 w + 1)%nat
  /\ exists u',
       findUser w' 1 = Some u' /\ get_balance (balances u') USD = 1100.
Proof.
  cbv zeta.
  assert (Hnd : NoDup (map m_id (minings (miningWorld (holder 100)))))
    by (repeat constructor; intros []).
  destruct (sweep_alone_completes_once (constantly 0.5) sampleReference 0
              (miningWorld (holder 100)) Hnd) as (Hc & _ & Hb).
  split; [exact Hnd|]. split; [exact (Hc 7%nat)|].
  destruct (Hb 1%nat USD (holder 100) eq_refl eq_refl) as (u' & Hf & Hu).
  - intros m [<-|[]] _. reflexivity.
  - exists u'. split; [exact Hf|]. etransitivity; [exact Hu | reflexivity].
Defined.

(** ** Trading cycle *)

Lemma Math_max_zero y :
  Math_max 0 y = nan \/ Math_max 0 y = y \/ Math_max 0 y = 0.
Proof.
  unfold Math_max. change (is_nan 0) with false. cbn [orb].
  destruct (is_nan y); [left; reflexivity|]. right.
  destruct (0 <? y); [left; reflexivity|]. right.
  destruct (y <? 0); reflexivity.
Qed.

Lemma Math_max_zero_nan y : is_nan y = true -> Math_max 0 y = nan.
Proof. intros H. unfold Math_max. rewrite H, orb_true_r. reflexivity. Qed.

Section Trading64.

Variable rnd : nat -> float.
Variable generatedReference : Z -> float -> string.

(** [Math.random()] returns a value in [[0, 1)]. *)
Hypothesis rnd_range : forall n, (0 <=? rnd n) = true /\ (rnd n <? 1) = true.

Local Abbreviation tradeUser := (B64.tradeUser rnd generatedReference).
Local Abbreviation executeTradingRobots := (B64.executeTradingRobots rnd generatedReference).
Local Abbreviation tradedUser := (B64.tradedUser rnd).
Local Abbreviation tradeDoc := (B64.tradeDoc rnd).
Local Abbreviation tradeDraws := (B64.tradeDraws rnd).
Local Abbreviation positionAfter := (B64.positionAfter rnd).
Local Abbreviation tradeAmountAt := (B64.tradeAmountAt rnd).
Local Abbreviation tradeProfitAt := (B64.tradeProfitAt rnd).

Lemma tradedUser_id64 k r : _id (tradedUser k r) = _id r.
Proof. unfold B64.tradedUser. destruct (_ <? _); reflexivity. Qed.

(** The users collection after one iteration of the trading loop. *)
Lemma tradeUser_users64 now r w :
  users (tradeUser now r w)
  = if (capital (trading r) <=? 0) || negb (validateUser (tradedUser (drawn w) r))
    then users w
    else updateOne (fun x => Nat.eqb (_id x) (_id r))
           (fun _ => tradedUser (drawn w) r) (users w).
Proof.
  unfold B64.tradeUser.
  destruct (capital (trading r) <=? 0) eqn:Hc; [reflexivity|].
  cbv zeta. cbn [orb]. unfold try_catch, bind, User_save.
  rewrite !tradedUser_id64.
  destruct (validateUser _) eqn:Hv; [|reflexivity]. cbn [negb].
  destruct (validateTransaction (tradeDoc (drawn w) r)) eqn:Hd.
  - rewrite Transaction_create_valid by exact Hd.
    destruct (reference_taken _ _); [reflexivity|].
    unfold AuditLog_createLog, Notification_create, ret.
    destruct (_ && _); reflexivity.
  - rewrite Transaction_create_invalid by exact Hd. reflexivity.
Qed.

(** The position of the random stream after one iteration. *)
Lemma tradeUser_drawn64 now r w :
  drawn (tradeUser now r w) = (drawn w + tradeDraws (drawn w) r)%nat.
Proof.
  unfold B64.tradeUser, B64.tradeDraws.
  destruct (capital (trading r) <=? 0) eqn:Hc; [cbn; lia|].
  cbv zeta. unfold try_catch, bind, User_save.
  destruct (validateUser _) eqn:Hv; cbn [andb].
  - destruct (validateTransaction (tradeDoc (drawn w) r)) eqn:Hd.
    + rewrite Transaction_create_valid by exact Hd.
      destruct (reference_taken _ _).
      * cbn. destruct (0.35 <? rnd (drawn w)); lia.
      * unfold AuditLog_createLog, Notification_create, ret.
        destruct (0.35 <? rnd (drawn w)); cbn [andb];
          [destruct (50 <? _)|]; cbn; lia.
    + rewrite Transaction_create_invalid by exact Hd.
      cbn. destruct (0.35 <? rnd (drawn w)); lia.
  - cbn. destruct (0.35 <? rnd (drawn w)); lia.
Qed.

Lemma tradeUser_findUser_other64 now r w uid :
  uid <> _id r -> findUser (tradeUser now r w) uid = findUser w uid.
Proof.
  intros Hne. unfold findUser. rewrite tradeUser_users64.
  destruct (_ || _); [reflexivity|].
  apply (find_updateOne_other _id); [congruence | intros; apply tradedUser_id64].
Qed.

Lemma tradeUser_findUser_same64 now r w :
  findUser w (_id r) = Some r ->
  findUser (tradeUser now r w) (_id r)
  = Some (if (capital (trading r) <=? 0)
             || negb (validateUser (tradedUser (drawn w) r))
          then r else tradedUser (drawn w) r).
Proof.
  intros Hf. unfold findUser. rewrite tradeUser_users64.
  destruct (_ || _); [exact Hf|].
  eapply (find_updateOne_same _id); [apply tradedUser_id64 | exact Hf].
Qed.

Lemma fold_tradeUser_other64 now l :
  forall w uid,
    ~ In uid (map _id l) ->
    findUser (fold_left (fun w r => tradeUser now r w) l w) uid = findUser w uid.
Proof.
  induction l as [|r l IH]; intros w uid Hn; [reflexivity|].
  cbn [fold_left]. rewrite IH by (intro; apply Hn; right; assumption).
  apply tradeUser_findUser_other64. intro. apply Hn. left. congruence.
Qed.

Lemma fold_tradeUser_drawn64 now l :
  forall w,
    drawn (fold_left (fun w r => tradeUser now r w) l w)
    = positionAfter (drawn w) l.
Proof.
  unfold B64.positionAfter.
  induction l as [|r l IH]; intros w; [reflexivity|].
  cbn [fold_left]. rewrite IH, tradeUser_drawn64. reflexivity.
Qed.

(** The stored document of a robot after the loop: the loop reaches it at
    the position that the robots before it leave. *)
Lemma fold_tradeUser_robot64 now before u after w :
  NoDup (map _id (before ++ u :: after)) ->
  findUser w (_id u) = Some u ->
  let j := positionAfter (drawn w) before in
  findUser (fold_left (fun w r => tradeUser now r w) (before ++ u :: after) w)
    (_id u)
  = Some (if (capital (trading u) <=? 0) || negb (validateUser (tradedUser j u))
          then u else tradedUser j u).
Proof.
  intros Hnd Hf j. subst j.
  rewrite map_app in Hnd. cbn [map] in Hnd.
  pose proof (NoDup_remove_2 _ _ _ Hnd) as Hn.
  rewrite fold_left_app. cbn [fold_left].
  rewrite fold_tradeUser_other64
    by (intro; apply Hn; apply in_or_app; right; assumption).
  rewrite <- fold_tradeUser_drawn64 with (now := now).
  apply tradeUser_findUser_same64.
  rewrite fold_tradeUser_other64
    by (intro; apply Hn; apply in_or_app; left; assumption).
  exact Hf.
Qed.

(** The amounts of a simulated trade are at least 0, or not numbers. *)
Lemma tradeAmountAt_sign j u :
  (0 <=? capital (trading u)) = true ->
  (0 <=? tradeAmountAt j u) = true \/ is_nan (tradeAmountAt j u) = true.
Proof.
  intros Hc. unfold B64.tradeAmountAt.
  destruct (rnd_range (j + 1)%nat) as [H0 _].
  apply fmul_nonneg_or_nan; [left; exact Hc|].
  apply fadd_nonneg_or_nan; [left; reflexivity|].
  apply fmul_nonneg_or_nan; left; [exact H0 | reflexivity].
Qed.

Lemma profitable_trade_sign j u :
  (0 <=? capital (trading u)) = true ->
  let p := tradeAmountAt j u * (0.02 + rnd (j + 2)%nat * 0.08) in
  (0 <=? p) = true \/ is_nan p = true.
Proof.
  intros Hc p. subst p.
  destruct (rnd_range (j + 2)%nat) as [H0 _].
  apply fmul_nonneg_or_nan; [now apply tradeAmountAt_sign|].
  apply fadd_nonneg_or_nan; [left; reflexivity|].
  apply fmul_nonneg_or_nan; left; [exact H0 | reflexivity].
Qed.

(** A trade that passes the validators of the user schema does not lower
    the profit and does not raise the capital. *)
Lemma tradedUser_monotone64 j u :
  validateUser u = true ->
  validateUser (tradedUser j u) = true ->
  (profit (trading u) <=? profit (trading (tradedUser j u))) = true
  /\ (capital (trading (tradedUser j u)) <=? capital (trading u)) = true.
Proof.
  intros Hv Hv'.
  apply validateUser_spec64 in Hv. destruct Hv as (_ & Hc & Hp).
  apply validateUser_spec64 in Hv'. destruct Hv' as (_ & Hc' & Hp').
  revert Hc' Hp'. unfold B64.tradedUser, B64.tradeProfitAt.
  destruct (0.35 <? rnd j); cbn [trading capital profit]; intros Hc' Hp'.
  - split; [|now apply leb_refl_nonneg].
    destruct (profitable_trade_sign j u Hc) as [Hs|Hn].
    + now apply fadd_ge.
    + rewrite (nan_not_nonneg _ (nan_add_r _ _ Hn)) in Hp'. discriminate.
  - split; [now apply leb_refl_nonneg|].
    set (l := Math_abs (- tradeAmountAt j u * 0.02)) in *.
    assert (Hy : is_nan (capital (trading u) - l) = false).
    { destruct (is_nan (capital (trading u) - l)) eqn:E; [|reflexivity].
      rewrite (Math_max_zero_nan _ E) in Hc'. discriminate. }
    assert (Hl : (0 <=? l) = true).
    { destruct (abs_nonneg_or_nan (- tradeAmountAt j u * 0.02)) as [H|H];
        [exact H|].
      rewrite nan_sub in Hy by (right; exact H). discriminate. }
    assert (Hle : (capital (trading u) - l <=? capital (trading u)) = true).
    { destruct (fsub_le _ _ Hc Hl) as [H|H]; [|exact H].
      rewrite H in Hy. discriminate. }
    destruct (Math_max_zero (capital (trading u) - l)) as [E|[E|E]];
      rewrite E in *; [discriminate | exact Hle | exact Hc].
Qed.

Lemma robot_in_snapshot64 w uid u :
  NoDup (map _id (users w)) ->
  findUser w uid = Some u ->
  robotActive (trading u) && UserStatus_eqb (status u) active = true ->
  exists before after, User_findRobots w = before ++ u :: after.
Proof.
  intros Hnd Hf Hr. apply in_split. apply filter_In. split; [|exact Hr].
  unfold findUser in Hf. now apply find_some in Hf.
Qed.

Lemma not_robot_not_in_snapshot64 w uid u :
  NoDup (map _id (users w)) ->
  findUser w uid = Some u ->
  robotActive (trading u) && UserStatus_eqb (status u) active = false ->
  ~ In uid (map _id (User_findRobots w)).
Proof.
  intros Hnd Hf Hr Hin. apply in_map_iff in Hin. destruct Hin as (r & Hid & Hin).
  apply filter_In in Hin. destruct Hin as [Hin Hrobot].
  pose proof (find_by_id_unique _id _ _ Hnd Hin) as Hfr.
  unfold findUser in Hf. rewrite Hid, Hf in Hfr. injection Hfr as ->.
  rewrite Hrobot in Hr. discriminate.
Qed.

(** C9 (amended).  After a trading cycle over a store whose account ids are
    distinct, the trading profit of a valid account compares at least what
    it was, and its trading capital at most what it was and at least 0.  An
    account whose robot is off or that is not active is left as it was.
    The loop reaches a robot account at the position [j] of the random
    stream that the iterations for the robots before it leave.  The account
    is left as it was when its capital is at most 0 or when the traded
    document fails the validators; otherwise the traded document is stored:
    for a profitable outcome ([rnd j > 0.35]) the profit is the binary64 sum
    of the old profit and of [tradeAmount * (0.02 + rnd (j+2) * 0.08)] and
    the capital is unchanged; for an unprofitable outcome the profit is
    unchanged and the capital is
    [Math.max(0, capital - Math.abs(-tradeAmount * 0.02))].  Every product,
    sum and difference is rounded, so the capital can fall by more than
    [tradeAmount * 0.02]. *)
Theorem trading_cycle_monotone now w uid u u' :
  NoDup (map _id (users w)) ->
  findUser w uid = Some u ->
  validateUser u = true ->
  findUser (executeTradingRobots now w) uid = Some u' ->
  (profit (trading u) <=? profit (trading u')) = true
  /\ (capital (trading u') <=? capital (trading u)) = true
  /\ (0 <=? capital (trading u')) = true
  /\ (robotActive (trading u) && UserStatus_eqb (status u) active = false ->
      u' = u)
  /\ (robotActive (trading u) && UserStatus_eqb (status u) active = true ->
      exists before after,
        User_findRobots w = before ++ u :: after
        /\ let j := positionAfter (drawn w) before in
           let tradeAmount :=
             capital (trading u) * (0.01 + rnd (j + 1)%nat * 0.05) in
           if (capital (trading u) <=? 0) || negb (validateUser (tradedUser j u))
           then u' = u
           else
             u' = tradedUser j u
             /\ if 0.35 <? rnd j
                then profit (trading u')
                     = profit (trading u)
                       + tradeAmount * (0.02 + rnd (j + 2)%nat * 0.08)
                     /\ capital (trading u') = capital (trading u)
                else profit (trading u') = profit (trading u)
                     /\ capital (trading u')
                        = Math_max 0 (capital (trading u)
                                      - Math_abs (- tradeAmount * 0.02))).
Proof.
  intros Hnd Hf Hv Hf'. unfold B64.executeTradingRobots in Hf'.
  pose proof Hv as Hs. apply validateUser_spec64 in Hs. destruct Hs as (_ & Hc & Hp).
  pose proof (findUser_id64 _ _ _ Hf) as Hid.
  destruct (robotActive (trading u) && UserStatus_eqb (status u) active) eqn:Hr.
  - destruct (robot_in_snapshot64 w uid u Hnd Hf Hr) as (before & after & Hsplit).
    assert (Hnds : NoDup (map _id (before ++ u :: after)))
      by (rewrite <- Hsplit; apply NoDup_keys_filter; exact Hnd).
    rewrite Hsplit, <- Hid in Hf'. rewrite <- Hid in Hf.
    rewrite (fold_tradeUser_robot64 now before u after w Hnds Hf) in Hf'.
    injection Hf' as Hu'.
    set (j := positionAfter (drawn w) before) in *.
    assert (Hcase :
      if (capital (trading u) <=? 0) || negb (validateUser (tradedUser j u))
      then u' = u
      else u' = tradedUser j u /\ validateUser (tradedUser j u) = true).
    { destruct (capital (trading u) <=? 0); cbn [orb] in *; [now subst|].
      destruct (validateUser (tradedUser j u)); cbn [negb] in *;
        [split; [now subst | reflexivity] | now subst]. }
    clear Hu'.
    assert (Hmono : (profit (trading u) <=? profit (trading u')) = true
                    /\ (capital (trading u') <=? capital (trading u)) = true
                    /\ (0 <=? capital (trading u')) = true).
    { destruct (_ || _).
      - subst u'. repeat split; auto using leb_refl_nonneg.
      - destruct Hcase as [-> Hv'].
        destruct (tradedUser_monotone64 j u Hv Hv') as [H1 H2].
        split; [exact H1|]. split; [exact H2|].
        apply validateUser_spec64 in Hv'. apply Hv'. }
    destruct Hmono as (H1 & H2 & H3).
    split; [exact H1|]. split; [exact H2|]. split; [exact H3|].
    split; [discriminate|]. intros _.
    exists before, after. split; [exact Hsplit|]. cbv zeta. fold j.
    destruct (_ || _); [exact Hcase|].
    destruct Hcase as [-> _]. split; [reflexivity|].
    unfold B64.tradedUser, B64.tradeProfitAt, B64.tradeAmountAt.
    destruct (0.35 <? rnd j); cbn [trading capital profit]; split; reflexivity.
  - rewrite fold_tradeUser_other64 in Hf'
      by (eapply not_robot_not_in_snapshot64; eauto).
    rewrite Hf in Hf'. injection Hf' as <-.
    repeat split; auto using leb_refl_nonneg. discriminate.
Qed.

End Trading64.

(** C9 on an account with capital 10000 and profit 25 whose robot is
    active, with every random value equal to 1/2: the trade is profitable,
    the profit grows and the capital stays at 10000. *)
Lemma trading_cycle_monotone_witness :
  let u := trader 100 10000 25 in
  let w' := executeTradingRobots (constantly 0.5) sampleReference 0 (world_of u) in
  exists u',
    findUser w' 2 = Some u'
    /\ u' = tradedUser (constantly 0.5) 0 u
    /\ (profit (trading u) <=? profit (trading u')) = true
    /\ (capital (trading u') <=? capital (trading u)) = true
    /\ (25 <? profit (trading u')) = true
    /\ capital (trading u') = 10000.
Proof.
  cbv zeta. eexists. split; [reflexivity|].
  assert (Hrnd : forall n, (0 <=? constantly 0.5 n) = true
                           /\ (constantly 0.5 n <? 1) = true)
    by (intros n; split; reflexivity).
  assert (Hnd : NoDup (map _id (users (world_of (trader 100 10000 25)))))
    by (repeat constructor; intros []).
  pose proof (trading_cycle_monotone (constantly 0.5) sampleReference Hrnd 0
                (world_of (trader 100 10000 25)) 2 (trader 100 10000 25) _
                Hnd eq_refl eq_refl eq_refl) as (Hp & Hc & _).
  split; [reflexivity|]. split; [exact Hp|]. split; [exact Hc|].
  split; reflexivity.
Defined.

(** C9 as stated fails in its bound: an unprofitable trade can lower the
    capital by more than [tradeAmount * 0.02].  An account with capital
    9990.5, every random value equal to 1/4: the trade is unprofitable,
    [tradeAmount] is 224.78625, and the stored capital is
    9986.0042749999993.  The fall is above [tradeAmount * 0.02], both as the
    binary64 difference of the two capitals against the binary64 product,
    and as the exact difference of the two stored values against the exact
    fiftieth of [tradeAmount]. *)
Lemma trading_loss_exceeds_bound :
  let u := trader 100 9990.5 0 in
  let w' := executeTradingRobots (constantly 0.25) sampleReference 0 (world_of u) in
  let tradeAmount := tradeAmountAt (constantly 0.25) 0 u in
  validateUser u = true
  /\ (0.35 <? constantly 0.25 0) = false
  /\ tradeAmount = 224.78625
  /\ exists u',
       findUser w' 2 = Some u'
       /\ capital (trading u') = 9986.0042749999993
       /\ (tradeAmount * 0.02 <? capital (trading u) - capital (trading u')) = true
       /\ exists before after amount,
            realValue (capital (trading u)) = Some before
            /\ realValue (capital (trading u')) = Some after
            /\ realValue tradeAmount = Some amount
            /\ (amount * (2 # 100) < before - after)%Q.
Proof.
  cbv zeta. split; [reflexivity|]. split; [reflexivity|]. split; [reflexivity|].
  eexists. split; [reflexivity|]. split; [reflexivity|]. split; [reflexivity|].
  eexists. eexists. eexists.
  split; [vm_compute; reflexivity|]. split; [vm_compute; reflexivity|].
  split; [vm_compute; reflexivity|]. vm_compute. reflexivity.
Qed.

(** * Further properties of the binary64 ledger *)

Section Extras64.

Variable rnd : nat -> float.
Variable generatedReference : Z -> float -> string.

Local Abbreviation storedReference := (B64.storedReference generatedReference).
Local Abbreviation Transaction_create := (B64.Transaction_create rnd generatedReference).
Local Abbreviation send := (B64.send rnd generatedReference).
Local Abbreviation receive := (B64.receive rnd generatedReference).
Local Abbreviation international := (B64.international rnd generatedReference).
Local Abbreviation sendCrypto := (B64.sendCrypto rnd generatedReference).
Local Abbreviation run_ops := (B64.run_ops rnd generatedReference).
Local Abbreviation apply_op := (B64.apply_op rnd generatedReference).

(** ** The transaction log *)

Lemma appends_ret {A} (a : A) : appendsM (ret a).
Proof. intros w. split; [apply extends_refl | cbn; lia]. Qed.

Lemma appends_throw {A} e : appendsM (@throw A e).
Proof. intros w. split; [apply extends_refl | cbn; lia]. Qed.

Lemma appends_bind {A B} (c : M A) (k : A -> M B) :
  appendsM c -> (forall a, appendsM (k a)) -> appendsM (bind c k).
Proof.
  intros Hc Hk w. unfold bind. specialize (Hc w).
  destruct (c w) as [w1 [a|e]]; cbn [fst] in *; [|exact Hc].
  destruct Hc as [H1 H2], (Hk a w1) as [H3 H4].
  split; [eapply extends_trans; eassumption | lia].
Qed.

Lemma appends_nonnull {A} (o : option A) : appendsM (nonnull o).
Proof. destruct o; [apply appends_ret | apply appends_throw]. Qed.

Lemma appends_findById id : appendsM (User_findById id).
Proof. intros w. split; [apply extends_refl | cbn; lia]. Qed.

Lemma appends_save u : appendsM (User_save u).
Proof.
  intros w. unfold User_save.
  destruct (validateUser u); split; cbn; try apply extends_refl; lia.
Qed.

Lemma appends_Transaction_create now d : appendsM (Transaction_create now d).
Proof.
  intros w. destruct (validateTransaction d) eqn:Hd.
  - rewrite Transaction_create_valid by exact Hd.
    destruct (reference_taken _ _); cbn [fst transactions drawn with_drawn].
    + split; [apply extends_refl | destruct (no_reference _); lia].
    + split; [apply extends_app | destruct (no_reference _); lia].
  - rewrite Transaction_create_invalid by exact Hd.
    split; [apply extends_refl | cbn; lia].
Qed.

Lemma appends_Notification_create n : appendsM (Notification_create n).
Proof. intros w. split; [apply extends_refl | cbn; lia]. Qed.

Lemma appends_AuditLog_createLog a : appendsM (AuditLog_createLog a).
Proof. intros w. split; [apply extends_refl | cbn; lia]. Qed.

Lemma appends_Math_random_times n : appendsM (Math_random_times n).
Proof. intros w. split; [apply extends_refl | cbn; lia]. Qed.

Lemma appends_Mining_create now uid c ty t :
  appendsM (Mining_createMiningOperation now uid c ty t).
Proof.
  intros w. unfold Mining_createMiningOperation.
  destruct (validateMining _); split; cbn; try apply extends_refl; lia.
Qed.

Lemma appends_Mining_save m : appendsM (Mining_save m).
Proof.
  intros w. unfold Mining_save.
  destruct (validateMining m); split; cbn; try apply extends_refl; lia.
Qed.

Lemma appends_try_catch {A} (c : M A) (h : Error -> A) w :
  appendsM c ->
  extends (transactions w) (transactions (fst (try_catch c h w)))
  /\ (drawn w <= drawn (fst (try_catch c h w)))%nat.
Proof.
  intros Hc. unfold try_catch. specialize (Hc w).
  destruct (c w) as [w1 [a|e]]; exact Hc.
Qed.

Ltac appends_step :=
  lazymatch goal with
  | |- appendsM (ret _) => apply appends_ret
  | |- appendsM (throw _) => apply appends_throw
  | |- appendsM (nonnull _) => apply appends_nonnull
  | |- appendsM (User_findById _) => apply appends_findById
  | |- appendsM (User_save _) => apply appends_save
  | |- appendsM (B64.Transaction_create _ _ _ _) => apply appends_Transaction_create
  | |- appendsM (Notification_create _) => apply appends_Notification_create
  | |- appendsM (AuditLog_createLog _) => apply appends_AuditLog_createLog
  | |- appendsM generateTxHash => apply appends_Math_random_times
  | |- appendsM (Mining_createMiningOperation _ _ _ _ _) => apply appends_Mining_create
  | |- appendsM (Mining_save _) => apply appends_Mining_save
  | |- appendsM (bind _ _) => apply appends_bind; [|intros]
  | |- appendsM (if ?b then _ else _) => destruct b
  | |- appendsM (match ?o with Some _ => _ | None => _ end) => destruct o
  | |- appendsM (let _ := _ in _) => cbv zeta
  end.

Ltac appends := repeat appends_step.

Lemma apply_op_appends w op :
  extends (transactions w) (transactions (apply_op w op))
  /\ (drawn w <= drawn (apply_op w op))%nat.
Proof.
  destruct op; cbn [B64.apply_op].
  - apply appends_try_catch. cbv zeta. appends.
  - apply appends_try_catch. cbv zeta. appends.
  - apply appends_try_catch. cbv zeta. appends.
  - apply appends_try_catch. cbv zeta. appends.
  - apply appends_try_catch. cbv zeta. appends.
  - apply appends_try_catch. appends.
  - unfold B64.processMiningCycles, B64.processMiningJobs.
    generalize (Mining_findActive w) as l. intros l. revert w.
    induction l as [|m l IH]; intros w; cbn [fold_left];
      [split; [apply extends_refl | lia]|].
    destruct (IH (B64.processMiningJob rnd generatedReference now m w)) as [H1 H2].
    assert (H0 : extends (transactions w)
                   (transactions (B64.processMiningJob rnd generatedReference now m w))
                 /\ (drawn w
                     <= drawn (B64.processMiningJob rnd generatedReference now m w))%nat)
      by (unfold B64.processMiningJob; apply appends_try_catch; appends).
    destruct H0 as [H3 H4].
    split; [eapply extends_trans; eassumption | lia].
  - unfold B64.executeTradingRobots.
    generalize (User_findRobots w) as l. intros l. revert w.
    induction l as [|r l IH]; intros w; cbn [fold_left];
      [split; [apply extends_refl | lia]|].
    destruct (IH (B64.tradeUser rnd generatedReference now r w)) as [H1 H2].
    assert (H0 : extends (transactions w)
                   (transactions (B64.tradeUser rnd generatedReference now r w))
                 /\ (drawn w
                     <= drawn (B64.tradeUser rnd generatedReference now r w))%nat).
    { unfold B64.tradeUser.
      destruct (_ <=? _); [split; [apply extends_refl | lia]|].
      cbv zeta.
      match goal with
      | |- context [try_catch ?c ?h ?w0] =>
          destruct (appends_try_catch c h w0) as [H3 H4]; [appends|]
      end.
      cbn [transactions with_drawn drawn] in H3, H4.
      split; [exact H3|].
      destruct (0.35 <? rnd (drawn w)); lia. }
    destruct H0 as [H3 H4].
    split; [eapply extends_trans; eassumption | lia].
Qed.

(** X1.  Each of the eight operations that call [Transaction.create] (the
    only write to the transaction collection in the source) appends to the
    collection and does nothing else to it: whatever sequence of sends,
    receives, conversions, international transfers, crypto sends, profit
    withdrawals, completion sweeps and trading cycles runs, the transaction
    log only grows at its end; no stored transaction is removed, reordered
    or rewritten.  In particular a transaction that an international
    transfer has stored with status [processing] keeps that status through
    every such sequence. *)
Theorem transactions_are_append_only ops w :
  extends (transactions w) (transactions (run_ops ops w)).
Proof.
  unfold B64.run_ops. revert w.
  induction ops as [|op ops IH]; intros w; cbn [fold_left];
    [apply extends_refl|].
  eapply extends_trans; [apply apply_op_appends | apply IH].
Qed.

(** ** Receive *)

(** X4.  A receive has no balance check and no counterparty: for a valid
    stored account, a finite amount above 0 (the route's schema) and a
    reference that is not taken, it answers 200, stores the binary64 sum of
    the caller's balance in the currency and of the amount, which is at
    least the old balance, and appends exactly one [completed] transaction
    of type [receive]. *)
Theorem receive_credits now w uid user body :
  findUser w uid = Some user ->
  validateUser user = true ->
  joi_positive (r_amount body) = true ->
  let reference := storedReference now (rnd (drawn w)) (r_reference body) in
  reference_taken (transactions w) reference = false ->
  let w' := fst (receive now uid body w) in
  let balance := get_balance (balances user) (r_currency body) in
  snd (receive now uid body w) = Success 200
  /\ findUser w' uid
     = Some (creditedUser user (r_currency body) (r_amount body))
  /\ get_balance (balances (creditedUser user (r_currency body) (r_amount body)))
       (r_currency body)
     = balance + r_amount body
  /\ (balance <=? balance + r_amount body) = true
  /\ transactions w'
     = transactions w
       ++ [{| t_id := nextId w;
              t_doc := {| t_user := uid; t_type := tx_receive;
                          t_currency := Some (r_currency body);
                          t_amount := r_amount body;
                          t_fromCurrency := None; t_toCurrency := None;
                          t_convertedAmount := None; t_exchangeRate := None;
                          t_status := tx_completed;
                          t_reference := reference |} |}].
Proof.
  intros Hf Hv Hp reference Href. subst reference. cbv zeta.
  pose proof (findUser_id64 _ _ _ Hf) as Hid.
  destruct (joi_positive_facts _ Hp) as (_ & H0 & _).
  pose proof (validateUser_credited64 user (r_currency body) (r_amount body) Hv H0)
    as Hv'.
  unfold B64.receive. run_handler64. rewrite Hf.
  cbn -[validateUser B64.Transaction_create].
  unfold creditedUser in Hv'. rewrite Hv'.
  rewrite Transaction_create_valid
    by (unfold validateTransaction; cbn; now rewrite H0).
  cbn [t_reference transactions with_users drawn]. rewrite Href.
  cbn [fst snd transactions]. subst uid.
  split; [reflexivity|]. split.
  - eapply findUser_after_save64; [exact Hf | reflexivity | reflexivity].
  - cbn [balances]. rewrite get_set_balance_same64.
    split; [reflexivity|]. split; [|reflexivity].
    apply fadd_ge; [now apply validateUser_balance64 | exact H0].
Qed.

(** ** International transfer *)

(** X5.  An international transfer of an amount that is finite and at least
    0, from a balance that is not below it, stores the binary64 difference
    and logs one transaction of type [send] whose status is [processing],
    not [completed]. *)
Theorem international_is_processing now w uid user body :
  findUser w uid = Some user ->
  validateUser user = true ->
  (0 <=? i_amount body) = true ->
  (abs (i_amount body) <? infinity) = true ->
  (get_balance (balances user) (i_currency body) <? i_amount body) = false ->
  let reference := Some (generatedReference now (rnd (drawn w))) in
  reference_taken (transactions w) reference = false ->
  let w' := fst (international now uid body w) in
  snd (international now uid body w) = Success 200
  /\ findUser w' uid = Some (debitedUser user (i_currency body) (i_amount body))
  /\ transactions w'
     = transactions w
       ++ [{| t_id := nextId w;
              t_doc := {| t_user := uid; t_type := tx_send;
                          t_currency := Some (i_currency body);
                          t_amount := i_amount body;
                          t_fromCurrency := None; t_toCurrency := None;
                          t_convertedAmount := None; t_exchangeRate := None;
                          t_status := tx_processing;
                          t_reference := reference |} |}].
Proof.
  intros Hf Hv H0 Hfin Hlt reference Href. subst reference. cbv zeta.
  pose proof (findUser_id64 _ _ _ Hf) as Hid. subst uid.
  unfold B64.international. run_handler64. rewrite Hf.
  cbn -[validateUser B64.Transaction_create]. rewrite Hlt.
  rewrite validateUser_set_balance64;
    [| exact Hv | apply fsub_nonneg; auto using validateUser_balance64].
  rewrite Transaction_create_valid
    by (unfold validateTransaction; cbn; now rewrite H0).
  cbn [t_reference transactions with_users drawn no_reference B64.storedReference].
  rewrite Href. cbn [fst snd transactions].
  split; [reflexivity|]. split; [|reflexivity].
  eapply findUser_after_save64; [exact Hf | reflexivity | reflexivity].
Qed.

(** X6.  The international route runs no schema validation, and its guard
    only compares the balance with the amount.  An amount below 0 therefore
    passes the guard: the binary64 difference [balance - amount], which is
    at least the old balance, is saved, [Transaction.create] rejects the
    amount, and the handler answers [INTERNATIONAL_TRANSFER_FAILED] with no
    transaction logged and no random value read. *)
Theorem international_negative_amount_credits now w uid user body :
  findUser w uid = Some user ->
  validateUser user = true ->
  (i_amount body <? 0) = true ->
  let w' := fst (international now uid body w) in
  let balance := get_balance (balances user) (i_currency body) in
  snd (international now uid body w)
  = Failure 500 "INTERNATIONAL_TRANSFER_FAILED"
  /\ findUser w' uid = Some (debitedUser user (i_currency body) (i_amount body))
  /\ get_balance (balances (debitedUser user (i_currency body) (i_amount body)))
       (i_currency body)
     = balance - i_amount body
  /\ (balance <=? balance - i_amount body) = true
  /\ transactions w' = transactions w
  /\ drawn w' = drawn w.
Proof.
  intros Hf Hv Hneg. cbv zeta.
  pose proof (findUser_id64 _ _ _ Hf) as Hid. subst uid.
  pose proof (validateUser_balance64 user (i_currency body) Hv) as Hb.
  destruct (fsub_neg _ _ Hb Hneg) as (Hguard & Hnn & Hge).
  unfold B64.international. run_handler64. rewrite Hf.
  cbn -[validateUser B64.Transaction_create]. rewrite Hguard.
  rewrite validateUser_set_balance64 by assumption.
  rewrite Transaction_create_invalid
    by (unfold validateTransaction; cbn; now rewrite (neg_not_nonneg _ Hneg)).
  cbn [fst snd transactions with_users drawn].
  split; [reflexivity|]. split; [|split; [|split; [exact Hge | split; reflexivity]]].
  - eapply findUser_after_save64; [exact Hf | reflexivity | reflexivity].
  - unfold debitedUser. cbn [balances]. apply get_set_balance_same64.
Qed.

(** ** The same request twice *)

(** X8.  The client reference is no idempotency key.  When a send under a
    client reference that is not taken succeeds and the same request is sent
    again while the balance still covers the amount, the second call saves
    its debit before [Transaction.create] fails on the unique index: it
    answers [TRANSACTION_FAILED], the amount has been subtracted from the
    balance twice, and only the first transaction is logged. *)
Theorem send_same_reference_twice now w uid user body r :
  findUser w uid = Some user ->
  validateUser user = true ->
  s_reference body = Some r ->
  no_reference (Some r) = false ->
  reference_taken (transactions w) (Some r) = false ->
  joi_positive (s_amount body) = true ->
  let balance := get_balance (balances user) (s_currency body) in
  (balance <? s_amount body) = false ->
  (balance - s_amount body <? s_amount body) = false ->
  let w1 := fst (send now uid body w) in
  let w2 := fst (send now uid body w1) in
  snd (send now uid body w) = Success 200
  /\ snd (send now uid body w1) = Failure 500 "TRANSACTION_FAILED"
  /\ (exists user2, findUser w2 uid = Some user2
        /\ get_balance (balances user2) (s_currency body)
           = balance - s_amount body - s_amount body)
  /\ transactions w2 = transactions w1
  /\ List.length (transactions w1) = S (List.length (transactions w)).
Proof.
  intros Hf Hv Hr Hnr Hfresh Hp balance Hlt Hlt2 w1 w2. subst balance.
  pose proof (findUser_id64 _ _ _ Hf) as Hid.
  assert (Hstored : forall k, storedReference now k (s_reference body) = Some r).
  { intros k. unfold B64.storedReference. now rewrite Hr, Hnr. }
  assert (Hfresh' : reference_taken (transactions w)
                      (storedReference now (rnd (drawn w)) (s_reference body))
                    = false) by (rewrite Hstored; exact Hfresh).
  pose proof (send_sufficient64 rnd generatedReference now w uid user body
                Hf Hv Hlt Hp Hfresh') as E1.
  assert (Hf1 : findUser w1 uid
                = Some (debitedUser user (s_currency body) (s_amount body))).
  { subst w1. rewrite E1. cbn [fst].
    eapply findUser_after_save64; [exact Hf | reflexivity | exact Hid]. }
  assert (Hv1 : validateUser (debitedUser user (s_currency body) (s_amount body))
                = true) by now apply validateUser_debited64.
  assert (Htaken : reference_taken (transactions w1) (Some r) = true).
  { subst w1. rewrite E1. cbn [fst transactions reference_taken].
    rewrite existsb_app. cbn [existsb t_reference t_doc].
    rewrite Hstored, String.eqb_refl. cbn [orb]. apply orb_true_r. }
  assert (Hlt1 : (get_balance
                    (balances (debitedUser user (s_currency body) (s_amount body)))
                    (s_currency body) <? s_amount body) = false)
    by (cbn [debitedUser balances]; now rewrite get_set_balance_same64).
  assert (Htaken' : reference_taken (transactions w1)
                      (storedReference now (rnd (drawn w1)) (s_reference body))
                    = true) by (rewrite Hstored; exact Htaken).
  pose proof (send_duplicate_reference64 rnd generatedReference now w1 uid _ body
                Hf1 Hv1 Hlt1 Hp Htaken') as E2.
  split; [now rewrite E1|]. split; [now rewrite E2|]. split; [|split].
  - eexists. split.
    + subst w2. rewrite E2. cbn [fst].
      eapply findUser_after_save64; [exact Hf1 | reflexivity | exact Hid].
    + cbn [debitedUser balances]. now rewrite !get_set_balance_same64.
  - subst w2. rewrite E2. reflexivity.
  - subst w1. rewrite E1. cbn [fst transactions]. rewrite length_app. cbn. lia.
Qed.

(** ** Crypto send *)

(** X13.  For a valid account and a finite amount above 0 (the route's
    schema), a crypto send has two outcomes only when the generated
    reference is not taken.  When the balance in the currency compares below
    the amount it answers [INSUFFICIENT_BALANCE] and leaves the store as it
    was.  Otherwise it succeeds: the stored balance is the binary64
    difference, between 0 and the old balance, every other balance stays,
    and exactly one transaction is logged, of type [crypto_send] and status
    [completed], although nothing has yet been confirmed on any network;
    64 random values are read for the transaction hash and one for the
    reference. *)
Theorem sendCrypto_debits now w uid user body :
  findUser w uid = Some user ->
  validateUser user = true ->
  joi_positive (c_amount body) = true ->
  reference_taken (transactions w)
    (Some (generatedReference now (rnd (64 + drawn w)%nat))) = false ->
  let c := c_currency body in
  let amount := c_amount body in
  let balance := get_balance (balances user) c in
  let w' := fst (sendCrypto now uid body w) in
  let response := snd (sendCrypto now uid body w) in
  ((balance <? amount) = true ->
   response = Failure 400 "INSUFFICIENT_BALANCE" /\ w' = w)
  /\ ((balance <? amount) = false ->
      response = Success 200
      /\ drawn w' = (65 + drawn w)%nat
      /\ (exists user',
            findUser w' uid = Some user'
            /\ get_balance (balances user') c = balance - amount
            /\ (0 <=? balance - amount) = true
            /\ (balance - amount <=? balance) = true
            /\ (forall c', c' <> c ->
                  get_balance (balances user') c'
                  = get_balance (balances user) c')
            /\ trading user' = trading user)
      /\ exists t : Transaction,
           transactions w' = transactions w ++ [t]
           /\ t_user t = uid /\ t_type t = tx_crypto_send
           /\ t_currency t = Some c /\ t_amount t = amount
           /\ t_status t = tx_completed).
Proof.
  intros Hf Hv Hp Href c amount balance w' response.
  pose proof (findUser_id64 _ _ _ Hf) as Hid.
  destruct (joi_positive_facts _ Hp) as (_ & H0 & Hfin).
  pose proof (validateUser_balance64 user c Hv) as Hb.
  split.
  - intros Hlt.
    subst w' response. unfold B64.sendCrypto. run_handler64. rewrite Hf.
    cbn -[validateUser B64.Transaction_create].
    fold c amount. fold balance. rewrite Hlt. split; reflexivity.
  - intros Hlt.
    pose proof (validateUser_debited64 _ _ _ Hv Hp Hlt) as Hv'.
    pose proof (fsub_nonneg _ _ Hb H0 Hfin Hlt) as Hnn.
    assert (E : sendCrypto now uid body w =
      ({| users := updateOne (fun x => Nat.eqb (_id x) uid)
                     (fun _ => debitedUser user c amount) (users w);
          minings := minings w;
          transactions := transactions w ++
            [{| t_id := nextId w;
                t_doc := {| t_user := uid; t_type := tx_crypto_send;
                            t_currency := Some c; t_amount := amount;
                            t_fromCurrency := None; t_toCurrency := None;
                            t_convertedAmount := None; t_exchangeRate := None;
                            t_status := tx_completed;
                            t_reference :=
                              Some (generatedReference now
                                      (rnd (64 + drawn w)%nat)) |} |}];
          notifications := notifications w ++
            [{| n_user := uid; n_type := nt_transaction;
                n_title := "Crypto Sent"; n_priority := pr_normal |}];
          auditLogs := auditLogs w ++
            [{| a_user := uid; a_action := aa_send_crypto;
                a_entityType := Some et_transaction;
                a_entityId := Some (nextId w) |}];
          nextId := S (nextId w);
          drawn := (65 + drawn w)%nat |},
       Success 200)).
    { unfold B64.sendCrypto. run_handler64. rewrite Hf.
      cbn -[validateUser B64.Transaction_create Nat.add].
      fold c amount. fold balance. rewrite Hlt.
      unfold debitedUser in Hv'. fold c amount balance in Hv'. rewrite Hv'.
      unfold generateTxHash, Math_random_times.
      rewrite Transaction_create_valid
        by (unfold validateTransaction; cbn; unfold amount; now rewrite H0).
      cbn [t_reference transactions with_users with_drawn drawn no_reference
           B64.storedReference].
      rewrite Href. subst uid. reflexivity. }
    subst w' response. rewrite E. cbn [fst snd drawn].
    split; [reflexivity|]. split; [reflexivity|]. split.
    + eexists. split.
      * eapply findUser_after_save64; [exact Hf | reflexivity | exact Hid].
      * cbn [debitedUser balances trading]. rewrite get_set_balance_same64.
        split; [reflexivity|]. split; [exact Hnn|]. split.
        -- destruct (fsub_le _ _ Hb H0) as [Hnan|Hle]; [|exact Hle].
           rewrite (nonneg_not_nan _ Hnn) in Hnan. discriminate.
        -- split; [|reflexivity].
           intros c' Hc'. apply get_set_balance_other64. congruence.
    + eexists. cbn [transactions]. split; [reflexivity|]. cbn. repeat split.
Qed.

End Extras64.

(** X4 on an account with 100 USD that receives 50 USD. *)
Lemma receive_credits_witness :
  let result := receive (constantly 0.5) sampleReference 0 1 (receiveUSD 50)
                  (world_of (holder 100)) in
  snd result = Success 200
  /\ findUser (fst result) 1 = Some (holder 150)
  /\ List.length (transactions (fst result)) = 1%nat.
Proof.
  cbv zeta.
  destruct (receive_credits (constantly 0.5) sampleReference 0
              (world_of (holder 100)) 1 (holder 100) (receiveUSD 50))
    as (Hr & Hf & _ & _ & Ht); [reflexivity | reflexivity | reflexivity | reflexivity |].
  split; [exact Hr|]. split.
  - etransitivity; [exact Hf | reflexivity].
  - rewrite Ht. reflexivity.
Defined.

(** X5 on an account with 100 USD that sends 40 USD abroad. *)
Lemma international_is_processing_witness :
  let result := international (constantly 0.5) sampleReference 0 1
                  (internationalUSD 40) (world_of (holder 100)) in
  snd result = Success 200
  /\ findUser (fst result) 1 = Some (holder 60)
  /\ map (fun t : Transaction => t_status t) (transactions (fst result))
     = [tx_processing].
Proof.
  cbv zeta.
  destruct (international_is_processing (constantly 0.5) sampleReference 0
              (world_of (holder 100)) 1 (holder 100) (internationalUSD 40))
    as (Hr & Hf & Ht);
    [reflexivity | reflexivity | reflexivity | reflexivity | reflexivity
    | reflexivity |].
  split; [exact Hr|]. split.
  - etransitivity; [exact Hf | reflexivity].
  - rewrite Ht. reflexivity.
Defined.

(** X6 on an account with 100 USD and an international transfer of -500
    USD: the account is left with 600 USD and nothing is logged. *)
Lemma international_negative_amount_credits_witness :
  let result := international (constantly 0.5) sampleReference 0 1
                  (internationalUSD (-500)) (world_of (holder 100)) in
  snd result = Failure 500 "INTERNATIONAL_TRANSFER_FAILED"
  /\ findUser (fst result) 1 = Some (holder 600)
  /\ transactions (fst result) = [].
Proof.
  cbv zeta.
  destruct (international_negative_amount_credits (constantly 0.5)
              sampleReference 0 (world_of (holder 100)) 1 (holder 100)
              (internationalUSD (-500)))
    as (Hr & Hf & _ & _ & Ht & _); [reflexivity | reflexivity | reflexivity |].
  split; [exact Hr|]. split.
  - etransitivity; [exact Hf | reflexivity].
  - rewrite Ht. reflexivity.
Defined.

(** X8 on an account with 100 USD that sends 40 USD twice under the
    reference [INV-1]: 20 USD are left and one transaction is logged. *)
Lemma send_same_reference_twice_witness :
  let body := sendUSD 40 (Some "INV-1"%string) in
  let w := world_of (holder 100) in
  let w1 := fst (send (constantly 0.5) sampleReference 0 1 body w) in
  let w2 := fst (send (constantly 0.5) sampleReference 0 1 body w1) in
  snd (send (constantly 0.5) sampleReference 0 1 body w1)
  = Failure 500 "TRANSACTION_FAILED"
  /\ (exists user2, findUser w2 1 = Some user2
                    /\ get_balance (balances user2) USD = 20)
  /\ List.length (transactions w2) = 1%nat.
Proof.
  cbv zeta.
  destruct (send_same_reference_twice (constantly 0.5) sampleReference 0
              (world_of (holder 100)) 1 (holder 100)
              (sendUSD 40 (Some "INV-1"%string)) "INV-1"%string)
    as (_ & Hr & (user2 & Hf & Hb) & Ht & Hl);
    [reflexivity | reflexivity | reflexivity | reflexivity | reflexivity
    | reflexivity | reflexivity | reflexivity |].
  split; [exact Hr|]. split.
  - exists user2. split; [exact Hf|]. etransitivity; [exact Hb | reflexivity].
  - rewrite Ht, Hl. reflexivity.
Defined.

(** X13 on an account with 2 BTC that sends 0.5 BTC. *)
Lemma sendCrypto_debits_witness :
  let result := sendCrypto (constantly 0.5) sampleReference 0 1 (sendBTC 0.5)
                  (world_of (btcHolder 2)) in
  snd result = Success 200
  /\ drawn (fst result) = 65%nat
  /\ exists user',
       findUser (fst result) 1 = Some user'
       /\ get_balance (balances user') BTC = 1.5.
Proof.
  cbv zeta.
  destruct (sendCrypto_debits (constantly 0.5) sampleReference 0
              (world_of (btcHolder 2)) 1 (btcHolder 2) (sendBTC 0.5))
    as (_ & H); [reflexivity | reflexivity | reflexivity | reflexivity |].
  destruct H as (Hr & Hd & (user' & Hf & Hb & _) & _); [reflexivity|].
  split; [exact Hr|]. split; [exact Hd|].
  exists user'. split; [exact Hf|]. etransitivity; [exact Hb | reflexivity].
Defined.
